(** * Jakson: the request lifecycle and the application life cycle

    A shallow embedding of [src/action.ts] (the [Action] request pipeline
    and its validators) and of [src/application.ts] (the [Application]
    orchestration object), with the properties of the specification stated
    over it.

    Asynchronous code is sequential here: an [await]ed call is a monadic
    bind, a rejected promise is an exceptional outcome, and a promise that
    is created but never awaited is run with its outcome dropped. *)

From Stdlib Require Import ZArith Ascii String List Bool Lia.
From stdpp Require Import base tactics option list strings gmap pretty.
Import ListNotations.

Set Warnings "-register-all".

Local Open Scope string_scope.
Local Open Scope list_scope.
Local Open Scope Z_scope.

(** ** JavaScript values

    The values a handler can return and a request can carry. Numbers are
    the integers; an object is the list of the properties a property read
    can find on it (own and inherited alike). *)

Inductive JsValue : Type :=
| VUndefined
| VNull
| VBool (b : bool)
| VNumber (n : Z)
| VString (s : string)
| VFunction (name : string)
| VArray (items : list JsValue)
| VObject (props : list (string * JsValue)).

(** [obj.key]: the first binding of [key], [undefined] when there is none. *)
Fixpoint get (key : string) (props : list (string * JsValue)) : JsValue :=
  match props with
  | [] => VUndefined
  | (k, v) :: rest => if String.eqb k key then v else get key rest
  end.

(** [if (v)]: the values that count as true. *)
Definition truthy (v : JsValue) : bool :=
  match v with
  | VUndefined | VNull => false
  | VBool b => b
  | VNumber n => negb (n =? 0)
  | VString s => match s with EmptyString => false | String _ _ => true end
  | VFunction _ | VArray _ | VObject _ => true
  end.

Definition is_undefined (v : JsValue) : bool :=
  match v with VUndefined => true | _ => false end.

(** ** Thrown values

    [BaseError] is [src/errors/base-error.ts]. *)

Inductive ErrorClass : Type :=
| Error
| TypeError
| ReferenceError
| BaseError
| NotFoundError
| UnauthorizedError
| ForbiddenError
| ConflictError
| UserError (name : string) (super : ErrorClass).

(** The prototype chain of an instance of [c], nearest class first.

    Modelled from the spec: the classes [NotFoundError],
    [UnauthorizedError], [ForbiddenError] and [ConflictError] that
    [action.ts] imports from [./errors/] are not among the sources; the
    error taxonomy of the specification lists them as four separate kinds,
    taken here as four direct subclasses of [BaseError]. *)
Fixpoint prototypes (c : ErrorClass) : list ErrorClass :=
  c :: match c with
       | Error => []
       | TypeError | ReferenceError | BaseError => [Error]
       | NotFoundError | UnauthorizedError | ForbiddenError | ConflictError =>
           [BaseError; Error]
       | UserError _ super => prototypes super
       end.

(** Identity of the classes [instanceof] is asked about in the sources. *)
Definition same_class (c d : ErrorClass) : bool :=
  match c, d with
  | Error, Error | TypeError, TypeError | ReferenceError, ReferenceError
  | BaseError, BaseError | NotFoundError, NotFoundError
  | UnauthorizedError, UnauthorizedError | ForbiddenError, ForbiddenError
  | ConflictError, ConflictError => true
  | _, _ => false
  end.

(** What a [throw] carries: an error object, or any other value. *)
Inductive Thrown : Type :=
| ErrorObject (cls : ErrorClass) (message : string)
| Primitive (v : JsValue).

(** [error instanceof target]. *)
Definition instanceof (error : Thrown) (target : ErrorClass) : bool :=
  match error with
  | ErrorObject cls _ => existsb (same_class target) (prototypes cls)
  | Primitive _ => false
  end.

(** ** Outcomes *)

Inductive Outcome (A : Type) : Type :=
| Resolved (a : A)
| Rejected (error : Thrown).
Arguments Resolved {A} a.
Arguments Rejected {A} error.

Definition is_resolved {A} (o : Outcome A) : bool :=
  match o with Resolved _ => true | Rejected _ => false end.

(** ** [isPlainDto]

<<
function isPlainDto(obj: any): boolean {
  if (Array.isArray(obj)) {
    return obj.every(isPlainDto)
  } else if (typeof obj === 'object') {
    return obj.toJSON === undefined
  } else {
    return true
  }
}
>>
    [typeof null] is ['object'], and reading a property of [null] throws. *)

Definition null_toJSON : Thrown :=
  ErrorObject TypeError "Cannot read property 'toJSON' of null".

Fixpoint isPlainDto (obj : JsValue) : Outcome bool :=
  match obj with
  | VArray items =>
      (fix every (l : list JsValue) : Outcome bool :=
         match l with
         | [] => Resolved true
         | x :: rest =>
             match isPlainDto x with
             | Resolved true => every rest
             | Resolved false => Resolved false
             | Rejected e => Rejected e
             end
         end) items
  | VObject props => Resolved (is_undefined (get "toJSON" props))
  | VNull => Rejected null_toJSON
  | VUndefined | VBool _ | VNumber _ | VString _ | VFunction _ => Resolved true
  end.

(** [Array.prototype.every] with [isPlainDto] as the callback: it stops at
    the first element the callback rejects or throws on. *)
Fixpoint every (l : list JsValue) : Outcome bool :=
  match l with
  | [] => Resolved true
  | x :: rest =>
      match isPlainDto x with
      | Resolved true => every rest
      | Resolved false => Resolved false
      | Rejected e => Rejected e
      end
  end.

(** ** Requests, results and the validation engine *)

(** [Result] of [action.ts]. *)
Record Result : Type := { status : Z; body : JsValue }.

(** The part of the koa context the pipeline reads and writes:
    [ctx.request], [ctx.params], [ctx.query], and of the response its
    status, whether a status was assigned to it ([_explicitStatus]), and
    its body. Koa writes the response to the socket after the handler
    returned: no header is sent while the pipeline runs. *)
Record Request : Type := { method : string; path : string; request_body : JsValue }.

Record Context : Type := {
  request : Request;
  params : JsValue;
  query : JsValue;
  ctx_status : Z;
  explicit_status : bool;
  ctx_body : JsValue
}.

(** *** The accessors of the koa response

    [ctx.status] and [ctx.body] are accessors of koa's response object
    (koa 2). *)

(** [statuses.empty]: the status codes of a response that has no body. *)
Definition empty_status (code : Z) : bool :=
  (code =? 204) || (code =? 205) || (code =? 304).

(** [null == v]. *)
Definition nullish (v : JsValue) : bool :=
  match v with VUndefined | VNull => true | _ => false end.

Definition invalid_status (code : Z) : Thrown :=
  ErrorObject (UserError "AssertionError" Error)
    ("invalid status code: " +:+ pretty code).

(** [ctx.status = code]:
<<
    assert(Number.isInteger(code), 'status code must be a number')
    assert(code >= 100 && code <= 999, `invalid status code: ${code}`)
    this._explicitStatus = true
    this.res.statusCode = code
    if (this.body && statuses.empty[code]) this.body = null
>>
    The assignment of [null] to the body leaves the status, which is then
    one of a response without a body, as it is. *)
Definition set_status (code : Z) (c : Context) : Outcome Context :=
  if (100 <=? code) && (code <=? 999) then
    Resolved {| request := request c; params := params c; query := query c;
                ctx_status := code; explicit_status := true;
                ctx_body := if truthy (ctx_body c) && empty_status code then VNull
                            else ctx_body c |}
  else Rejected (invalid_status code).

(** [ctx.body = val]:
<<
    this._body = val
    if (null == val) {
      if (!statuses.empty[this.status]) this.status = 204
      ...
      return
    }
    if (!this._explicitStatus) this.status = 200
    ...
>>
    What follows sets headers from the type of the body. *)
Definition set_body (val : JsValue) (c : Context) : Context :=
  if nullish val then
    {| request := request c; params := params c; query := query c;
       ctx_status := if empty_status (ctx_status c) then ctx_status c else 204;
       explicit_status := explicit_status c || negb (empty_status (ctx_status c));
       ctx_body := val |}
  else
    {| request := request c; params := params c; query := query c;
       ctx_status := if explicit_status c then ctx_status c else 200;
       explicit_status := true;
       ctx_body := val |}.

(** A JSON schema is a JSON document ([src/json-schema.ts] types it). *)
Definition JSONSchema : Type := JsValue.

(** The options [createAjv] passes to [new Ajv(...)]. *)
Record AjvOptions : Type := { allErrors : bool; coerceTypes : bool; format : string }.

(** One call of a compiled validation function: whether it returned
    [true], its [errors] property afterwards, and the validated data as the
    call leaves it (type coercion rewrites it in place). *)
Record Verdict : Type := { valid : bool; errors : JsValue; coerced : JsValue }.

(** What the program takes from its platform: the state that user code
    (hooks, services, factories) can reach, the wall clock read by
    [Date.now()], the schema compiler of the Ajv library, the code of the
    functions found in data, and the binding of the free identifier [name]
    in the global scope ([None] where it is not declared, as under
    Node.js).

    [compile options seen schema] is [ajv.compile(schema)] on an instance
    made with [options] that was asked to compile the schemas [seen]
    before, in that order: it throws on a schema the instance refuses, and
    returns the validation function otherwise. *)
Class Platform : Type := {
  UserState : Type;
  now : UserState -> Z;
  compile : AjvOptions -> list JSONSchema -> JSONSchema -> Outcome (JsValue -> Verdict);
  call_function : string -> UserState -> Outcome JsValue * UserState;
  global_name : option string
}.

(** ** Static members and class inheritance

    A static member read [C.member] finds the own member of the nearest
    class on the chain [C, superclass of C, ...]; an assignment
    [C.member = v] creates an own member on [C]. A store maps class names to
    own members. *)
Fixpoint static_lookup {V : Type} (store : gmap string V) (chain : list string)
  : option V :=
  match chain with
  | [] => None
  | c :: supers =>
      match store !! c with
      | Some v => Some v
      | None => static_lookup store supers
      end
  end.

(** The class of the chain on which a static member read finds the
    member. *)
Fixpoint static_owner {V : Type} (store : gmap string V) (chain : list string)
  : option string :=
  match chain with
  | [] => None
  | c :: supers =>
      match store !! c with
      | Some _ => Some c
      | None => static_owner store supers
      end
  end.

(** The validator classes of [action.ts]. *)
Inductive ValidatorClass : Type := BodyValidator | ParamsValidator | QueryValidator.

Definition validator_chain (c : ValidatorClass) : list string :=
  match c with
  | BodyValidator => ["BodyValidator"; "Validator"; "ValidatorBase"]
  | ParamsValidator => ["ParamsValidator"; "CoercingValidator"; "ValidatorBase"]
  | QueryValidator => ["QueryValidator"; "CoercingValidator"; "ValidatorBase"]
  end.

Definition validator_name (c : ValidatorClass) : string :=
  match c with
  | BodyValidator => "BodyValidator"
  | ParamsValidator => "ParamsValidator"
  | QueryValidator => "QueryValidator"
  end.

(** [createAjv]: [Validator] for the body, [CoercingValidator] for params
    and query. An option that is not passed is off. *)
Definition createAjv (c : ValidatorClass) : AjvOptions :=
  match c with
  | BodyValidator => {| allErrors := true; coerceTypes := false; format := "full" |}
  | ParamsValidator | QueryValidator =>
      {| allErrors := true; coerceTypes := true; format := "full" |}
  end.

(** [getValue] of the three validator classes, and the place the coerced
    data lives in. *)
Definition getValue (c : ValidatorClass) (ctx : Context) : JsValue :=
  match c with
  | BodyValidator => request_body (request ctx)
  | ParamsValidator => params ctx
  | QueryValidator => query ctx
  end.

Definition setValue (c : ValidatorClass) (v : JsValue) (ctx : Context) : Context :=
  match c with
  | BodyValidator =>
      {| request := {| method := method (request ctx); path := path (request ctx);
                       request_body := v |};
         params := params ctx; query := query ctx;
         ctx_status := ctx_status ctx; explicit_status := explicit_status ctx;
         ctx_body := ctx_body ctx |}
  | ParamsValidator =>
      {| request := request ctx; params := v; query := query ctx;
         ctx_status := ctx_status ctx; explicit_status := explicit_status ctx;
         ctx_body := ctx_body ctx |}
  | QueryValidator =>
      {| request := request ctx; params := params ctx; query := v;
         ctx_status := ctx_status ctx; explicit_status := explicit_status ctx;
         ctx_body := ctx_body ctx |}
  end.

(** An instance of a validator class: its class and its compiled
    [validator]. *)
Record ValidatorBase : Type := {
  validator_class : ValidatorClass;
  validator : JsValue -> Verdict
}.

(** [Schemas] and [Validators] of [action.ts]. *)
Record Schemas : Type := {
  schemas_body : option JSONSchema;
  schemas_params : option JSONSchema;
  schemas_query : option JSONSchema
}.

Record Validators : Type := {
  validators_body : option ValidatorBase;
  validators_params : option ValidatorBase;
  validators_query : option ValidatorBase
}.

(** A class of the [Action] hierarchy: its name and the [static schemas]
    it declares itself, if it does. *)
Record ActionClass : Type := { class_name : string; own_schemas : option Schemas }.

(** The base class: [protected static schemas: Schemas = {}]. *)
Definition Action_base : ActionClass :=
  {| class_name := "Action";
     own_schemas := Some {| schemas_body := None; schemas_params := None;
                            schemas_query := None |} |}.

(** [this.ctor.schemas], for [ctor] given with its superclasses. *)
Fixpoint static_schemas (ctor : list ActionClass) : option Schemas :=
  match ctor with
  | [] => None
  | c :: supers =>
      match own_schemas c with
      | Some s => Some s
      | None => static_schemas supers
      end
  end.

(** The static members the constructors write: [validators] of the action
    classes and [ajv] of the validator classes. An [Ajv] instance is given
    by the options it was created with and by the schemas it was asked to
    compile since, which [ajv_schemas] keeps under the name of the class
    that owns the instance. *)
Record Statics : Type := {
  action_validators : gmap string Validators;
  validator_ajv : gmap string AjvOptions;
  ajv_schemas : gmap string (list JSONSchema)
}.

Definition set_validators (name : string) (validators : Validators) (st : Statics)
  : Statics :=
  {| action_validators := <[name := validators]> (action_validators st);
     validator_ajv := validator_ajv st; ajv_schemas := ajv_schemas st |}.

(** [{}] as a [Validators]. *)
Definition no_validators : Validators :=
  {| validators_body := None; validators_params := None; validators_query := None |}.

(** [validators.body = v] (or [params], or [query], after the class of
    [v]), [validators] being the own member of the class [name]. *)
Definition put_validator (name : string) (v : ValidatorBase) (st : Statics) : Statics :=
  let validators := default no_validators (action_validators st !! name) in
  set_validators name
    match validator_class v with
    | BodyValidator =>
        {| validators_body := Some v; validators_params := validators_params validators;
           validators_query := validators_query validators |}
    | ParamsValidator =>
        {| validators_body := validators_body validators; validators_params := Some v;
           validators_query := validators_query validators |}
    | QueryValidator =>
        {| validators_body := validators_body validators;
           validators_params := validators_params validators;
           validators_query := Some v |}
    end st.

Section Constructors.
Context `{Platform}.

(** The constructor of [ValidatorBase], run for class [c]:
<<
  if (!this.ctor.ajv) { this.ctor.ajv = this.createAjv() }
  this.validator = this.ctor.ajv.compile(schema)
>>
    [compile] throws on a schema the instance refuses; the instance has
    been asked to compile it all the same. *)
Definition new_validator (c : ValidatorClass) (schema : JSONSchema) (st : Statics)
  : Outcome ValidatorBase * Statics :=
  let '(owner, ajv, ajvs) :=
    match static_owner (validator_ajv st) (validator_chain c),
          static_lookup (validator_ajv st) (validator_chain c) with
    | Some owner, Some ajv => (owner, ajv, validator_ajv st)
    | _, _ =>
        (validator_name c, createAjv c,
         <[validator_name c := createAjv c]> (validator_ajv st))
    end in
  let seen := default [] (ajv_schemas st !! owner) in
  let st' := {| action_validators := action_validators st;
                validator_ajv := ajvs;
                ajv_schemas := <[owner := seen ++ [schema]]> (ajv_schemas st) |} in
  match compile ajv seen schema with
  | Resolved validate => (Resolved {| validator_class := c; validator := validate |}, st')
  | Rejected e => (Rejected e, st')
  end.

(** One step of [ensureValidatorsCreated], for the class [name]:
<<
      if (schemas.body) {
        validators.body = new BodyValidator(schemas.body)
      }
>>
*)
Definition fill (name : string) (c : ValidatorClass) (schema : option JSONSchema)
    (st : Statics) : Outcome unit * Statics :=
  match schema with
  | Some s =>
      if truthy s then
        match new_validator c s st with
        | (Resolved v, st') => (Resolved tt, put_validator name v st')
        | (Rejected e, st') => (Rejected e, st')
        end
      else (Resolved tt, st)
  | None => (Resolved tt, st)
  end.

(** [ensureValidatorsCreated], called by the constructor of [Action]:
<<
    const { schemas } = this.ctor
    let { validators } = this.ctor
    if (!validators) {
      validators = {}
      this.ctor.validators = validators
      if (!schemas) { return }
      if (schemas.body) { validators.body = new BodyValidator(schemas.body) }
      if (schemas.params) { validators.params = new ParamsValidator(schemas.params) }
      if (schemas.query) { validators.query = new QueryValidator(schemas.query) }
    }
>>
    The empty [validators] object is stored first and filled in place:
    when a validator constructor throws, the class keeps what was filled
    until then. *)
Definition ensureValidatorsCreated (ctor : list ActionClass) (st : Statics)
  : Outcome unit * Statics :=
  match static_lookup (action_validators st) (map class_name ctor) with
  | Some _ => (Resolved tt, st)
  | None =>
      match ctor with
      | [] => (Resolved tt, st)
      | this_ctor :: _ =>
          let name := class_name this_ctor in
          let st0 := set_validators name no_validators st in
          match static_schemas ctor with
          | None => (Resolved tt, st0)
          | Some schemas =>
              match fill name BodyValidator (schemas_body schemas) st0 with
              | (Rejected e, st1) => (Rejected e, st1)
              | (Resolved _, st1) =>
                  match fill name ParamsValidator (schemas_params schemas) st1 with
                  | (Rejected e, st2) => (Rejected e, st2)
                  | (Resolved _, st2) =>
                      fill name QueryValidator (schemas_query schemas) st2
                  end
              end
          end
      end
  end.
End Constructors.

(** ** The world a request runs in *)

(** The data of the three [log] calls of [action.ts]. *)
Inductive LogData : Type :=
| RequestStarted (method path : string)
| ErrorData (error : Thrown)
| RequestEnded (status requestTime : Z).

(** What is observed of an execution, in the order it happens: the calls
    the program makes on the log sink, on the services ([service.start()],
    [service.stop()]), on the values of the factories object
    ([factory.start()], [factory.stop()]), on the hooks of an action and of
    an application, on the compiled validators and on the listening socket,
    and the rejections of promises nobody awaits. A service or factory is
    named by its key in its map. *)
Inductive Event : Type :=
| Log (message : string) (data : LogData)
| ServiceStart (name : string)
| ServiceStop (name : string)
| FactoryStart (name : string)
| FactoryStop (name : string)
| Validate (c : ValidatorClass)
| ParseInput
| BeforeHandle (input : JsValue)
| Handle (input : JsValue)
| AfterHandle (input output : JsValue)
| BeforeStopServices
| AfterStopServices
| CreateServiceFactories
| RegisterRoutes
| Listen (port : Z)
| Close (listening : bool)
| UnhandledRejection (error : Thrown).

(** [net.Server], as far as [listen] and [close] go. *)
Record Server : Type := { listening : bool }.

(** The koa application: its middleware, in the order of the [use] calls. *)
Definition Koa : Type := list string.

Section Model.
Context `{Platform}.

(** User code: it runs on the state it can reach, and returns or throws. *)
Definition Hook (A : Type) : Type := UserState -> Outcome A * UserState.

(** [Service] of [service.ts]: [start] and [stop] are overridden by
    subclasses. *)
Record Service : Type := { start : Hook unit; stop : Hook unit }.

(** [ServiceFactory] of [service-factory.ts]. *)
Record ServiceFactory : Type := {
  factory_start : Hook unit;
  factory_stop : Hook unit;
  createService : Hook Service
}.

(** A value of the object [createServiceFactories] returns: an instance
    of [ServiceFactory], or any other value. *)
Inductive FactoryValue : Type :=
| Factory (f : ServiceFactory)
| NotFactory (v : JsValue).

Definition cannot_read (member value : string) : Thrown :=
  ErrorObject TypeError ("Cannot read property '" +:+ member +:+ "' of " +:+ value).

Definition not_a_function (member : string) : Thrown :=
  ErrorObject TypeError (String.append member " is not a function").

(** [value.member()] on a value that is data, written [expression] in the
    source, for a member that none of the built-in prototypes has
    ([start], [stop], [createService]): reading the member of [undefined]
    or [null] throws, calling what is not a function throws, and a function
    runs the code the platform has for it. *)
Definition call_member (v : JsValue) (expression member : string) : Hook JsValue :=
  fun u =>
    match v with
    | VUndefined => (Rejected (cannot_read member "undefined"), u)
    | VNull => (Rejected (cannot_read member "null"), u)
    | VObject props =>
        match get member props with
        | VFunction name => call_function name u
        | _ => (Rejected (not_a_function (expression +:+ "." +:+ member)), u)
        end
    | VBool _ | VNumber _ | VString _ | VFunction _ | VArray _ =>
        (Rejected (not_a_function (expression +:+ "." +:+ member)), u)
    end.

(** A call awaited for its completion only. *)
Definition completion {A} (h : Hook A) : Hook unit :=
  fun u =>
    match h u with
    | (Resolved _, u') => (Resolved tt, u')
    | (Rejected e, u') => (Rejected e, u')
    end.

(** What [service.start()] and [service.stop()] do when the service is a
    value that is data. *)
Definition as_service (v : JsValue) : Service :=
  {| start := completion (call_member v "service" "start");
     stop := completion (call_member v "service" "stop") |}.

(** What [factory.start()], [factory.stop()] and
    [factory.createService(serviceContext)] do on a value of the factories
    object: the methods of a factory, the members of any other value. *)
Definition members (v : FactoryValue) : ServiceFactory :=
  match v with
  | Factory f => f
  | NotFactory v =>
      {| factory_start := completion (call_member v "factory" "start");
         factory_stop := completion (call_member v "factory" "stop");
         createService := fun u =>
           match call_member v "factory" "createService" u with
           | (Resolved service, u') => (Resolved (as_service service), u')
           | (Rejected e, u') => (Rejected e, u')
           end |}
  end.

(** The fields of the application object, the koa context of the request
    in flight, the static members of the classes, the state of user code,
    the observations made so far, and the host: for each coming call of
    [listen] on a legal port, whether the port can be bound (it can when
    the list is used up). *)
Record World : Type := {
  user : UserState;
  trace : list Event;
  ctx : Context;
  statics : Statics;
  serviceFactories : option (list (string * FactoryValue));
  koa : option Koa;
  server : option Server;
  network : list bool
}.

Definition set_user (u : UserState) (w : World) : World :=
  {| user := u; trace := trace w; ctx := ctx w; statics := statics w;
     serviceFactories := serviceFactories w; koa := koa w; server := server w;
     network := network w |}.

Definition add_event (e : Event) (w : World) : World :=
  {| user := user w; trace := trace w ++ [e]; ctx := ctx w; statics := statics w;
     serviceFactories := serviceFactories w; koa := koa w; server := server w;
     network := network w |}.

Definition set_ctx (c : Context) (w : World) : World :=
  {| user := user w; trace := trace w; ctx := c; statics := statics w;
     serviceFactories := serviceFactories w; koa := koa w; server := server w;
     network := network w |}.

Definition set_statics (st : Statics) (w : World) : World :=
  {| user := user w; trace := trace w; ctx := ctx w; statics := st;
     serviceFactories := serviceFactories w; koa := koa w; server := server w;
     network := network w |}.

Definition set_serviceFactories (fs : list (string * FactoryValue)) (w : World) : World :=
  {| user := user w; trace := trace w; ctx := ctx w; statics := statics w;
     serviceFactories := Some fs; koa := koa w; server := server w;
     network := network w |}.

Definition set_koa (k : Koa) (w : World) : World :=
  {| user := user w; trace := trace w; ctx := ctx w; statics := statics w;
     serviceFactories := serviceFactories w; koa := Some k; server := server w;
     network := network w |}.

Definition set_server (s : Server) (w : World) : World :=
  {| user := user w; trace := trace w; ctx := ctx w; statics := statics w;
     serviceFactories := serviceFactories w; koa := koa w; server := Some s;
     network := network w |}.

Definition set_network (answers : list bool) (w : World) : World :=
  {| user := user w; trace := trace w; ctx := ctx w; statics := statics w;
     serviceFactories := serviceFactories w; koa := koa w; server := server w;
     network := answers |}.

(** *** The monad of asynchronous code *)

Definition M (A : Type) : Type := World -> Outcome A * World.

Definition ret {A} (a : A) : M A := fun w => (Resolved a, w).

Definition throw {A} (e : Thrown) : M A := fun w => (Rejected e, w).

Definition bind {A B} (m : M A) (k : A -> M B) : M B :=
  fun w =>
    match m w with
    | (Resolved a, w') => k a w'
    | (Rejected e, w') => (Rejected e, w')
    end.

(** [try { m } finally { cleanup }]: the cleanup always runs, and what it
    throws replaces the completion of [m]. *)
Definition finally {A} (m : M A) (cleanup : M unit) : M A :=
  fun w =>
    match m w with
    | (r, w1) =>
        match cleanup w1 with
        | (Resolved _, w2) => (r, w2)
        | (Rejected e, w2) => (Rejected e, w2)
        end
    end.

(** A promise that is not awaited: the callee runs, and its rejection
    reaches nobody. *)
Definition floating {A} (m : M A) : M unit :=
  fun w =>
    match m w with
    | (Resolved _, w') => (Resolved tt, w')
    | (Rejected e, w') => (Resolved tt, add_event (UnhandledRejection e) w')
    end.

Definition emit (e : Event) : M unit := fun w => (Resolved tt, add_event e w).

(** A call into user code. *)
Definition call {A} (h : Hook A) : M A :=
  fun w => match h (user w) with (r, u) => (r, set_user u w) end.

Definition read {A} (f : World -> A) : M A := fun w => (Resolved (f w), w).

Definition write (f : World -> World) : M unit := fun w => (Resolved tt, f w).

(** An asynchronous call whose promise may stay pending for ever:
    [None]. *)
Definition Awaited (A : Type) : Type := World -> option (Outcome A * World).
End Model.

Declare Scope async_scope.
Delimit Scope async_scope with async.
Notation "'let*' x := m 'in' k" := (bind m (fun x => k))
  (at level 10, x name, m at level 100, k at level 200) : async_scope.
Notation "m ;; k" := (bind m (fun _ => k))
  (at level 100, k at level 200, right associativity) : async_scope.
Local Open Scope async_scope.

(** ** [Application]: the service instances and the log *)

Section Application_services.
Context `{Platform}.

(** [Application.log]: [console.log(message, data)]. [Action.log]
    forwards to it. *)
Definition log (message : string) (data : LogData) : M unit :=
  emit (Log message data).

(** [forEachService]: the entries of the services object in its own
    order, each callback awaited before the next entry. *)
Fixpoint forEachService (services : list (string * Service))
    (callback : string -> Service -> M unit) : M unit :=
  match services with
  | [] => ret tt
  | (name, service) :: rest =>
      callback name service ;; forEachService rest callback
  end.

Definition startServiceInstances (services : list (string * Service)) : M unit :=
  forEachService services
    (fun name service => emit (ServiceStart name) ;; call (start service)).

Definition stopServiceInstances (services : list (string * Service)) : M unit :=
  forEachService services
    (fun name service => emit (ServiceStop name) ;; call (stop service)).
End Application_services.

(** ** [Action] *)

Section Action.
Context `{Platform}.

(** One instance of a concrete subclass of [Action]: its class with its
    superclasses, its [services], and the methods a subclass provides
    ([handle]) or may override. *)
Record Action : Type := {
  ctor : list ActionClass;
  services : list (string * Service);
  parseInput : Context -> Hook JsValue;
  handle : JsValue -> Hook JsValue;
  beforeHandle : JsValue -> Hook JsValue;
  afterHandle : JsValue -> JsValue -> Hook JsValue;
  beforeStopServices : Hook unit;
  afterStopServices : Hook unit
}.

(** The implementations of the base class. *)
Definition Action_parseInput (c : Context) : Hook JsValue :=
  fun u => (Resolved (VObject []), u).

Definition Action_beforeHandle (input : JsValue) : Hook JsValue :=
  fun u => (Resolved input, u).

Definition Action_afterHandle (input output : JsValue) : Hook JsValue :=
  fun u => (Resolved output, u).

Definition Action_beforeStopServices : Hook unit := fun u => (Resolved tt, u).

Definition Action_afterStopServices : Hook unit := fun u => (Resolved tt, u).

(** [ctx.status = code] and [ctx.body = val] on the context of the
    request. *)
Definition assign_status (code : Z) : M unit :=
  fun w =>
    match set_status code (ctx w) with
    | Resolved c => (Resolved tt, set_ctx c w)
    | Rejected e => (Rejected e, w)
    end.

Definition assign_body (val : JsValue) : M unit :=
  write (fun w => set_ctx (set_body val (ctx w)) w).

(** [respond]:
<<
    ctx.status = result.status
    ctx.body = result.body
>>
*)
Definition respond (result : Result) : M unit :=
  assign_status (status result) ;;
  assign_body (body result).

(** [ValidatorBase.validate]. *)
Definition Validator_validate (v : ValidatorBase) : M (option Result) :=
  emit (Validate (validator_class v)) ;;
  let* c := read ctx in
  let verdict := validator v (getValue (validator_class v) c) in
  write (fun w => set_ctx (setValue (validator_class v) (coerced verdict) (ctx w)) w) ;;
  if valid verdict then ret None
  else ret (Some {| status := 400;
                    body := VObject [("error", VString "Validation");
                                     ("errors", errors verdict)] |}).

Definition undefined_validators : Thrown :=
  ErrorObject TypeError "Cannot read property 'body' of undefined".

(** [Action.validate]. *)
Definition validate (a : Action) : M (option Result) :=
  let* st := read statics in
  match static_lookup (action_validators st) (map class_name (ctor a)) with
  | None => throw undefined_validators
  | Some validators =>
      let* result :=
        match validators_body validators with
        | Some v => Validator_validate v
        | None => ret None
        end in
      let* result :=
        match result, validators_params validators with
        | None, Some v => Validator_validate v
        | _, _ => ret result
        end in
      let* result :=
        match result, validators_query validators with
        | None, Some v => Validator_validate v
        | _, _ => ret result
        end in
      ret result
  end.

Definition error_body (kind : string) : JsValue :=
  VObject [("error", VString kind)].

(** [Action.handleError]. *)
Definition handleError (error : Thrown) : M Result :=
  if instanceof error NotFoundError then
    ret {| status := 404; body := error_body "NotFound" |}
  else if instanceof error UnauthorizedError then
    ret {| status := 401; body := error_body "Unauthorized" |}
  else if instanceof error ForbiddenError then
    ret {| status := 403; body := error_body "Forbidden" |}
  else if instanceof error ConflictError then
    ret {| status := 409; body := error_body "Conflict" |}
  else
    log "error" (ErrorData error) ;;
    ret {| status := 500; body := error_body "Internal" |}.

(** [Action.handleResult]:
<<
    if (result.status >= 200 && result.status < 300) {
      this.respond(ctx, result)
    } else {
      ctx.status = result.status
      ctx.body = result.body
    }
>>
*)
Definition handleResult (result : Result) : M unit :=
  if (200 <=? status result) && (status result <? 300) then respond result
  else
    assign_status (status result) ;;
    assign_body (body result).

Definition not_plain : Thrown := ErrorObject Error "always return plain objects (DTOs)".

Definition undefined_result : Thrown :=
  ErrorObject TypeError "Cannot read property 'status' of undefined".

(** The [try] block of [run]; its value is what it leaves in [result]. *)
Definition run_try (a : Action) (method path : string) : M Result :=
  startServiceInstances (services a) ;;
  log "request started" (RequestStarted method path) ;;
  let* validationResult := validate a in
  match validationResult with
  | Some result => ret result
  | None =>
      let* c := read ctx in
      let* input := emit ParseInput ;; call (parseInput a c) in
      let* c := read ctx in
      let* parsed := emit ParseInput ;; call (parseInput a c) in
      let* input := emit (BeforeHandle parsed) ;; call (beforeHandle a parsed) in
      let* output := emit (Handle input) ;; call (handle a input) in
      let* output :=
        emit (AfterHandle input output) ;; call (afterHandle a input output) in
      let* plain :=
        if truthy output then
          match isPlainDto output with
          | Resolved b => ret b
          | Rejected e => throw e
          end
        else ret true in
      if plain then ret {| status := 200; body := output |}
      else throw not_plain
  end.

(** The [finally] block of [run], for the value [result] has then. *)
Definition run_finally (result : option Result) (requestStartTime : Z) (a : Action)
  : M unit :=
  match result with
  | None => throw undefined_result
  | Some result =>
      handleResult result ;;
      let* t := read (fun w => now (user w)) in
      log "request ended" (RequestEnded (status result) (t - requestStartTime)) ;;
      (emit BeforeStopServices ;; call (beforeStopServices a)) ;;
      stopServiceInstances (services a) ;;
      (emit AfterStopServices ;; call (afterStopServices a))
  end.

(** [Action.run]:
<<
    let result: Result
    try { ...; result = ... }
    catch (err) { result = this.handleError(err) }
    finally { this.handleResult(ctx, result!); ... }
>>
    The [finally] block runs after the [try] block completed, after the
    [catch] block completed, and after the [catch] block threw, [result]
    being unassigned in the last case. *)
Definition run (a : Action) : M unit :=
  let* requestStartTime := read (fun w => now (user w)) in
  let* req := read (fun w => request (ctx w)) in
  fun w =>
    match run_try a (method req) (path req) w with
    | (Resolved result, w1) => run_finally (Some result) requestStartTime a w1
    | (Rejected err, w1) =>
        match handleError err w1 with
        | (Resolved result, w2) => run_finally (Some result) requestStartTime a w2
        | (Rejected thrown, w2) =>
            finally (throw thrown) (run_finally None requestStartTime a) w2
        end
    end.
End Action.

(** ** [Application]: configuration and life cycle *)

(** [Config] of [config.ts]. *)
Inductive ConfigType : Type := development | test | integration_test | staging | production.

Record Config : Type := { type : ConfigType; port : Z }.

Section Application.
Context `{Platform}.

(** A concrete subclass of [Application]: its [config], the two abstract
    methods, and the three koa hooks (each may [use] more middleware). *)
Record Application : Type := {
  config : Config;
  createServiceFactories : Hook (list (string * FactoryValue));
  registerRoutes : Hook unit;
  beforeKoaConfigured : Koa -> Hook Koa;
  afterKoaBodyParserAdded : Koa -> Hook Koa;
  afterKoaConfigured : Koa -> Hook Koa
}.

(** The koa hooks of the base class do nothing. *)
Definition Application_koa_hook (k : Koa) : Hook Koa := fun u => (Resolved k, u).

Definition undefined_entries : Thrown :=
  ErrorObject TypeError "Cannot convert undefined or null to object".

(** [forEachServiceFactory]: the entries of [this.serviceFactories], each
    callback awaited before the next entry. *)
Fixpoint forEachEntry (entries : list (string * FactoryValue))
    (callback : string -> FactoryValue -> M unit) : M unit :=
  match entries with
  | [] => ret tt
  | (name, factory) :: rest => callback name factory ;; forEachEntry rest callback
  end.

Definition forEachServiceFactory (callback : string -> FactoryValue -> M unit)
  : M unit :=
  let* factories := read serviceFactories in
  match factories with
  | None => throw undefined_entries
  | Some entries => forEachEntry entries callback
  end.

(** The error the callback of [typeCheckServiceFactories] throws:
<<
  throw new Error(`${name} is not an instance of ServiceFactory`)
>>
    The callback binds the key as [_]; [name] is read from the global
    scope, and reading an undeclared identifier throws. *)
Definition type_check_error : Thrown :=
  match global_name with
  | Some name =>
      ErrorObject Error (String.append name " is not an instance of ServiceFactory")
  | None => ErrorObject ReferenceError "name is not defined"
  end.

(** [typeCheckServiceFactories]: the promise of [forEachServiceFactory]
    is neither awaited nor returned. *)
Definition typeCheckServiceFactories : M unit :=
  floating
    (forEachServiceFactory (fun _ factory =>
       match factory with
       | Factory _ => ret tt
       | NotFactory _ => throw type_check_error
       end)).

(** [startServiceFactories] and [stopServiceFactories]: the callbacks
    call [factory.start()] and [factory.stop()] on whatever the value
    is. *)
Definition startServiceFactories : M unit :=
  forEachServiceFactory (fun name factory =>
    emit (FactoryStart name) ;; call (factory_start (members factory))).

Definition stopServiceFactories : M unit :=
  forEachServiceFactory (fun name factory =>
    emit (FactoryStop name) ;; call (factory_stop (members factory))).

(** [createKoa]. *)
Definition createKoa (app : Application) : M Koa :=
  let* k := call (beforeKoaConfigured app []) in
  let k := k ++ ["bodyParser"] in
  let* k := call (afterKoaBodyParserAdded app k) in
  let k := k ++ ["routes"; "allowedMethods"] in
  call (afterKoaConfigured app k).

(** [configure]. *)
Definition configure (app : Application) : M unit :=
  let* factories :=
    emit CreateServiceFactories ;; call (createServiceFactories app) in
  write (set_serviceFactories factories) ;;
  typeCheckServiceFactories ;;
  (emit RegisterRoutes ;; call (registerRoutes app)) ;;
  let* k := createKoa app in
  write (set_koa k).

Definition undefined_koa : Thrown :=
  ErrorObject TypeError "Cannot read property 'callback' of undefined".

Definition bad_port (p : Z) : Thrown :=
  ErrorObject (UserError "RangeError" Error)
    ("Port should be >= 0 and < 65536. Received " +:+ pretty p +:+ ".").

(** [startServer]:
<<
    const server = http.createServer(koa.callback())
    await new Promise(resolve => server.listen(this.config.port, resolve))
    return server
>>
    [listen] throws on a port outside [0, 65535]. On a legal port it
    calls [resolve] once the port is bound; when the host does not let the
    port be bound (it is in use, say) the server emits an error that nobody
    listens to, [resolve] is never called and the promise stays pending. *)
Definition startServer (app : Application) (k : option Koa) : Awaited Server :=
  fun w =>
    match k with
    | None => Some (Rejected undefined_koa, w)
    | Some _ =>
        let p := port (config app) in
        if (0 <=? p) && (p <=? 65535) then
          match network w with
          | false :: _ => None
          | true :: answers =>
              Some (Resolved {| listening := true |},
                    set_network answers (add_event (Listen p) w))
          | [] => Some (Resolved {| listening := true |}, add_event (Listen p) w)
          end
        else Some (Rejected (bad_port p), w)
    end.

(** [stopServer]: [new Promise(resolve => server.close(resolve))].
    [close] calls its callback once the server is closed, and with an
    error argument at once when the server was not listening; the
    promise resolves on either call. *)
Definition stopServer (s : Server) : M unit :=
  emit (Close (listening s)) ;;
  write (fun w =>
    match server w with
    | Some _ => set_server {| listening := false |} w
    | None => w
    end).

Definition not_configured : Thrown :=
  ErrorObject Error "run `await app.configure()` before `await app.start()`".

(** [start]:
<<
    if (!this.serviceFactories) { throw new Error(...) }
    await this.startServiceFactories()
    this.server = await this.startServer(this.koa)
>>
*)
Definition Application_start (app : Application) : Awaited unit :=
  fun w =>
    match (let* factories := read serviceFactories in
           match factories with
           | None => throw not_configured
           | Some _ => startServiceFactories ;; read koa
           end) w with
    | (Rejected e, w1) => Some (Rejected e, w1)
    | (Resolved k, w1) =>
        match startServer app k w1 with
        | Some (Resolved s, w2) => Some (Resolved tt, set_server s w2)
        | Some (Rejected e, w2) => Some (Rejected e, w2)
        | None => None
        end
    end.

(** [stop]:
<<
    if (this.server) { await this.stopServer(this.server) }
    await this.stopServiceFactories()
>>
*)
Definition Application_stop (app : Application) : M unit :=
  let* s := read server in
  match s with
  | Some s => stopServer s
  | None => ret tt
  end ;;
  stopServiceFactories.
End Application.

(** ** Vocabulary of the properties *)

Section Vocabulary.
Context `{Platform}.

(** The stages of the [try] block of [run], one after the other. *)
Definition run_validate (a : Action) (method path : string) : M (option Result) :=
  startServiceInstances (services a) ;;
  log "request started" (RequestStarted method path) ;;
  validate a.

Definition run_input (a : Action) : M JsValue :=
  let* c := read ctx in
  let* input := emit ParseInput ;; call (parseInput a c) in
  let* c := read ctx in
  let* parsed := emit ParseInput ;; call (parseInput a c) in
  emit (BeforeHandle parsed) ;; call (beforeHandle a parsed).

Definition run_handle (a : Action) (input : JsValue) : M JsValue :=
  emit (Handle input) ;; call (handle a input).

Definition run_afterHandle (a : Action) (input output : JsValue) : M JsValue :=
  emit (AfterHandle input output) ;; call (afterHandle a input output).

Definition run_check (output : JsValue) : M Result :=
  let* plain :=
    if truthy output then
      match isPlainDto output with
      | Resolved b => ret b
      | Rejected e => throw e
      end
    else ret true in
  if plain then ret {| status := 200; body := output |}
  else throw not_plain.

(** From the parsing of the input to the output of [afterHandle]. *)
Definition run_output (a : Action) : M JsValue :=
  let* input := run_input a in
  let* output := run_handle a input in
  run_afterHandle a input output.

(** The response a world holds: [ctx.status] and [ctx.body]. *)
Definition response (w : World) : Z * JsValue := (ctx_status (ctx w), ctx_body (ctx w)).

(** The response koa makes of a result: its status and its body, but the
    status 204 when the body is [null] or [undefined] (and the status of
    the result is not itself one of a response without a body). *)
Definition answer (result : Result) : Z * JsValue :=
  (if nullish (body result) && negb (empty_status (status result)) then 204
   else status result,
   body result).

(** A result whose status the koa context accepts. *)
Definition sendable (result : Result) : Prop := 100 <= status result <= 999.

(** The world [run] leaves, and the method and path it reads first. *)
Definition after_run (a : Action) (w : World) : World := snd (run a w).

Definition request_method (w : World) : string := method (request (ctx w)).
Definition request_path (w : World) : string := path (request (ctx w)).

(** User code that completes normally whatever state it runs in. *)
Definition never_rejects {A} (h : Hook A) : Prop :=
  forall u, is_resolved (fst (h u)) = true.

(** The events of the service life cycle. *)
Definition is_lifecycle (e : Event) : bool :=
  match e with
  | ServiceStart _ | ServiceStop _ | BeforeStopServices | AfterStopServices => true
  | _ => false
  end.

Definition lifecycle (events : list Event) : list Event :=
  List.filter is_lifecycle events.

(** One pass over the services of [a]: every instance started, then
    [beforeStopServices], every instance stopped, [afterStopServices]. *)
Definition full_lifecycle (a : Action) : list Event :=
  map (fun s => ServiceStart (fst s)) (services a)
  ++ [BeforeStopServices]
  ++ map (fun s => ServiceStop (fst s)) (services a)
  ++ [AfterStopServices].

(** The calls of [parseInput], [beforeHandle], [handle] and
    [afterHandle]. *)
Definition is_pipeline_call (e : Event) : bool :=
  match e with
  | ParseInput | BeforeHandle _ | Handle _ | AfterHandle _ _ => true
  | _ => false
  end.

Definition is_parseInput (e : Event) : bool :=
  match e with ParseInput => true | _ => false end.

Definition is_close (e : Event) : bool :=
  match e with Close _ => true | _ => false end.

(** What the specification says of validation: the declared stages in
    the order body, params, query, up to the first one that fails. *)
Fixpoint validate_in_order (stages : list ValidatorBase) : M (option Result) :=
  match stages with
  | [] => ret None
  | v :: rest =>
      let* result := Validator_validate v in
      match result with
      | Some failure => ret (Some failure)
      | None => validate_in_order rest
      end
  end.

Definition declared_stages (validators : Validators) : list ValidatorBase :=
  omap id [validators_body validators; validators_params validators;
           validators_query validators].

(** The validators of an action, as [validate] finds them. *)
Definition validators_of (a : Action) (w : World) : option Validators :=
  static_lookup (action_validators (statics w)) (map class_name (ctor a)).

(** The world the constructor of [Action] leaves, whether it returned or
    threw: the static members it wrote. *)
Definition construct (ctor : list ActionClass) (w : World) : World :=
  set_statics (snd (ensureValidatorsCreated ctor (statics w))) w.

(** The stores the constructors can produce: nothing yet, or the store
    after one more construction, completed or not, of an instance of some
    action class. *)
Inductive reachable : Statics -> Prop :=
| reachable_empty :
    reachable {| action_validators := ∅; validator_ajv := ∅; ajv_schemas := ∅ |}
| reachable_construct ctor st :
    reachable st -> reachable (snd (ensureValidatorsCreated ctor st)).

(** Every [ajv] member in the store is the one [createAjv] makes for the
    class that owns it. *)
Definition ajv_consistent (ajvs : gmap string AjvOptions) : Prop :=
  forall name ajv, ajvs !! name = Some ajv ->
    exists c, name = validator_name c /\ ajv = createAjv c.

(** An object with a serialization of its own: it has a [toJSON]. *)
Definition custom_serialization (v : JsValue) : Prop :=
  exists props, v = VObject props /\ get "toJSON" props <> VUndefined.

(** A schema made of one keyword. *)
Definition type_schema (t : string) : JSONSchema := VObject [("type", VString t)].

Definition property_schema (p : string) (sub : JSONSchema) : JSONSchema :=
  VObject [("type", VString "object"); ("properties", VObject [(p, sub)])].

(** A view of the world that neither the observations nor user code
    reach, and a computation that leaves a view as it is. *)
Definition untouched {B} (f : World -> B) : Prop :=
  (forall e w, f (add_event e w) = f w) /\ (forall u w, f (set_user u w) = f w).

Definition keeps {A B} (f : World -> B) (m : M A) : Prop :=
  forall w, f (snd (m w)) = f w.

(** A computation that adds to the observations only events of a kind. *)
Definition emits {A} (P : Event -> Prop) (m : M A) : Prop :=
  forall w, exists events,
    trace (snd (m w)) = trace w ++ events /\ Forall P events.

(** The world [start] leaves when its promise settles. *)
Definition after_start (app : Application) (w : World) : World :=
  match Application_start app w with
  | Some (_, w1) => w1
  | None => w
  end.

(** Factories that are factories, with a [stop] that completes. *)
Definition stops_normally (v : FactoryValue) : Prop :=
  match v with
  | Factory f => never_rejects (factory_stop f)
  | NotFactory _ => False
  end.
End Vocabulary.

(** ** The contract of the schema compiler, and a reference engine *)

(** Strings that read as an integer: decimal digits after an optional
    minus sign. *)
Definition is_digit (c : Ascii.ascii) : bool :=
  let n := Z.of_nat (Ascii.nat_of_ascii c) in (48 <=? n) && (n <=? 57).

Fixpoint all_digits (s : string) : bool :=
  match s with
  | EmptyString => true
  | String c rest => is_digit c && all_digits rest
  end.

Definition unsigned_looking (s : string) : bool :=
  match s with
  | EmptyString => false
  | String _ _ => all_digits s
  end.

Definition integer_looking (s : string) : bool :=
  match s with
  | String "-"%char rest => unsigned_looking rest
  | _ => unsigned_looking s
  end.

Definition boolean_looking (s : string) : bool :=
  String.eqb s "true" || String.eqb s "false".

(** What the pipeline relies on from the [type] keyword of the compiler,
    for a property [p] declared with a type: the schema compiles, whatever
    the instance compiled before; without [coerceTypes] a string is not an
    integer; with [coerceTypes] a string that reads as an integer is one,
    and a string that reads as a boolean is a boolean. *)
Record TypeKeyword `{Platform} : Prop := {
  type_strict opts seen p props s :
    coerceTypes opts = false ->
    get p props = VString s ->
    exists validate,
      compile opts seen (property_schema p (type_schema "integer")) = Resolved validate
      /\ valid (validate (VObject props)) = false;
  type_coerces_integer opts seen p props s :
    coerceTypes opts = true ->
    get p props = VString s ->
    integer_looking s = true ->
    exists validate,
      compile opts seen (property_schema p (type_schema "integer")) = Resolved validate
      /\ valid (validate (VObject props)) = true;
  type_coerces_boolean opts seen p props s :
    coerceTypes opts = true ->
    get p props = VString s ->
    boolean_looking s = true ->
    exists validate,
      compile opts seen (property_schema p (type_schema "boolean")) = Resolved validate
      /\ valid (validate (VObject props)) = true
}.

(** A reference engine for the keywords [type] and [properties], with the
    coercions from strings, reporting errors the way the wire format of
    the specification shows them. *)
Fixpoint digits_value (s : string) (acc : Z) : Z :=
  match s with
  | EmptyString => acc
  | String c rest => digits_value rest (10 * acc + (Z.of_nat (Ascii.nat_of_ascii c) - 48))
  end.

Definition to_integer (s : string) : Z :=
  match s with
  | String "-"%char rest => - digits_value rest 0
  | _ => digits_value s 0
  end.

Definition typed (opts : AjvOptions) (t : string) (v : JsValue) : option JsValue :=
  match v with
  | VNumber _ => if String.eqb t "integer" || String.eqb t "number" then Some v else None
  | VBool _ => if String.eqb t "boolean" then Some v else None
  | VNull => if String.eqb t "null" then Some v else None
  | VArray _ => if String.eqb t "array" then Some v else None
  | VObject _ => if String.eqb t "object" then Some v else None
  | VString s =>
      if String.eqb t "string" then Some v
      else if coerceTypes opts && (String.eqb t "integer" || String.eqb t "number")
              && integer_looking s
      then Some (VNumber (to_integer s))
      else if coerceTypes opts && String.eqb t "boolean" && boolean_looking s
      then Some (VBool (String.eqb s "true"))
      else None
  | VUndefined | VFunction _ => None
  end.

Fixpoint set (key : string) (v : JsValue) (props : list (string * JsValue))
  : list (string * JsValue) :=
  match props with
  | [] => [(key, v)]
  | (k, x) :: rest =>
      if String.eqb k key then (k, v) :: rest else (k, x) :: set key v rest
  end.

Definition ajv_error (keyword dataPath schemaPath : string) (params : JsValue)
    (message : string) : JsValue :=
  VObject [("keyword", VString keyword); ("dataPath", VString dataPath);
           ("schemaPath", VString schemaPath); ("params", params);
           ("message", VString message)].

Definition type_keyword (opts : AjvOptions) (dataPath schemaPath : string)
    (arg data : JsValue) : JsValue * list JsValue :=
  match arg with
  | VString t =>
      match typed opts t data with
      | Some data' => (data', [])
      | None =>
          (data, [ajv_error "type" dataPath (schemaPath +:+ "/type")
                    (VObject [("type", VString t)]) ("should be " +:+ t)])
      end
  | _ => (data, [])
  end.

Fixpoint check (opts : AjvOptions) (dataPath schemaPath : string)
    (schema data : JsValue) {struct schema} : JsValue * list JsValue :=
  match schema with
  | VObject keywords =>
      (fix each (ks : list (string * JsValue)) (d : JsValue)
         : JsValue * list JsValue :=
         match ks with
         | [] => (d, [])
         | (k, arg) :: rest =>
             let '(d1, errs1) :=
               if String.eqb k "type" then type_keyword opts dataPath schemaPath arg d
               else if String.eqb k "properties" then
                 match arg with
                 | VObject subschemas =>
                     (fix properties (ps : list (string * JsValue)) (d : JsValue)
                        : JsValue * list JsValue :=
                        match ps with
                        | [] => (d, [])
                        | (p, sub) :: more =>
                            match d with
                            | VObject dprops =>
                                match get p dprops with
                                | VUndefined => properties more d
                                | v =>
                                    let '(v', errs) :=
                                      check opts (dataPath +:+ "." +:+ p)
                                        (schemaPath +:+ "/properties/" +:+ p) sub v in
                                    let '(d', errs') :=
                                      properties more (VObject (set p v' dprops)) in
                                    (d', errs ++ errs')
                                end
                            | _ => (d, [])
                            end
                        end) subschemas d
                 | _ => (d, [])
                 end
               else (d, []) in
             let '(d2, errs2) := each rest d1 in
             (d2, errs1 ++ errs2)
         end) keywords data
  | _ => (data, [])
  end.

Definition reference_validate (opts : AjvOptions) (schema : JSONSchema) (data : JsValue)
  : Verdict :=
  let '(data', errs) := check opts EmptyString "#" schema data in
  match errs with
  | [] => {| valid := true; errors := VNull; coerced := data' |}
  | _ :: _ => {| valid := false; errors := VArray errs; coerced := data' |}
  end.

Definition not_a_schema : Thrown := ErrorObject Error "schema should be object or boolean".

(** The reference engine refuses what is no schema at all: a value whose
    [typeof] is neither ['object'] nor ['boolean']. *)
Definition reference_compile (opts : AjvOptions) (seen : list JSONSchema)
    (schema : JSONSchema) : Outcome (JsValue -> Verdict) :=
  match schema with
  | VUndefined | VNumber _ | VString _ | VFunction _ => Rejected not_a_schema
  | VNull | VBool _ | VArray _ | VObject _ => Resolved (reference_validate opts schema)
  end.

(** A platform to run the model on: user code sees a counter, the clock
    reads it, schemas are compiled by the reference engine, the functions
    found in data return [undefined], and no global [name] is declared. *)
Definition node : Platform :=
  {| UserState := nat; now := Z.of_nat; compile := reference_compile;
     call_function := fun _ u => (Resolved VUndefined, u);
     global_name := None |}.

(** ** Scenarios *)

Section Scenarios.
#[local] Existing Instance node.

Definition no_statics : Statics :=
  {| action_validators := ∅; validator_ajv := ∅; ajv_schemas := ∅ |}.

(** A freshly loaded program receiving the request of context [c]. *)
Definition idle (c : Context) : World :=
  {| user := 0%nat; trace := []; ctx := c; statics := no_statics;
     serviceFactories := None; koa := None; server := None; network := [] |}.

(** The context koa hands over: status 404 and no body yet. *)
Definition incoming (method path : string) (body params query : JsValue) : Context :=
  {| request := {| method := method; path := path; request_body := body |};
     params := params; query := query; ctx_status := 404; explicit_status := false;
     ctx_body := VUndefined |}.

Definition no_schemas : Schemas :=
  {| schemas_body := None; schemas_params := None; schemas_query := None |}.

Definition id_integer : JSONSchema := property_schema "id" (type_schema "integer").

(** Two services: one whose [stop] fails, one of the base class. *)
Definition quiet : Service :=
  {| start := fun u => (Resolved tt, u); stop := fun u => (Resolved tt, u) |}.

Definition stuck : Service :=
  {| start := fun u => (Resolved tt, u);
     stop := fun u => (Rejected (ErrorObject Error "connection lost"), u) |}.

Definition jakso : JsValue := VObject [("id", VNumber 1); ("username", VString "jakso")].

(** [GET /users/:id], answering with the user whatever the id; the
    input it parses counts the calls of [parseInput]. *)
Definition GetUserAction (services : list (string * Service)) : Action :=
  {| ctor := [ {| class_name := "GetUserAction";
                  own_schemas := Some {| schemas_body := None;
                                         schemas_params := Some id_integer;
                                         schemas_query := None |} |};
               Action_base ];
     services := services;
     parseInput := fun _ u => (Resolved (VNumber (Z.of_nat u)), S u);
     handle := fun _ u => (Resolved jakso, u);
     beforeHandle := Action_beforeHandle;
     afterHandle := Action_afterHandle;
     beforeStopServices := Action_beforeStopServices;
     afterStopServices := Action_afterStopServices |}.

Definition get_user_1 : Context :=
  incoming "GET" "/users/1" VUndefined (VObject [("id", VString "1")]) (VObject []).

Definition get_user_notanumber : Context :=
  incoming "GET" "/users/notanumber" VUndefined
    (VObject [("id", VString "notanumber")]) (VObject []).

(** An action whose [handle] returns [output], with no schemas. *)
Definition Returning (output : JsValue) : Action :=
  {| ctor := [ {| class_name := "ReturningAction"; own_schemas := None |}; Action_base ];
     services := [("users", quiet)];
     parseInput := Action_parseInput;
     handle := fun _ u => (Resolved output, u);
     beforeHandle := Action_beforeHandle;
     afterHandle := Action_afterHandle;
     beforeStopServices := Action_beforeStopServices;
     afterStopServices := Action_afterStopServices |}.

(** An action whose [handle] throws [error]. *)
Definition Throwing (error : Thrown) : Action :=
  {| ctor := [ {| class_name := "ThrowingAction"; own_schemas := None |}; Action_base ];
     services := [("users", quiet)];
     parseInput := Action_parseInput;
     handle := fun _ u => (Rejected error, u);
     beforeHandle := Action_beforeHandle;
     afterHandle := Action_afterHandle;
     beforeStopServices := Action_beforeStopServices;
     afterStopServices := Action_afterStopServices |}.

Definition a_date : JsValue := VObject [("toJSON", VFunction "toJSON")].

(** [POST /users] with a body schema, and a subclass of it that declares
    [static schemas = {}]. *)
Definition CreateUserAction_class : ActionClass :=
  {| class_name := "CreateUserAction";
     own_schemas := Some {| schemas_body := Some id_integer; schemas_params := None;
                            schemas_query := None |} |}.

Definition ImportUserAction_class : ActionClass :=
  {| class_name := "ImportUserAction"; own_schemas := Some no_schemas |}.

Definition ImportUserAction : Action :=
  {| ctor := [ImportUserAction_class; CreateUserAction_class; Action_base];
     services := [];
     parseInput := Action_parseInput;
     handle := fun _ u => (Resolved jakso, u);
     beforeHandle := Action_beforeHandle;
     afterHandle := Action_afterHandle;
     beforeStopServices := Action_beforeStopServices;
     afterStopServices := Action_afterStopServices |}.

(** An action class whose params schema is no schema: the name of a
    type, where a schema is expected. *)
Definition SearchAction_class : ActionClass :=
  {| class_name := "SearchAction";
     own_schemas := Some {| schemas_body := Some id_integer;
                            schemas_params := Some (VString "integer");
                            schemas_query := Some id_integer |} |}.

Definition SearchAction : Action :=
  {| ctor := [SearchAction_class; Action_base];
     services := [];
     parseInput := Action_parseInput;
     handle := fun _ u => (Resolved jakso, u);
     beforeHandle := Action_beforeHandle;
     afterHandle := Action_afterHandle;
     beforeStopServices := Action_beforeStopServices;
     afterStopServices := Action_afterStopServices |}.

Definition post_user : Context :=
  incoming "POST" "/users"
    (VObject [("id", VString "not a number"); ("username", VString "New user")])
    (VObject []) (VObject []).

(** An instance of [CreateUserAction] was made, then one of
    [ImportUserAction] receives [post_user]. *)
Definition import_after_create : World :=
  construct (ctor ImportUserAction)
    (construct [CreateUserAction_class; Action_base] (idle post_user)).

(** Applications: one with a factories object holding a number under
    [db], one with a single factory of the base class. *)
Definition plain_factory : ServiceFactory :=
  {| factory_start := fun u => (Resolved tt, u);
     factory_stop := fun u => (Resolved tt, u);
     createService := fun u => (Resolved quiet, u) |}.

Definition app_with (factories : list (string * FactoryValue)) : Application :=
  {| config := {| type := test; port := 3001 |};
     createServiceFactories := fun u => (Resolved factories, u);
     registerRoutes := fun u => (Resolved tt, u);
     beforeKoaConfigured := Application_koa_hook;
     afterKoaBodyParserAdded := Application_koa_hook;
     afterKoaConfigured := Application_koa_hook |}.

Definition misconfigured : Application := app_with [("db", NotFactory (VNumber 42))].

Definition healthy : Application := app_with [("health", Factory plain_factory)].
End Scenarios.

(** * More of the code *)

(** ** [Application]: the service instances of a unit of work *)

Section Service_instances.
Context `{Platform}.

(** [services[name] = service]: an own property keeps its place, a new
    one comes last. *)
Fixpoint assign (name : string) (service : Service)
    (services : list (string * Service)) : list (string * Service) :=
  match services with
  | [] => [(name, service)]
  | (k, s) :: rest =>
      if String.eqb k name then (k, service) :: rest
      else (k, s) :: assign name service rest
  end.

(** [createServiceInstancesForContext]:
<<
    await this.forEachServiceFactory(async (name, factory) => {
      services[name] = await factory.createService(serviceContext)
    })
    return services
>>
    The callback fills the object [services] it closes over; the loop
    below carries that object along. The service context (the application,
    the same [services] object, a [nanoid] and the type tag) is what user
    code in [createService] reads; the hook of the model reads the state
    of user code instead. *)
Fixpoint createServiceInstancesForContext (entries : list (string * FactoryValue))
    (services : list (string * Service)) : M (list (string * Service)) :=
  match entries with
  | [] => ret services
  | (name, factory) :: rest =>
      let* service := call (createService (members factory)) in
      createServiceInstancesForContext rest (assign name service services)
  end.

(** [createServiceInstances]: [services] starts as [{}]. *)
Definition createServiceInstances (type : string) : M (list (string * Service)) :=
  let* factories := read serviceFactories in
  match factories with
  | None => throw undefined_entries
  | Some entries => createServiceInstancesForContext entries []
  end.

(** An instance of the class whose methods and class chain [cls]
    carries, holding the given [services]. *)
Definition instance (cls : Action) (services : list (string * Service)) : Action :=
  {| ctor := ctor cls; services := services;
     parseInput := parseInput cls; handle := handle cls;
     beforeHandle := beforeHandle cls; afterHandle := afterHandle cls;
     beforeStopServices := beforeStopServices cls;
     afterStopServices := afterStopServices cls |}.

(** [new this(app, services)]: the constructor of [Action] sets the two
    fields and calls [ensureValidatorsCreated], which may throw. *)
Definition new_Action (cls : Action) (services : list (string * Service)) : M Action :=
  fun w =>
    match ensureValidatorsCreated (ctor cls) (statics w) with
    | (Resolved _, st) => (Resolved (instance cls services), set_statics st w)
    | (Rejected e, st) => (Rejected e, set_statics st w)
    end.

(** The handler [createHandler] returns:
<<
    const services = await app.createServiceInstances('action', ctx)
    const action = new this(app, services)
    await action.run(ctx)
>>
*)
Definition createHandler (cls : Action) : M unit :=
  let* services := createServiceInstances "action" in
  let* action := new_Action cls services in
  run action.

(** The events of the cleanup of a request after [beforeStopServices]. *)
Definition is_cleanup (e : Event) : bool :=
  match e with
  | ServiceStop _ | AfterStopServices => true
  | _ => false
  end.

(** The calls of the validators and of the pipeline methods. *)
Definition is_work (e : Event) : bool :=
  match e with
  | Validate _ | ParseInput | BeforeHandle _ | Handle _ | AfterHandle _ _ => true
  | _ => false
  end.

Definition is_factory (v : FactoryValue) : bool :=
  match v with Factory _ => true | NotFactory _ => false end.

(** Factories that are factories, with a [start] that completes. *)
Definition starts_normally (v : FactoryValue) : Prop :=
  match v with
  | Factory f => never_rejects (factory_start f)
  | NotFactory _ => False
  end.

(** Factories that are factories, with a [createService] that completes. *)
Definition creates_normally (v : FactoryValue) : Prop :=
  match v with
  | Factory f => never_rejects (createService f)
  | NotFactory _ => False
  end.

(** User code that throws [e] whatever state it runs in. *)
Definition always_rejects {A} (h : Hook A) (e : Thrown) : Prop :=
  forall u, fst (h u) = Rejected e.

(** Values of the factories object on which [factory.start()],
    [factory.stop()], [factory.createService(...)] throws [e]: a factory
    whose method throws it, or a value of another kind whose member does,
    or that has no such member to call. *)
Definition start_throws (v : FactoryValue) (e : Thrown) : Prop :=
  always_rejects (factory_start (members v)) e.

Definition stop_throws (v : FactoryValue) (e : Thrown) : Prop :=
  always_rejects (factory_stop (members v)) e.

Definition create_throws (v : FactoryValue) (e : Thrown) : Prop :=
  always_rejects (createService (members v)) e.

(** Factories that are factories, with a [createService] that completes
    and returns a service whose [start] and [stop] complete. *)
Definition creates_quiet_services (v : FactoryValue) : Prop :=
  match v with
  | Factory f =>
      forall u, match fst (createService f u) with
                | Resolved service =>
                    never_rejects (start service) /\ never_rejects (stop service)
                | Rejected _ => False
                end
  | NotFactory _ => False
  end.

(** The [TypeError] of calling, as [expression.member()], a member that
    a value that is data does not have. *)
Definition member_error (v : JsValue) (expression member : string) : Thrown :=
  match v with
  | VUndefined => cannot_read member "undefined"
  | VNull => cannot_read member "null"
  | _ => not_a_function (expression +:+ "." +:+ member)
  end.

(** [if (schemas.body)]: the schema is declared, and counts as true. *)
Definition declared (schema : option JSONSchema) : bool :=
  match schema with
  | Some s => truthy s
  | None => false
  end.

(** The schema and the validator a [Schemas] and a [Validators] hold for
    a validator class. *)
Definition schema_of (c : ValidatorClass) (schemas : Schemas) : option JSONSchema :=
  match c with
  | BodyValidator => schemas_body schemas
  | ParamsValidator => schemas_params schemas
  | QueryValidator => schemas_query schemas
  end.

Definition slot (c : ValidatorClass) (validators : Validators) : option ValidatorBase :=
  match c with
  | BodyValidator => validators_body validators
  | ParamsValidator => validators_params validators
  | QueryValidator => validators_query validators
  end.

(** No validator, or a validator of class [c] whose validation function
    is the one the [Ajv] of [createAjv] for that class compiled from the
    schema. *)
Definition made_for (c : ValidatorClass) (schema : option JSONSchema)
    (v : option ValidatorBase) : Prop :=
  match v with
  | None => True
  | Some v =>
      validator_class v = c
      /\ exists s seen validate,
           schema = Some s /\ truthy s = true
           /\ compile (createAjv c) seen s = Resolved validate
           /\ validator v = validate
  end.

(** The host lets the next call of [listen] bind its port. *)
Definition port_free (w : World) : Prop :=
  match network w with
  | false :: _ => False
  | _ => True
  end.

(** A value that is data and has no function under [member]. *)
Definition lacks (v : JsValue) (member : string) : bool :=
  match v with
  | VObject props => match get member props with VFunction _ => false | _ => true end
  | _ => true
  end.
End Service_instances.

(** No array of the value, at any depth of arrays, holds [null]. *)
Fixpoint arrays_without_null (v : JsValue) : bool :=
  match v with
  | VArray items =>
      (fix all (l : list JsValue) : bool :=
         match l with
         | [] => true
         | x :: rest =>
             match x with VNull => false | _ => arrays_without_null x end && all rest
         end) items
  | _ => true
  end.

(** ** [removeLeadingWhitespace] of [utils.ts]

<<
    return input.replace(/^[^\S\n]+/gm, '')
>>
    A string is the list of its UTF-16 code units. With the flag [m], [^]
    matches at the start of the input and after a line terminator; the
    class [[^\S\n]] is the white space but the line feed; [+] takes the
    longest run, and with the flag [g] the search goes on after each
    match. *)
Definition is_whitespace (c : Z) : bool :=
  ((9 <=? c) && (c <=? 13)) || (c =? 32) || (c =? 160) || (c =? 5760)
  || ((8192 <=? c) && (c <=? 8202)) || (c =? 8232) || (c =? 8233) || (c =? 8239)
  || (c =? 8287) || (c =? 12288) || (c =? 65279).

Definition is_line_terminator (c : Z) : bool :=
  (c =? 10) || (c =? 13) || (c =? 8232) || (c =? 8233).

Definition is_blank (c : Z) : bool := is_whitespace c && negb (c =? 10).

(** The replacement from a position on: [line_start] tells whether [^]
    matches there, or a match is under way. *)
Fixpoint strip (line_start : bool) (input : list Z) : list Z :=
  match input with
  | [] => []
  | c :: rest =>
      if line_start && is_blank c then strip true rest
      else c :: strip (is_line_terminator c) rest
  end.

Definition removeLeadingWhitespace (input : list Z) : list Z := strip true input.

(** No line of the text starts with a blank. *)
Fixpoint flush_left (line_start : bool) (text : list Z) : Prop :=
  match text with
  | [] => True
  | c :: rest =>
      (line_start = true -> is_blank c = false)
      /\ flush_left (is_line_terminator c) rest
  end.

(** The code units of a string of ASCII characters. *)
Fixpoint units (s : string) : list Z :=
  match s with
  | EmptyString => []
  | String c rest => Z.of_nat (Ascii.nat_of_ascii c) :: units rest
  end.

(** ** [BaseError] of [errors/base-error.ts] *)

(** An error value as [BaseError] sees one: an error of another class,
    with its [message], its [stack] and its [response] property
    ([undefined] when it has none), or a [BaseError], with its [message],
    the stack [Error] captured for it, and its [cause]. *)
Inductive ErrorValue : Type :=
| PlainError (message stack : string) (response : JsValue)
| WrappedError (message captured : string) (cause : option ErrorValue).

Definition error_message (e : ErrorValue) : string :=
  match e with
  | PlainError message _ _ => message
  | WrappedError message _ _ => message
  end.

Definition caused_by : string :=
  String (Ascii.ascii_of_nat 10) "Caused by: ".

(** [e.stack]: the getter the constructor of [BaseError] defines. *)
Fixpoint error_stack (e : ErrorValue) : string :=
  match e with
  | PlainError _ stack _ => stack
  | WrappedError _ captured cause =>
      match cause with
      | Some c => captured +:+ caused_by +:+ error_stack c
      | None => captured
      end
  end.

(** [e.response]: a property of a plain error, the getter of a
    [BaseError]: [(this.cause && this.cause.response) || null]. *)
Fixpoint error_response (e : ErrorValue) : JsValue :=
  match e with
  | PlainError _ _ response => response
  | WrappedError _ _ cause =>
      match cause with
      | Some c => let r := error_response c in if truthy r then r else VNull
      | None => VNull
      end
  end.

(** [value.data]. *)
Definition data_of (value : JsValue) : JsValue :=
  match value with
  | VObject props => get "data" props
  | _ => VUndefined
  end.

(** The getter [responseData] of a [BaseError]. *)
Definition responseData (e : ErrorValue) : JsValue :=
  let response := error_response e in
  if truthy response then data_of response else VNull.

(** [new BaseError({ message, cause })], [captured] being the stack
    [Error] captures: the message is
    [message || (cause && cause.message) || '']. *)
Definition new_BaseError (message : option string) (cause : option ErrorValue)
    (captured : string) : ErrorValue :=
  let own :=
    match message with
    | Some (String c rest) => Some (String c rest)
    | _ => None
    end in
  WrappedError
    match own with
    | Some m => m
    | None =>
        match cause with
        | Some c => error_message c
        | None => EmptyString
        end
    end
    captured cause.

(** An error wrapped in one [BaseError] after the other, none with a
    message of its own; [captured] lists their stacks, innermost first. *)
Fixpoint wrapped (captured : list string) (e : ErrorValue) : ErrorValue :=
  match captured with
  | [] => e
  | s :: outer => wrapped outer (new_BaseError None (Some e) s)
  end.

(** * Properties *)

(** ** Running the monad *)

Section Running.
Context `{Platform}.

Lemma bind_resolved {A B} (m : M A) (k : A -> M B) w a w' :
  m w = (Resolved a, w') -> bind m k w = k a w'.
Proof. intros Hm. unfold bind. by rewrite Hm. Qed.

Lemma bind_rejected {A B} (m : M A) (k : A -> M B) w e w' :
  m w = (Rejected e, w') -> bind m k w = (Rejected e, w').
Proof. intros Hm. unfold bind. by rewrite Hm. Qed.

Lemma bind_inv {A B} (m : M A) (k : A -> M B) w r w' :
  bind m k w = (r, w') ->
  (exists a w1, m w = (Resolved a, w1) /\ k a w1 = (r, w'))
  \/ (exists e, m w = (Rejected e, w') /\ r = Rejected e).
Proof.
  unfold bind. destruct (m w) as [[a|e] w1]; intros Hk.
  - left. eauto.
  - right. exists e. by inversion Hk.
Qed.

Lemma emit_call {A} e (h : Hook A) w :
  (emit e ;; call h) w
  = (let (r, u) := h (user w) in (r, set_user u (add_event e w))).
Proof. done. Qed.

Lemma bind_assoc {A B C} (m : M A) (f : A -> M B) (g : B -> M C) w :
  bind (bind m f) g w = bind m (fun x => bind (f x) g) w.
Proof. unfold bind. by destruct (m w) as [[a|e] w1]. Qed.

(** *** What a computation leaves alone *)

Lemma untouched_ctx : untouched ctx.
Proof. by split. Qed.

Lemma untouched_server : untouched server.
Proof. by split. Qed.

Lemma untouched_serviceFactories : untouched serviceFactories.
Proof. by split. Qed.

Lemma untouched_statics : untouched statics.
Proof. by split. Qed.

Lemma keeps_ret {A B} (f : World -> B) (a : A) : keeps f (ret a).
Proof. by intros w. Qed.

Lemma keeps_throw {A B} (f : World -> B) e : keeps f (throw (A := A) e).
Proof. by intros w. Qed.

Lemma keeps_read {A B} (f : World -> B) (g : World -> A) : keeps f (read g).
Proof. by intros w. Qed.

Lemma keeps_bind {A C B} (f : World -> B) (m : M A) (k : A -> M C) :
  keeps f m -> (forall a, keeps f (k a)) -> keeps f (bind m k).
Proof.
  intros Hm Hk w. unfold bind. specialize (Hm w).
  destruct (m w) as [[a|e] w1]; simpl in *; [|done].
  by rewrite Hk.
Qed.

Lemma keeps_emit {B} (f : World -> B) e : untouched f -> keeps f (emit e).
Proof. intros [He _] w. apply He. Qed.

Lemma keeps_call {A B} (f : World -> B) (h : Hook A) : untouched f -> keeps f (call h).
Proof. intros [_ Hu] w. unfold call. destruct (h (user w)). apply Hu. Qed.

Lemma keeps_forEachService {B} (f : World -> B) services callback :
  (forall name service, keeps f (callback name service)) ->
  keeps f (forEachService services callback).
Proof.
  intros Hc. induction services as [|[name service] rest IH]; simpl.
  - apply keeps_ret.
  - apply keeps_bind; auto.
Qed.

Lemma keeps_stopServiceInstances {B} (f : World -> B) services :
  untouched f -> keeps f (stopServiceInstances services).
Proof.
  intros Hf. apply keeps_forEachService. intros name service.
  apply keeps_bind; [by apply keeps_emit|]. intros _. by apply keeps_call.
Qed.

Lemma keeps_startServiceInstances {B} (f : World -> B) services :
  untouched f -> keeps f (startServiceInstances services).
Proof.
  intros Hf. apply keeps_forEachService. intros name service.
  apply keeps_bind; [by apply keeps_emit|]. intros _. by apply keeps_call.
Qed.

(** *** What a computation adds to the observations *)

Lemma emits_nothing {A} P (m : M A) : keeps trace m -> emits P m.
Proof. intros Hm w. exists []. rewrite Hm, app_nil_r. by split. Qed.

Lemma emits_ret {A} P (a : A) : emits P (ret a).
Proof. by apply emits_nothing. Qed.

Lemma emits_throw {A} P e : emits P (throw (A := A) e).
Proof. by apply emits_nothing. Qed.

Lemma emits_read {A} P (g : World -> A) : emits P (read g).
Proof. by apply emits_nothing. Qed.

Lemma emits_write P (g : World -> World) :
  (forall w, trace (g w) = trace w) -> emits P (write g).
Proof. intros Hg. apply emits_nothing. intros w. apply Hg. Qed.

Lemma emits_call {A} P (h : Hook A) : emits P (call h).
Proof. apply emits_nothing. intros w. unfold call. by destruct (h (user w)). Qed.

Lemma emits_emit P e : P e -> emits P (emit e).
Proof. intros He w. exists [e]. split; [done|]. by constructor. Qed.

Lemma emits_bind {A C} P (m : M A) (k : A -> M C) :
  emits P m -> (forall a, emits P (k a)) -> emits P (bind m k).
Proof.
  intros Hm Hk w. unfold bind. destruct (Hm w) as (ev1 & Ht1 & HP1).
  destruct (m w) as [[a|e] w1]; simpl in *; [|eauto].
  destruct (Hk a w1) as (ev2 & Ht2 & HP2).
  exists (ev1 ++ ev2). rewrite Ht2, Ht1, app_assoc. split; [done|].
  by apply Forall_app.
Qed.

Lemma emits_forEachService P services callback :
  (forall name service, emits P (callback name service)) ->
  emits P (forEachService services callback).
Proof.
  intros Hc. induction services as [|[name service] rest IH]; simpl.
  - apply emits_ret.
  - apply emits_bind; auto.
Qed.

Lemma emits_filter {A} (keep : Event -> bool) (m : M A) w :
  emits (fun e => keep e = false) m ->
  List.filter keep (trace (snd (m w))) = List.filter keep (trace w).
Proof.
  intros Hm. destruct (Hm w) as (events & -> & HP).
  rewrite List.filter_app.
  assert (List.filter keep events = []) as ->; [|by rewrite app_nil_r].
  induction HP as [|e events He _ IH]; simpl; [done|]. by rewrite He.
Qed.
End Running.

(** ** Errors to results *)

Section Errors.
Context `{Platform}.

Lemma known_errors_apart cls :
  let known c := existsb (same_class c) (prototypes cls) in
  (known NotFoundError = true ->
     known UnauthorizedError = false /\ known ForbiddenError = false /\ known ConflictError = false)
  /\ (known UnauthorizedError = true ->
     known NotFoundError = false /\ known ForbiddenError = false /\ known ConflictError = false)
  /\ (known ForbiddenError = true ->
     known NotFoundError = false /\ known UnauthorizedError = false /\ known ConflictError = false)
  /\ (known ConflictError = true ->
     known NotFoundError = false /\ known UnauthorizedError = false /\ known ForbiddenError = false).
Proof.
  induction cls as [| | | | | | | |name super IH]; simpl; try (by repeat split).
  exact IH.
Qed.

Lemma handleError_resolves error w :
  exists result w', handleError error w = (Resolved result, w').
Proof.
  unfold handleError.
  repeat (match goal with |- context [if ?b then _ else _] => destruct b end);
    unfold log, emit, bind, ret; eauto.
Qed.

Lemma handleError_unknown error w :
  instanceof error NotFoundError = false ->
  instanceof error UnauthorizedError = false ->
  instanceof error ForbiddenError = false ->
  instanceof error ConflictError = false ->
  handleError error w
  = (Resolved {| status := 500; body := error_body "Internal" |},
     add_event (Log "error" (ErrorData error)) w).
Proof. intros H1 H2 H3 H4. unfold handleError. by rewrite H1, H2, H3, H4. Qed.

(** C5. [handleError] maps an instance of [NotFoundError] to 404
    [{error: "NotFound"}], of [UnauthorizedError] to 401
    [{error: "Unauthorized"}], of [ForbiddenError] to 403
    [{error: "Forbidden"}], of [ConflictError] to 409
    [{error: "Conflict"}], each without any other effect; every other
    thrown value is handed to the log sink and mapped to 500
    [{error: "Internal"}], a body in which the error does not occur. *)
Theorem handleError_taxonomy error w :
  (instanceof error NotFoundError = true ->
     handleError error w
     = (Resolved {| status := 404; body := VObject [("error", VString "NotFound")] |}, w))
  /\ (instanceof error UnauthorizedError = true ->
     handleError error w
     = (Resolved {| status := 401; body := VObject [("error", VString "Unauthorized")] |},
        w))
  /\ (instanceof error ForbiddenError = true ->
     handleError error w
     = (Resolved {| status := 403; body := VObject [("error", VString "Forbidden")] |}, w))
  /\ (instanceof error ConflictError = true ->
     handleError error w
     = (Resolved {| status := 409; body := VObject [("error", VString "Conflict")] |}, w))
  /\ (instanceof error NotFoundError = false ->
      instanceof error UnauthorizedError = false ->
      instanceof error ForbiddenError = false ->
      instanceof error ConflictError = false ->
      handleError error w
      = (Resolved {| status := 500; body := VObject [("error", VString "Internal")] |},
         add_event (Log "error" (ErrorData error)) w)).
Proof.
  assert (forall c, instanceof error c = true ->
            exists cls message, error = ErrorObject cls message
              /\ existsb (same_class c) (prototypes cls) = true) as Hobj.
  { intros c Hc. destruct error as [cls message|v]; [eauto|done]. }
  repeat split.
  - intros Hk. unfold handleError. by rewrite Hk.
  - intros Hk. destruct (Hobj _ Hk) as (cls & message & -> & Hcls).
    destruct (known_errors_apart cls) as (_ & Hu & _ & _).
    destruct (Hu Hcls) as (Hn & _ & _).
    unfold handleError. simpl in *. by rewrite Hn, Hcls.
  - intros Hk. destruct (Hobj _ Hk) as (cls & message & -> & Hcls).
    destruct (known_errors_apart cls) as (_ & _ & Hf & _).
    destruct (Hf Hcls) as (Hn & Hu & _).
    unfold handleError. simpl in *. by rewrite Hn, Hu, Hcls.
  - intros Hk. destruct (Hobj _ Hk) as (cls & message & -> & Hcls).
    destruct (known_errors_apart cls) as (_ & _ & _ & Hc).
    destruct (Hc Hcls) as (Hn & Hu & Hf).
    unfold handleError. simpl in *. by rewrite Hn, Hu, Hf, Hcls.
  - apply handleError_unknown.
Qed.
End Errors.

(** ** The results of validation *)

Section Results.
Context `{Platform}.

(** What one validator answers. *)
Lemma Validator_validate_eq v w :
  let verdict := validator v (getValue (validator_class v) (ctx w)) in
  let w' := set_ctx (setValue (validator_class v) (coerced verdict)
                       (ctx (add_event (Validate (validator_class v)) w)))
              (add_event (Validate (validator_class v)) w) in
  Validator_validate v w
  = (Resolved (if valid verdict then None
               else Some {| status := 400;
                            body := VObject [("error", VString "Validation");
                                             ("errors", errors verdict)] |}), w').
Proof.
  unfold Validator_validate, bind, emit, read, write, ret. simpl.
  by destruct (valid _).
Qed.

Lemma Validator_validate_failure v w result w' :
  Validator_validate v w = (Resolved (Some result), w') ->
  status result = 400
  /\ exists errors, body result
                    = VObject [("error", VString "Validation"); ("errors", errors)].
Proof.
  rewrite Validator_validate_eq. destruct (valid _); [done|].
  intros [= <- _]. eauto.
Qed.

(** [validate] is the validation of the specification, over the
    validators the class of the action has. *)
Lemma validate_in_declared_order a w validators :
  validators_of a w = Some validators ->
  validate a w = validate_in_order (declared_stages validators) w.
Proof.
  unfold validators_of, validate, declared_stages. intros Hv.
  unfold bind at 1, read. rewrite Hv.
  destruct validators as [[b|] [p|] [q|]]; simpl; unfold bind, ret;
    repeat match goal with
      | |- context [Validator_validate ?v ?w] =>
          destruct (Validator_validate v w) as [[[?|]|?] ?]; simpl
      end; done.
Qed.

Lemma validate_in_order_failure stages w result w' :
  validate_in_order stages w = (Resolved (Some result), w') ->
  status result = 400
  /\ exists errors, body result
                    = VObject [("error", VString "Validation"); ("errors", errors)].
Proof.
  revert w. induction stages as [|v rest IH]; intros w; simpl; [done|].
  unfold bind. destruct (Validator_validate v w) as [[[failure|]|e] w1] eqn:Hv; [| |done].
  - intros [= <- _]. by apply (Validator_validate_failure v w failure w1).
  - apply IH.
Qed.

(** A failed stage ends validation: the later stages are not run. *)
Lemma validate_in_order_stops v rest w failure w1 :
  Validator_validate v w = (Resolved (Some failure), w1) ->
  validate_in_order (v :: rest) w = (Resolved (Some failure), w1).
Proof. intros Hv. simpl. by rewrite (bind_resolved _ _ _ _ _ Hv). Qed.

Lemma validate_in_order_continues v rest w w1 :
  Validator_validate v w = (Resolved None, w1) ->
  validate_in_order (v :: rest) w = validate_in_order rest w1.
Proof. intros Hv. simpl. by rewrite (bind_resolved _ _ _ _ _ Hv). Qed.

Lemma validate_failure a w failure w' :
  validate a w = (Resolved (Some failure), w') ->
  status failure = 400
  /\ exists errors, body failure
                    = VObject [("error", VString "Validation"); ("errors", errors)].
Proof.
  destruct (validators_of a w) as [validators|] eqn:Hv.
  - rewrite (validate_in_declared_order _ _ _ Hv). apply validate_in_order_failure.
  - unfold validators_of in Hv. unfold validate, bind, read. by rewrite Hv.
Qed.

End Results.

(** ** The request pipeline *)

Section Pipeline.
Context `{Platform}.

(** The [try] block is its stages in sequence. *)
Lemma run_try_stages a method path w :
  run_try a method path w
  = (let* validationResult := run_validate a method path in
     match validationResult with
     | Some result => ret result
     | None => let* output := run_output a in run_check output
     end) w.
Proof.
  unfold run_try, run_validate, run_output, run_input, run_handle, run_afterHandle,
    run_check, bind.
  destruct (startServiceInstances (services a) w) as [[[]|e] w1]; [|done].
  destruct (log _ _ w1) as [[[]|e] w2]; [|done].
  destruct (validate a w2) as [[[result|]|e] w3]; [done| |done].
  destruct (read ctx w3) as [[c|e] w4]; [|done].
  destruct (emit ParseInput w4) as [[[]|e] w5]; [|done].
  destruct (call (parseInput a c) w5) as [[i1|e] w6]; [|done].
  destruct (read ctx w6) as [[c'|e] w7]; [|done].
  destruct (emit ParseInput w7) as [[[]|e] w8]; [|done].
  destruct (call (parseInput a c') w8) as [[i2|e] w9]; [|done].
  destruct (emit (BeforeHandle i2) w9) as [[[]|e] w10]; [|done].
  destruct (call (beforeHandle a i2) w10) as [[i3|e] w11]; [|done].
  destruct (emit (Handle i3) w11) as [[[]|e] w12]; [|done].
  destruct (call (handle a i3) w12) as [[o|e] w13]; [|done].
  destruct (emit (AfterHandle i3 o) w13) as [[[]|e] w14]; [|done].
  by destruct (call (afterHandle a i3 o) w14) as [[o'|e] w15].
Qed.

(** [run] always reaches its [finally] block with a result: the one of
    the [try] block, or the one [handleError] makes of what it threw. *)
Lemma run_reaches_finally a w :
  exists result w1,
    run a w = run_finally (Some result) (now (user w)) a w1
    /\ ((run_try a (request_method w) (request_path w) w = (Resolved result, w1))
        \/ exists error w0,
             run_try a (request_method w) (request_path w) w = (Rejected error, w0)
             /\ handleError error w0 = (Resolved result, w1)).
Proof.
  unfold run, bind, read, request_method, request_path. simpl.
  destruct (run_try a _ _ w) as [[result|error] w0] eqn:Htry.
  - exists result, w0. eauto.
  - destruct (handleError_resolves error w0) as (result & w1 & Hh).
    rewrite Hh. exists result, w1. split; [done|]. right. eauto.
Qed.

Lemma keeps_log {B} (f : World -> B) message data :
  untouched f -> keeps f (log message data).
Proof. intros Hf. by apply keeps_emit. Qed.

(** The cleanup after [handleResult] leaves the context alone. *)
Lemma keeps_cleanup {B} (f : World -> B) a result t0 :
  untouched f ->
  keeps f (let* t := read (fun w => now (user w)) in
           log "request ended" (RequestEnded (status result) (t - t0)) ;;
           (emit BeforeStopServices ;; call (beforeStopServices a)) ;;
           stopServiceInstances (services a) ;;
           (emit AfterStopServices ;; call (afterStopServices a))).
Proof.
  intros Hf.
  repeat first
    [ apply keeps_bind; [|intros ?]
    | apply keeps_read
    | by apply keeps_log
    | by apply keeps_emit
    | by apply keeps_call
    | by apply keeps_stopServiceInstances ].
Qed.

(** [handleResult] on a result whose status koa accepts: it writes the
    response koa makes of the result, and nothing else. *)
Lemma handleResult_answer result w :
  sendable result ->
  exists c,
    handleResult result w = (Resolved tt, set_ctx c w)
    /\ (ctx_status c, ctx_body c) = answer result.
Proof.
  intros [Hlow Hhigh].
  assert ((100 <=? status result) && (status result <=? 999) = true) as Hrange.
  { apply andb_true_iff. split; by apply Z.leb_le. }
  assert (exists c,
            (assign_status (status result) ;; assign_body (body result)) w
            = (Resolved tt, set_ctx c w)
            /\ (ctx_status c, ctx_body c) = answer result) as Hassign.
  { unfold bind, assign_status, assign_body, write, set_status. rewrite Hrange.
    eexists. split; [done|]. unfold set_body, answer. simpl.
    destruct (nullish (body result)); simpl; [|done].
    by destruct (empty_status (status result)). }
  unfold handleResult, respond.
  by destruct ((200 <=? status result) && (status result <? 300)).
Qed.

Lemma handleResult_quiet result w :
  sendable result ->
  exists wa,
    handleResult result w = (Resolved tt, wa)
    /\ trace wa = trace w /\ user wa = user w.
Proof.
  intros Hsend. destruct (handleResult_answer result w Hsend) as (c & -> & _).
  by eexists.
Qed.

(** A result with a body is answered as it is. *)
Lemma answer_body result :
  nullish (body result) = false -> answer result = (status result, body result).
Proof. intros Hbody. unfold answer. by rewrite Hbody. Qed.

Lemma run_check_result output w result w' :
  run_check output w = (Resolved result, w') ->
  result = {| status := 200; body := output |}.
Proof.
  unfold run_check, bind, ret, throw.
  destruct (truthy output); [destruct (isPlainDto output) as [[]|e]|]; simpl;
    by intros [= <- _].
Qed.

(** The results the [try] block makes: of a failed validation, or of the
    output. *)
Lemma run_try_result a method path w result w1 :
  run_try a method path w = (Resolved result, w1) ->
  status result = 200
  \/ (status result = 400
      /\ exists errors, body result
           = VObject [("error", VString "Validation"); ("errors", errors)]).
Proof.
  rewrite run_try_stages. intros Hrun.
  apply bind_inv in Hrun as [(validation & wa & Hv & Hrun)|(e & _ & [=])].
  destruct validation as [failure|].
  - inversion Hrun; subst. right.
    unfold run_validate in Hv.
    apply bind_inv in Hv as [([] & wb & _ & Hv)|(e & _ & [=])].
    apply bind_inv in Hv as [([] & wc & _ & Hv)|(e & _ & [=])].
    by apply (validate_failure a wc result w1).
  - apply bind_inv in Hrun as [(output & wb & _ & Hrun)|(e & _ & [=])].
    left. by rewrite (run_check_result _ _ _ _ Hrun).
Qed.

(** The results [handleError] makes have a body. *)
Lemma handleError_result error w result w' :
  handleError error w = (Resolved result, w') ->
  sendable result /\ nullish (body result) = false.
Proof.
  unfold handleError, sendable.
  repeat (match goal with |- context [if ?b then _ else _] => destruct b end);
    unfold log, emit, bind, ret; intros [= <- _]; simpl; split; (lia || done).
Qed.

(** Every result [run] reaches its [finally] block with has a status koa
    accepts. *)
Lemma run_result_sendable a w result w1 :
  (run_try a (request_method w) (request_path w) w = (Resolved result, w1))
  \/ (exists error w0,
        run_try a (request_method w) (request_path w) w = (Rejected error, w0)
        /\ handleError error w0 = (Resolved result, w1)) ->
  sendable result.
Proof.
  intros [Htry|(error & w0 & _ & Hh)].
  - unfold sendable. destruct (run_try_result _ _ _ _ _ _ Htry) as [->|[-> _]]; lia.
  - by destruct (handleError_result _ _ _ _ Hh).
Qed.

(** The response is the one koa makes of the result the [finally] block
    is entered with. *)
Lemma response_run_finally result t0 a w :
  sendable result ->
  response (snd (run_finally (Some result) t0 a w)) = answer result.
Proof.
  intros Hsend. unfold run_finally.
  set (rest := bind (read _) _).
  assert (forall w', response (snd (rest w')) = response w') as Hrest.
  { intros w'. unfold response, rest.
    by rewrite (keeps_cleanup ctx a result t0 untouched_ctx w'). }
  unfold bind at 1.
  destruct (handleResult_answer result w Hsend) as (c & -> & Hc).
  by rewrite Hrest.
Qed.

Lemma response_after_run a w :
  exists result w1,
    response (after_run a w) = answer result
    /\ ((run_try a (request_method w) (request_path w) w = (Resolved result, w1))
        \/ exists error w0,
             run_try a (request_method w) (request_path w) w = (Rejected error, w0)
             /\ handleError error w0 = (Resolved result, w1)).
Proof.
  destruct (run_reaches_finally a w) as (result & w1 & Hrun & Hcases).
  exists result, w1. split; [|done].
  unfold after_run. rewrite Hrun. apply response_run_finally.
  by apply (run_result_sendable a w result w1).
Qed.

(** The results of [run] have a status that is not one of a response
    without a body: koa changes it to 204 when they have no body, and not
    otherwise. *)
Lemma response_of_run a w :
  exists result w1,
    response (after_run a w)
    = (if nullish (body result) then 204 else status result, body result)
    /\ ((run_try a (request_method w) (request_path w) w = (Resolved result, w1))
        \/ exists error w0,
             run_try a (request_method w) (request_path w) w = (Rejected error, w0)
             /\ handleError error w0 = (Resolved result, w1)).
Proof.
  destruct (response_after_run a w) as (result & w1 & Hr & Hcases).
  exists result, w1. split; [|done]. rewrite Hr. unfold answer.
  destruct Hcases as [Htry|(error & w0 & _ & Hh)].
  - destruct (run_try_result _ _ _ _ _ _ Htry) as [->|[-> _]]; simpl;
      by rewrite andb_true_r.
  - destruct (handleError_result _ _ _ _ Hh) as [_ ->]. done.
Qed.

Lemma response_resolved a w result w1 :
  run_try a (request_method w) (request_path w) w = (Resolved result, w1) ->
  response (after_run a w) = answer result.
Proof.
  intros Htry. destruct (response_after_run a w) as (r & w' & Hr & [Hc|Hc]).
  - rewrite Htry in Hc. by inversion Hc; subst.
  - destruct Hc as (error & w0 & Hc & _). by rewrite Htry in Hc.
Qed.

(** What [handleError] makes of an error has a body, and is the
    response as it is. *)
Lemma response_rejected a w error w0 result w1 :
  run_try a (request_method w) (request_path w) w = (Rejected error, w0) ->
  handleError error w0 = (Resolved result, w1) ->
  response (after_run a w) = (status result, body result).
Proof.
  intros Htry Hh. destruct (response_after_run a w) as (r & w' & Hr & [Hc|Hc]).
  - by rewrite Htry in Hc.
  - destruct Hc as (error' & w0' & Hc & Hh'). rewrite Htry in Hc.
    inversion Hc; subst. rewrite Hh in Hh'. inversion Hh'; subst.
    rewrite Hr. apply answer_body. by destruct (handleError_result _ _ _ _ Hh).
Qed.
End Pipeline.

(** ** What each part of [run] lets be observed *)

Section Observations.
Context `{Platform}.

Ltac observe :=
  repeat first
    [ apply emits_ret
    | apply emits_throw
    | apply emits_read
    | apply emits_call
    | apply emits_write; done
    | apply emits_emit; solve [auto]
    | apply emits_bind; [|intros ?]
    | match goal with
      | |- emits _ (if ?b then _ else _) => destruct b
      | |- emits _ (match ?x with _ => _ end) => destruct x
      end ].

Lemma filter_none (keep : Event -> bool) events :
  Forall (fun e => keep e = false) events -> List.filter keep events = [].
Proof. induction 1 as [|e events He _ IH]; simpl; [done|]. by rewrite He. Qed.

Lemma emits_Validator_validate P v :
  (forall c, P (Validate c)) -> emits P (Validator_validate v).
Proof. intros HV. unfold Validator_validate. observe. Qed.

Lemma emits_validate P a :
  (forall c, P (Validate c)) -> emits P (validate a).
Proof.
  intros HV. unfold validate.
  apply emits_bind; [apply emits_read|]. intros st.
  destruct (static_lookup _ _) as [validators|]; [|apply emits_throw].
  repeat (apply emits_bind; [|intros ?]);
    repeat match goal with
      | |- emits _ (match ?x with _ => _ end) => destruct x
      end;
    first [by apply emits_Validator_validate | apply emits_ret].
Qed.

Lemma emits_startServiceInstances P services :
  (forall name, P (ServiceStart name)) -> emits P (startServiceInstances services).
Proof. intros HS. apply emits_forEachService. intros name service. observe. Qed.

Lemma emits_stopServiceInstances P services :
  (forall name, P (ServiceStop name)) -> emits P (stopServiceInstances services).
Proof. intros HS. apply emits_forEachService. intros name service. observe. Qed.

Lemma emits_run_validate P a method path :
  (forall name, P (ServiceStart name)) ->
  (forall message data, P (Log message data)) ->
  (forall c, P (Validate c)) ->
  emits P (run_validate a method path).
Proof.
  intros HS HL HV. unfold run_validate, log.
  apply emits_bind; [by apply emits_startServiceInstances|]. intros _.
  apply emits_bind; [by apply emits_emit|]. intros _.
  by apply emits_validate.
Qed.

Lemma emits_run_output P a :
  P ParseInput -> (forall i, P (BeforeHandle i)) -> (forall i, P (Handle i)) ->
  (forall i o, P (AfterHandle i o)) ->
  emits P (run_output a).
Proof.
  intros HP HB HH HA. unfold run_output, run_input, run_handle, run_afterHandle.
  observe.
Qed.

Lemma emits_run_check P output : emits P (run_check output).
Proof. unfold run_check. observe. Qed.

Lemma emits_handleError P error :
  (forall message data, P (Log message data)) -> emits P (handleError error).
Proof. intros HL. unfold handleError, log. observe. Qed.

Lemma emits_assign_status P code : emits P (assign_status code).
Proof.
  apply emits_nothing. intros w. unfold assign_status.
  by destruct (set_status code (ctx w)).
Qed.

Lemma emits_handleResult P result : emits P (handleResult result).
Proof.
  assert (emits P (assign_status (status result) ;; assign_body (body result))) as Hassign.
  { apply emits_bind; [apply emits_assign_status|]. intros _. by apply emits_write. }
  unfold handleResult, respond.
  by destruct ((200 <=? status result) && (status result <? 300)).
Qed.

Lemma emits_run_finally P result t0 a :
  (forall message data, P (Log message data)) ->
  (forall name, P (ServiceStop name)) ->
  P BeforeStopServices -> P AfterStopServices ->
  emits P (run_finally result t0 a).
Proof.
  intros HL HS HB HA. unfold run_finally, log.
  destruct result as [result|]; [|apply emits_throw].
  apply emits_bind; [apply emits_handleResult|]. intros _.
  apply emits_bind; [apply emits_read|]. intros t.
  apply emits_bind; [by apply emits_emit|]. intros _.
  apply emits_bind; [observe|]. intros _.
  apply emits_bind; [by apply emits_stopServiceInstances|]. intros _.
  observe.
Qed.

(** From the body of [handle] to the end of the [try] block. *)
Lemma emits_from_handle P a input :
  (forall i o, P (AfterHandle i o)) ->
  emits P (let* output := call (handle a input) in
           let* output := run_afterHandle a input output in
           run_check output).
Proof.
  intros HA. unfold run_afterHandle.
  apply emits_bind; [observe|]. intros output.
  apply emits_bind; [observe|]. intros output'.
  apply emits_run_check.
Qed.

(** What follows the [try] block, whatever way it is left. *)
Lemma emits_after_try P a w r w1 :
  (forall message data, P (Log message data)) ->
  (forall name, P (ServiceStop name)) ->
  P BeforeStopServices -> P AfterStopServices ->
  run_try a (request_method w) (request_path w) w = (r, w1) ->
  exists events, trace (after_run a w) = trace w1 ++ events /\ Forall P events.
Proof.
  intros HL HS HB HA Htry.
  destruct (run_reaches_finally a w) as (result & wf & Hrun & Hcases).
  unfold after_run. rewrite Hrun.
  destruct (emits_run_finally P (Some result) (now (user w)) a HL HS HB HA wf)
    as (ev2 & Ht2 & HP2).
  destruct Hcases as [Hc|(error & w0 & Hc & Hh)]; rewrite Htry in Hc; inversion Hc; subst.
  - eauto.
  - destruct (emits_handleError P error HL w0) as (ev1 & Ht1 & HP1).
    rewrite Hh in Ht1. simpl in Ht1.
    exists (ev1 ++ ev2). rewrite Ht2, Ht1, app_assoc. split; [done|]. by apply Forall_app.
Qed.
End Observations.

(** ** The plain-data check *)

Section Plain_data.
Context `{Platform}.

Lemma isPlainDto_array items : isPlainDto (VArray items) = every items.
Proof.
  induction items as [|x rest IH]; simpl; [done|].
  by destruct (isPlainDto x) as [[]|].
Qed.

(** Induction on values, through the items of arrays. *)
Lemma JsValue_array_ind (P : JsValue -> Prop) :
  (forall v, (forall items, v <> VArray items) -> P v) ->
  (forall items, Forall P items -> P (VArray items)) ->
  forall v, P v.
Proof.
  intros Hother Harray. fix IH 1. intros v.
  destruct v as [ | | b | n | s | name | items | props];
    try (apply Hother; discriminate).
  apply Harray. induction items as [|x rest IHrest]; constructor; [apply IH|apply IHrest].
Qed.

(** The only error of the check is the read of [toJSON] on [null]. *)
Lemma isPlainDto_rejects obj e : isPlainDto obj = Rejected e -> e = null_toJSON.
Proof.
  revert e. induction obj as [v Hv|items IH] using JsValue_array_ind; intros e.
  - destruct v; simpl; try discriminate; [by intros [= <-]|].
    by destruct (Hv items).
  - rewrite isPlainDto_array.
    induction IH as [|x rest Hx _ IHrest]; simpl; [discriminate|].
    destruct (isPlainDto x) as [[]|e'] eqn:Hx'; [done|discriminate|].
    intros [= <-]. by apply Hx.
Qed.

Lemma every_with_custom items x :
  In x items -> custom_serialization x ->
  every items = Resolved false \/ every items = Rejected null_toJSON.
Proof.
  intros Hin (props & -> & Hjson).
  induction items as [|y rest IH]; simpl; [done|].
  destruct (isPlainDto y) as [[]|e] eqn:Hy; [|by left|].
  - destruct Hin as [->|Hin]; [|by apply IH].
    simpl in Hy. destruct (get "toJSON" props); by try discriminate.
  - right. by rewrite (isPlainDto_rejects _ _ Hy).
Qed.

Lemma every_with_null items :
  In VNull items ->
  every items = Resolved false \/ every items = Rejected null_toJSON.
Proof.
  intros Hin. induction items as [|y rest IH]; simpl; [done|].
  destruct (isPlainDto y) as [[]|e] eqn:Hy; [|by left|].
  - destruct Hin as [->|Hin]; [done|by apply IH].
  - right. by rewrite (isPlainDto_rejects _ _ Hy).
Qed.

Lemma every_up_to_null before after :
  Forall (fun x => isPlainDto x = Resolved true) before ->
  every (before ++ VNull :: after) = Rejected null_toJSON.
Proof. induction 1 as [|x before Hx _ IH]; simpl; [done|]. by rewrite Hx. Qed.

(** An output the check does not let through makes the [try] block
    throw, and neither error is of a known kind. *)
Lemma run_check_not_plain output w :
  truthy output = true ->
  isPlainDto output = Resolved false \/ isPlainDto output = Rejected null_toJSON ->
  exists error,
    run_check output w = (Rejected error, w)
    /\ (error = not_plain \/ error = null_toJSON).
Proof.
  intros Ht [Hp|Hp]; unfold run_check, bind; rewrite Ht, Hp; simpl; eauto.
Qed.

Lemma internal_error_response a w w1 w2 output error :
  run_validate a (request_method w) (request_path w) w = (Resolved None, w1) ->
  run_output a w1 = (Resolved output, w2) ->
  run_check output w2 = (Rejected error, w2) ->
  error = not_plain \/ error = null_toJSON ->
  run_try a (request_method w) (request_path w) w = (Rejected error, w2)
  /\ In (Log "error" (ErrorData error)) (trace (after_run a w))
  /\ response (after_run a w) = (500, VObject [("error", VString "Internal")]).
Proof.
  intros Hv Ho Hc He.
  assert (run_try a (request_method w) (request_path w) w = (Rejected error, w2)) as Htry.
  { rewrite run_try_stages. rewrite (bind_resolved _ _ _ _ _ Hv).
    by rewrite (bind_resolved _ _ _ _ _ Ho). }
  assert (handleError error w2
          = (Resolved {| status := 500; body := error_body "Internal" |},
             add_event (Log "error" (ErrorData error)) w2)) as Hh.
  { by destruct He as [-> | ->]. }
  split; [done|]. split.
  - destruct (run_reaches_finally a w) as (result & wf & Hrun & Hcases).
    destruct Hcases as [Hk|(error' & w0 & Hk & Hh')]; rewrite Htry in Hk; [done|].
    inversion Hk; subst. rewrite Hh in Hh'. inversion Hh'; subst.
    unfold after_run. rewrite Hrun.
    destruct (emits_run_finally (fun _ => True)
                (Some {| status := 500; body := error_body "Internal" |})
                (now (user w)) a) with (w := add_event (Log "error" (ErrorData error')) w0)
      as (events & -> & _); try done.
    apply in_or_app. left. simpl. apply in_or_app. right. by left.
  - by rewrite (response_rejected a w _ _ _ _ Htry Hh).
Qed.
End Plain_data.

(** ** Responses of the pipeline *)

Section Responses.
Context `{Platform}.


(** C8. When the output of the pipeline, after [afterHandle], is an
    object with a [toJSON] of its own or an array holding such an object,
    the [try] block of [run] throws an error that is none of the known
    kinds, the log sink receives it, and the response is 500
    [{error: "Internal"}]. *)
Theorem custom_serialization_is_internal a w w1 w2 output :
  run_validate a (request_method w) (request_path w) w = (Resolved None, w1) ->
  run_output a w1 = (Resolved output, w2) ->
  (custom_serialization output
   \/ exists items x, output = VArray items /\ In x items /\ custom_serialization x) ->
  exists error,
    run_try a (request_method w) (request_path w) w = (Rejected error, w2)
    /\ (error = not_plain \/ error = null_toJSON)
    /\ In (Log "error" (ErrorData error)) (trace (after_run a w))
    /\ response (after_run a w) = (500, VObject [("error", VString "Internal")]).
Proof.
  intros Hv Ho Hout.
  assert (truthy output = true
          /\ (isPlainDto output = Resolved false
              \/ isPlainDto output = Rejected null_toJSON)) as [Ht Hp].
  { destruct Hout as [(props & -> & Hjson)|(items & x & -> & Hin & Hx)].
    - split; [done|]. left. simpl. by destruct (get "toJSON" props).
    - split; [done|]. rewrite isPlainDto_array. by apply (every_with_custom items x). }
  destruct (run_check_not_plain output w2 Ht Hp) as (error & Hc & He).
  exists error.
  destruct (internal_error_response a w w1 w2 output error Hv Ho Hc He) as (? & ? & ?).
  by repeat split.
Qed.


(** C10, amended. The check reads [toJSON] on every value whose [typeof]
    is ['object'], [null] included. A [null] output skips the check: the
    [try] block throws nothing and makes the result of status 200 and body
    [null], which is no internal error (koa answers a [null] body with
    status 204). For an output that is an array containing [null], the
    check never passes: it throws the [TypeError] of the read when every
    element before the first [null] passes, and otherwise either throws it
    or answers that the output is not plain; in all cases the response is
    500 [{error: "Internal"}]. *)
Theorem null_in_array_is_internal a w w1 w2 output :
  run_validate a (request_method w) (request_path w) w = (Resolved None, w1) ->
  run_output a w1 = (Resolved output, w2) ->
  (output = VNull ->
     run_try a (request_method w) (request_path w) w
     = (Resolved {| status := 200; body := VNull |}, w2)
     /\ response (after_run a w) = (204, VNull))
  /\ (forall items, output = VArray items -> In VNull items ->
        (isPlainDto output = Rejected null_toJSON \/ isPlainDto output = Resolved false)
        /\ (forall before after,
              items = before ++ VNull :: after ->
              Forall (fun x => isPlainDto x = Resolved true) before ->
              isPlainDto output = Rejected null_toJSON)
        /\ response (after_run a w) = (500, VObject [("error", VString "Internal")])).
Proof.
  intros Hv Ho. split.
  - intros ->.
    assert (run_try a (request_method w) (request_path w) w
            = (Resolved {| status := 200; body := VNull |}, w2)) as Htry.
    { by rewrite run_try_stages, (bind_resolved _ _ _ _ _ Hv),
        (bind_resolved _ _ _ _ _ Ho). }
    split; [done|]. by rewrite (response_resolved a w _ w2 Htry).
  - intros items -> Hin.
    destruct (every_with_null items Hin) as [Hp|Hp].
    + repeat split.
      * right. by rewrite isPlainDto_array.
      * intros before after -> Hbefore. rewrite isPlainDto_array.
        by apply every_up_to_null.
      * assert (isPlainDto (VArray items) = Resolved false
                \/ isPlainDto (VArray items) = Rejected null_toJSON) as Hp'.
        { left. by rewrite isPlainDto_array. }
        destruct (run_check_not_plain (VArray items) w2 eq_refl Hp') as (error & Hc & He).
        by destruct (internal_error_response a w w1 w2 _ error Hv Ho Hc He) as (? & ? & ?).
    + repeat split.
      * left. by rewrite isPlainDto_array.
      * intros before after -> Hbefore. rewrite isPlainDto_array.
        by apply every_up_to_null.
      * assert (isPlainDto (VArray items) = Resolved false
                \/ isPlainDto (VArray items) = Rejected null_toJSON) as Hp'.
        { right. by rewrite isPlainDto_array. }
        destruct (run_check_not_plain (VArray items) w2 eq_refl Hp') as (error & Hc & He).
        by destruct (internal_error_response a w w1 w2 _ error Hv Ho Hc He) as (? & ? & ?).
Qed.
End Responses.

(** ** The life cycle of the service instances *)

Section Service_lifecycle.
Context `{Platform}.

Lemma startServiceInstances_trace services w w1 :
  startServiceInstances services w = (Resolved tt, w1) ->
  trace w1 = trace w ++ map (fun s => ServiceStart (fst s)) services.
Proof.
  revert w. induction services as [|[name service] rest IH]; intros w; simpl.
  - intros [= <-]. by rewrite app_nil_r.
  - unfold startServiceInstances. simpl. fold (startServiceInstances rest).
    unfold bind at 1. unfold bind at 1. unfold emit, call. simpl.
    destruct (start service (user w)) as [[[]|e] u]; [|done].
    intros Hrest. rewrite (IH _ Hrest). simpl. by rewrite <- app_assoc.
Qed.

Lemma stopServiceInstances_trace services w :
  (forall name service, In (name, service) services -> never_rejects (stop service)) ->
  exists w1,
    stopServiceInstances services w = (Resolved tt, w1)
    /\ trace w1 = trace w ++ map (fun s => ServiceStop (fst s)) services.
Proof.
  revert w. induction services as [|[name service] rest IH]; intros w Hstop; simpl.
  - exists w. by rewrite app_nil_r.
  - unfold stopServiceInstances. simpl. fold (stopServiceInstances rest).
    unfold bind at 1. unfold bind at 1. unfold emit, call. simpl.
    pose proof (Hstop name service (or_introl eq_refl) (user w)) as Hnow.
    destruct (stop service (user w)) as [[[]|e] u]; [|done].
    destruct (IH (set_user u (add_event (ServiceStop name) w))) as (w1 & -> & Ht).
    { intros name' service' Hin. apply (Hstop name' service'). by right. }
    exists w1. split; [done|]. rewrite Ht. simpl. by rewrite <- app_assoc.
Qed.

Lemma lifecycle_starts services :
  lifecycle (map (fun s : string * Service => ServiceStart (fst s)) services)
  = map (fun s => ServiceStart (fst s)) services.
Proof. induction services as [|s rest IH]; simpl; [done|]. by rewrite IH. Qed.

Lemma lifecycle_stops services :
  lifecycle (map (fun s : string * Service => ServiceStop (fst s)) services)
  = map (fun s => ServiceStop (fst s)) services.
Proof. induction services as [|s rest IH]; simpl; [done|]. by rewrite IH. Qed.

(** After the services started, the [try] block and [handleError] show
    nothing of the life cycle. *)
Lemma run_try_after_start a method path w w1 :
  startServiceInstances (services a) w = (Resolved tt, w1) ->
  lifecycle (trace (snd (run_try a method path w))) = lifecycle (trace w1).
Proof.
  intros Hstart. rewrite run_try_stages. unfold run_validate.
  rewrite bind_assoc, (bind_resolved _ _ _ _ _ Hstart).
  apply (emits_filter is_lifecycle).
  apply emits_bind.
  - unfold log. apply emits_bind; [by apply emits_emit|]. intros _.
    by apply emits_validate.
  - intros [result|]; [apply emits_ret|].
    apply emits_bind; [by apply emits_run_output|]. intros output.
    apply emits_run_check.
Qed.

(** The [finally] block when nothing in it throws before the last hook. *)
Lemma run_finally_lifecycle result t0 a w :
  sendable result ->
  never_rejects (beforeStopServices a) ->
  (forall name service, In (name, service) (services a) -> never_rejects (stop service)) ->
  lifecycle (trace (snd (run_finally (Some result) t0 a w)))
  = lifecycle (trace w)
    ++ [BeforeStopServices]
    ++ map (fun s => ServiceStop (fst s)) (services a)
    ++ [AfterStopServices].
Proof.
  intros Hsend Hbefore Hstop. unfold run_finally.
  destruct (handleResult_quiet result w Hsend) as (wa & Hwa & Hta & _).
  rewrite (bind_resolved _ _ _ _ _ Hwa).
  unfold bind at 1, read at 1, log. unfold bind at 1. unfold emit at 1.
  unfold bind at 1. unfold bind at 1. unfold emit at 1, call at 1. simpl.
  pose proof (Hbefore (user wa)) as Hnow.
  destruct (beforeStopServices a (user wa)) as [[[]|e] u]; [|done].
  match goal with
  | |- context [bind (stopServiceInstances _) _ ?w0] =>
      destruct (stopServiceInstances_trace (services a) w0 Hstop) as (ws & Hs & Hts);
      rewrite (bind_resolved _ _ _ _ _ Hs)
  end.
  unfold bind, emit, call.
  destruct (afterStopServices a (user (add_event AfterStopServices ws))) as [r u']. simpl.
  rewrite Hts. simpl. rewrite Hta.
  unfold lifecycle. rewrite !List.filter_app. simpl.
  fold (lifecycle (map (fun s : string * Service => ServiceStop (fst s)) (services a))).
  rewrite lifecycle_stops. by rewrite <- !app_assoc.
Qed.

(** C2, amended. In a request whose services all started, whatever way
    the [try] block of [run] is left (validation failed, [handle] threw,
    the output was not plain data, or a result was made), and provided
    [beforeStopServices] and the [stop] of each service complete without
    throwing, every service instance of the request is started once and
    stopped once, in the order of the services object, all starts before
    [beforeStopServices], all stops after it and before
    [afterStopServices]. *)
Theorem services_started_and_stopped_once a w w1 :
  startServiceInstances (services a) w = (Resolved tt, w1) ->
  never_rejects (beforeStopServices a) ->
  (forall name service, In (name, service) (services a) -> never_rejects (stop service)) ->
  lifecycle (trace (after_run a w)) = lifecycle (trace w) ++ full_lifecycle a.
Proof.
  intros Hstart Hbefore Hstop.
  destruct (run_reaches_finally a w) as (result & wf & Hrun & Hcases).
  unfold after_run.
  rewrite Hrun, (run_finally_lifecycle _ _ _ _ (run_result_sendable _ _ _ _ Hcases)
                   Hbefore Hstop).
  assert (lifecycle (trace wf) = lifecycle (trace w1)) as ->.
  { pose proof (run_try_after_start a (request_method w) (request_path w) w w1 Hstart)
      as Htry.
    destruct Hcases as [Hc|(error & w0 & Hc & Hh)]; rewrite Hc in Htry; simpl in Htry.
    - done.
    - rewrite <- Htry.
      pose proof (emits_filter is_lifecycle (handleError error) w0) as Hquiet.
      rewrite Hh in Hquiet. apply Hquiet. by apply emits_handleError. }
  rewrite (startServiceInstances_trace _ _ _ Hstart).
  unfold lifecycle at 1. rewrite List.filter_app.
  fold (lifecycle (map (fun s : string * Service => ServiceStart (fst s)) (services a))).
  rewrite lifecycle_starts. unfold full_lifecycle, lifecycle.
  by rewrite <- !app_assoc.
Qed.
End Service_lifecycle.

(** ** Validation *)

Section Validation.
Context `{Platform}.

(** When validation fails the response is its result, and none of
    [parseInput], [beforeHandle], [handle], [afterHandle] is called. *)
Lemma validation_failure_response a w failure w1 :
  run_validate a (request_method w) (request_path w) w = (Resolved (Some failure), w1) ->
  response (after_run a w) = (status failure, body failure)
  /\ List.filter is_pipeline_call (trace (after_run a w))
     = List.filter is_pipeline_call (trace w).
Proof.
  intros Hv.
  assert (run_try a (request_method w) (request_path w) w = (Resolved failure, w1)) as Htry.
  { by rewrite run_try_stages, (bind_resolved _ _ _ _ _ Hv). }
  split.
  { rewrite (response_resolved a w failure w1 Htry). apply answer_body.
    unfold run_validate in Hv.
    apply bind_inv in Hv as [([] & wa & _ & Hv)|(e & _ & [=])].
    apply bind_inv in Hv as [([] & wb & _ & Hv)|(e & _ & [=])].
    by destruct (validate_failure a wb failure w1 Hv) as (_ & errors & ->). }
  destruct (emits_after_try (fun e => is_pipeline_call e = false) a w
              (Resolved failure) w1) as (ev2 & -> & HP2); [done..|].
  pose proof (emits_filter is_pipeline_call (run_validate a (request_method w)
                                               (request_path w)) w) as Hquiet.
  rewrite Hv in Hquiet. simpl in Hquiet.
  rewrite List.filter_app, (filter_none _ _ HP2), app_nil_r.
  apply Hquiet. by apply emits_run_validate.
Qed.

(** A class with no validators on its chain yet, and whose [schemas]
    declare nothing, gets no validators, and its validation passes. *)
Lemma validate_without_schemas a w this_ctor supers :
  ctor a = this_ctor :: supers ->
  validators_of a w = None ->
  (forall schemas, static_schemas (ctor a) = Some schemas ->
     schemas_body schemas = None /\ schemas_params schemas = None
     /\ schemas_query schemas = None) ->
  validate a (construct (ctor a) w) = (Resolved None, construct (ctor a) w).
Proof.
  intros Hctor Hnone Hschemas.
  assert (validators_of a (construct (ctor a) w)
          = Some {| validators_body := None; validators_params := None;
                    validators_query := None |}) as Hv.
  { unfold validators_of in *. unfold construct, ensureValidatorsCreated. simpl.
    rewrite Hnone. rewrite Hctor in *.
    destruct (static_schemas (this_ctor :: supers)) as [schemas|] eqn:Hs.
    - destruct (Hschemas schemas eq_refl) as (Hb & Hp & Hq). rewrite Hb, Hp, Hq. simpl.
      by rewrite lookup_insert_eq.
    - simpl. by rewrite lookup_insert_eq. }
  by rewrite (validate_in_declared_order _ _ _ Hv).
Qed.
End Validation.

(** ** The validator classes and their [ajv] *)

Section Coercion.
Context `{Platform}.

Lemma ajv_consistent_empty : ajv_consistent ∅.
Proof. intros name ajv. by rewrite lookup_empty. Qed.

Lemma static_lookup_ajv ajvs c ajv :
  ajv_consistent ajvs ->
  static_lookup ajvs (validator_chain c) = Some ajv ->
  ajv = createAjv c.
Proof.
  intros Hcons.
  assert (forall name c', name = validator_name c' ->
            name <> "Validator" /\ name <> "CoercingValidator"
            /\ name <> "ValidatorBase") as Hnames.
  { intros name c' ->. by destruct c'. }
  destruct c; simpl;
    repeat match goal with
      | |- context [ajvs !! ?name] =>
          let Hl := fresh "Hl" in
          destruct (ajvs !! name) as [ajv'|] eqn:Hl;
          [destruct (Hcons _ _ Hl) as (c' & Hname & ->);
           first [ by destruct (Hnames _ _ Hname) as (? & ? & ?)
                 | destruct c'; try discriminate; by intros [= <-] ]
          |]
      end; done.
Qed.

(** On a chain that finds a member, the member is the own one of the
    owner. *)
Lemma static_owner_lookup {V} (store : gmap string V) chain owner :
  static_owner store chain = Some owner ->
  static_lookup store chain = store !! owner /\ is_Some (store !! owner).
Proof.
  induction chain as [|c chain IH]; simpl; [done|].
  destruct (store !! c) as [v|] eqn:Hc; [|done].
  intros [= <-]. rewrite Hc. split; [done|by eexists].
Qed.

Lemma static_owner_ajv ajvs c owner :
  ajv_consistent ajvs ->
  static_owner ajvs (validator_chain c) = Some owner ->
  owner = validator_name c.
Proof.
  intros Hcons Howner.
  destruct (static_owner_lookup _ _ _ Howner) as [_ [ajv Hajv]].
  destruct (Hcons _ _ Hajv) as (c' & -> & _).
  assert (forall name, name ∈ validator_chain c -> name = validator_name c
            \/ name = "Validator" \/ name = "CoercingValidator"
            \/ name = "ValidatorBase") as Hnames.
  { intros name Hin.
    destruct c; simpl in Hin;
      repeat (apply elem_of_cons in Hin as [->|Hin]; [by auto|]);
      by apply elem_of_nil in Hin. }
  assert (validator_name c' ∈ validator_chain c) as Hin.
  { clear -Howner. induction (validator_chain c) as [|x chain IH]; simpl in *; [done|].
    destruct (ajvs !! x); [injection Howner as <-; by left|right; auto]. }
  destruct (Hnames _ Hin) as [Hn|[Hn|[Hn|Hn]]]; [done|by destruct c'..].
Qed.

(** The constructor of a validator class, in a store where each [ajv] is
    the one of its class: the class compiles with its own [Ajv], which has
    seen the schemas the class compiled before. *)
Lemma new_validator_eq c schema st :
  ajv_consistent (validator_ajv st) ->
  let seen := default [] (ajv_schemas st !! validator_name c) in
  new_validator c schema st
  = (match compile (createAjv c) seen schema with
     | Resolved validate => Resolved {| validator_class := c; validator := validate |}
     | Rejected e => Rejected e
     end,
     {| action_validators := action_validators st;
        validator_ajv := <[validator_name c := createAjv c]> (validator_ajv st);
        ajv_schemas := <[validator_name c := seen ++ [schema]]> (ajv_schemas st) |}).
Proof.
  intros Hcons seen. unfold new_validator.
  destruct (static_owner (validator_ajv st) (validator_chain c)) as [owner|] eqn:Howner;
    [|by destruct (compile _ _ _)].
  destruct (static_lookup (validator_ajv st) (validator_chain c)) as [ajv|] eqn:Hajv;
    [|by destruct (compile _ _ _)].
  assert (owner = validator_name c) as -> by by apply (static_owner_ajv _ _ _ Hcons).
  assert (ajv = createAjv c) as -> by by apply (static_lookup_ajv _ _ _ Hcons).
  destruct (static_owner_lookup _ _ _ Howner) as [Hfound _]. rewrite Hajv in Hfound.
  rewrite (insert_id (validator_ajv st) (validator_name c) (createAjv c)); [|done].
  fold seen. by destruct (compile _ _ _).
Qed.

Lemma ajv_consistent_insert ajvs c :
  ajv_consistent ajvs -> ajv_consistent (<[validator_name c := createAjv c]> ajvs).
Proof.
  intros Hcons name ajv. rewrite lookup_insert.
  case_decide as Hname; [|by apply Hcons].
  intros [= <-]. by exists c.
Qed.

Lemma new_validator_keeps c schema st :
  ajv_consistent (validator_ajv st) ->
  ajv_consistent (validator_ajv (snd (new_validator c schema st)))
  /\ action_validators (snd (new_validator c schema st)) = action_validators st.
Proof.
  intros Hcons. rewrite (new_validator_eq c schema st Hcons). simpl.
  split; [by apply ajv_consistent_insert|done].
Qed.

Lemma fill_consistent name c schema st :
  ajv_consistent (validator_ajv st) ->
  ajv_consistent (validator_ajv (snd (fill name c schema st))).
Proof.
  intros Hcons. unfold fill. destruct schema as [s|]; [|done].
  destruct (truthy s); [|done].
  destruct (new_validator_keeps c s st Hcons) as [Hnew _].
  by destruct (new_validator c s st) as [[v|e] st'].
Qed.

Lemma ensureValidatorsCreated_consistent ctor st :
  ajv_consistent (validator_ajv st) ->
  ajv_consistent (validator_ajv (snd (ensureValidatorsCreated ctor st))).
Proof.
  intros Hcons. unfold ensureValidatorsCreated.
  destruct (static_lookup _ _); [done|]. destruct ctor as [|this_ctor supers]; [done|].
  destruct (static_schemas _) as [schemas|]; [|done].
  set (st0 := set_validators _ _ st).
  assert (ajv_consistent (validator_ajv st0)) as H0 by done.
  pose proof (fill_consistent (class_name this_ctor) BodyValidator
                (schemas_body schemas) st0 H0) as H1.
  destruct (fill _ BodyValidator _ _) as [[[]|e] st1]; [|done]. simpl in H1.
  pose proof (fill_consistent (class_name this_ctor) ParamsValidator
                (schemas_params schemas) st1 H1) as H2.
  destruct (fill _ ParamsValidator _ _) as [[[]|e] st2]; [|done]. simpl in H2.
  by apply fill_consistent.
Qed.

(** Whatever instances were made before, and in whatever order, each
    validator class compiles with the [Ajv] of its own [createAjv]. *)
Lemma reachable_consistent st : reachable st -> ajv_consistent (validator_ajv st).
Proof.
  induction 1 as [|ctor st _ IH]; [apply ajv_consistent_empty|].
  by apply ensureValidatorsCreated_consistent.
Qed.

End Coercion.

(** ** The application *)

Section Application_lifecycle.
Context `{Platform}.

(** The promise [typeCheckServiceFactories] returns resolves whatever the
    factories object holds. *)
Lemma typeCheckServiceFactories_resolves w :
  exists w', typeCheckServiceFactories w = (Resolved tt, w').
Proof.
  unfold typeCheckServiceFactories, floating.
  destruct (forEachServiceFactory _ w) as [[[]|e] w']; eauto.
Qed.

(** [configure] resolves when the hooks of the subclass do: no value of
    the factories object makes it reject. *)
Lemma configure_resolves app w :
  never_rejects (createServiceFactories app) ->
  never_rejects (registerRoutes app) ->
  (forall k, never_rejects (beforeKoaConfigured app k)) ->
  (forall k, never_rejects (afterKoaBodyParserAdded app k)) ->
  (forall k, never_rejects (afterKoaConfigured app k)) ->
  is_resolved (fst (configure app w)) = true.
Proof.
  intros Hcreate Hroutes Hbefore Hbody Hafter.
  unfold configure, bind at 1. unfold bind at 1. unfold emit at 1, call at 1. simpl.
  pose proof (Hcreate (user w)) as Hc.
  destruct (createServiceFactories app (user w)) as [[factories|e] u]; [|done].
  unfold bind at 1, write at 1.
  match goal with
  | |- context [bind typeCheckServiceFactories _ ?w0] =>
      destruct (typeCheckServiceFactories_resolves w0) as (w1 & Hcheck);
      rewrite (bind_resolved _ _ _ _ _ Hcheck)
  end.
  unfold bind at 1. unfold bind at 1. unfold emit at 1, call at 1. simpl.
  pose proof (Hroutes (user w1)) as Hr.
  destruct (registerRoutes app (user w1)) as [[[]|e] u1]; [|done].
  unfold bind at 1, createKoa, bind at 1, call at 1. simpl.
  pose proof (Hbefore [] u1) as Hb.
  destruct (beforeKoaConfigured app [] u1) as [[k1|e] u2]; [|done].
  unfold bind at 1, call at 1. simpl.
  pose proof (Hbody (k1 ++ ["bodyParser"])%list u2) as Hp.
  destruct (afterKoaBodyParserAdded app _ u2) as [[k2|e] u3]; [|done].
  unfold call. simpl.
  pose proof (Hafter (k2 ++ ["routes"; "allowedMethods"])%list u3) as Ha.
  by destruct (afterKoaConfigured app _ u3) as [[k3|e] u4].
Qed.

(** The calls of a member over the entries of the factories object, when
    each of them completes. *)
Lemma entries_all (ev : string -> Event) (hook : ServiceFactory -> Hook unit) entries w :
  Forall (fun x : string * FactoryValue => never_rejects (hook (members (snd x))))
    entries ->
  exists w1,
    forEachEntry entries
      (fun name factory => emit (ev name) ;; call (hook (members factory))) w
    = (Resolved tt, w1)
    /\ trace w1 = trace w ++ map (fun x => ev (fst x)) entries
    /\ serviceFactories w1 = serviceFactories w
    /\ koa w1 = koa w /\ server w1 = server w /\ ctx w1 = ctx w
    /\ network w1 = network w.
Proof.
  intros Hall. revert w.
  induction Hall as [|[name v] rest Hf _ IH]; intros w; simpl in *.
  { exists w. by rewrite app_nil_r. }
  unfold bind at 1. rewrite emit_call.
  pose proof (Hf (user w)) as Hnow.
  destruct (hook (members v) (user w)) as [[[]|e] u]; [|done].
  destruct (IH (set_user u (add_event (ev name) w)))
    as (w1 & -> & Ht & Hfs & Hk & Hs & Hc & Hn).
  exists w1. split; [done|]. rewrite Ht, Hfs, Hk, Hs, Hc, Hn. simpl.
  by rewrite <- app_assoc.
Qed.

Lemma stops_normally_members entries :
  Forall (fun f => stops_normally (snd f)) entries ->
  Forall (fun x : string * FactoryValue => never_rejects (factory_stop (members (snd x))))
    entries.
Proof. intros Hall. eapply Forall_impl; [exact Hall|]. by intros [name [f|v]]. Qed.

Lemma stop_entries entries w :
  Forall (fun f => stops_normally (snd f)) entries ->
  exists w1,
    forEachEntry entries (fun name factory =>
      emit (FactoryStop name) ;; call (factory_stop (members factory))) w
    = (Resolved tt, w1)
    /\ serviceFactories w1 = serviceFactories w
    /\ server w1 = server w
    /\ List.filter is_close (trace w1) = List.filter is_close (trace w).
Proof.
  intros Hstops.
  destruct (entries_all FactoryStop factory_stop entries w (stops_normally_members _ Hstops))
    as (w1 & Hw1 & Ht & Hfs & _ & Hs & _).
  exists w1. split; [done|]. split; [done|]. split; [done|].
  rewrite Ht, List.filter_app.
  assert (List.filter is_close (map (fun x : string * FactoryValue => FactoryStop (fst x))
                                  entries) = []) as ->; [|by rewrite app_nil_r].
  clear. by induction entries as [|x rest IH].
Qed.

Lemma stopServiceFactories_normally w fs :
  serviceFactories w = Some fs ->
  Forall (fun f => stops_normally (snd f)) fs ->
  exists w1,
    stopServiceFactories w = (Resolved tt, w1)
    /\ serviceFactories w1 = serviceFactories w
    /\ server w1 = server w
    /\ List.filter is_close (trace w1) = List.filter is_close (trace w).
Proof.
  intros Hfs Hstops.
  destruct (stop_entries fs w Hstops) as (w1 & Hw1 & Hrest).
  exists w1. split; [|done].
  unfold stopServiceFactories, forEachServiceFactory, bind at 1, read. by rewrite Hfs.
Qed.

(** [stop] does not forget the server it closed. *)
Lemma stop_once app w fs :
  serviceFactories w = Some fs ->
  Forall (fun f => stops_normally (snd f)) fs ->
  exists w1,
    Application_stop app w = (Resolved tt, w1)
    /\ serviceFactories w1 = serviceFactories w
    /\ server w1 = match server w with
                   | Some _ => Some {| listening := false |}
                   | None => None
                   end
    /\ List.filter is_close (trace w1)
       = List.filter is_close (trace w)
         ++ match server w with
            | Some s => [Close (listening s)]
            | None => []
            end.
Proof.
  intros Hfs Hstops. unfold Application_stop, bind at 1, read.
  destruct (server w) as [s|] eqn:Hs.
  - unfold bind at 1, stopServer, bind at 1, emit, write. simpl. rewrite Hs.
    match goal with
    | |- context [stopServiceFactories ?w0] =>
        destruct (stopServiceFactories_normally w0 fs) as (w1 & -> & Hfs1 & Hs1 & Ht1);
        [done..|]
    end.
    exists w1. split; [done|]. rewrite Hfs1, Hs1, Ht1. simpl.
    by rewrite List.filter_app.
  - unfold bind at 1, ret.
    destruct (stopServiceFactories_normally w fs) as (w1 & -> & Hfs1 & Hs1 & Ht1);
      [done..|].
    exists w1. rewrite Hfs1, Hs1, Ht1, Hs, app_nil_r. done.
Qed.

(** C6, amended. For an application that was configured and whose
    factories stop without throwing, [stop] called twice in a row resolves
    both times. When [start] was never called there is no server and
    neither call closes a socket. When there is a server, the first call
    closes it and the second call closes the same, no longer listening,
    server once more. *)
Theorem stop_twice app w fs :
  serviceFactories w = Some fs ->
  Forall (fun f => stops_normally (snd f)) fs ->
  exists w1 w2,
    Application_stop app w = (Resolved tt, w1)
    /\ Application_stop app w1 = (Resolved tt, w2)
    /\ List.filter is_close (trace w2)
       = List.filter is_close (trace w)
         ++ match server w with
            | Some s => [Close (listening s); Close false]
            | None => []
            end.
Proof.
  intros Hfs Hstops.
  destruct (stop_once app w fs Hfs Hstops) as (w1 & H1 & Hfs1 & Hs1 & Ht1).
  destruct (stop_once app w1 fs) as (w2 & H2 & _ & _ & Ht2); [by rewrite Hfs1|done|].
  exists w1, w2. split; [done|]. split; [done|].
  rewrite Ht2, Ht1, Hs1. destruct (server w) as [s|]; simpl.
  - by rewrite <- app_assoc.
  - by rewrite !app_nil_r.
Qed.
End Application_lifecycle.

(** ** The reference engine meets the contract *)

Lemma reference_type_keyword : @TypeKeyword node.
Proof.
  split; intros opts seen p props s Hcoerce Hp.
  - eexists. split; [reflexivity|].
    unfold reference_validate, property_schema, type_schema.
    simpl. rewrite Hp. simpl. unfold typed. simpl. by rewrite Hcoerce.
  - intros Hs. eexists. split; [reflexivity|].
    unfold reference_validate, property_schema, type_schema.
    simpl. rewrite Hp. simpl. unfold typed. simpl. by rewrite Hcoerce, Hs.
  - intros Hs. eexists. split; [reflexivity|].
    unfold reference_validate, property_schema, type_schema.
    simpl. rewrite Hp. simpl. unfold typed. simpl. by rewrite Hcoerce, Hs.
Qed.

(** ** The properties on the scenarios *)

Section Checks.
#[local] Existing Instance node.

(** The two end-to-end scenarios of the specification. *)
Example get_user_1_responds :
  let a := GetUserAction [("users", quiet)] in
  response (after_run a (construct (ctor a) (idle get_user_1))) = (200, jakso).
Proof. vm_compute. reflexivity. Qed.

Example get_user_notanumber_responds :
  let a := GetUserAction [("users", quiet)] in
  response (after_run a (construct (ctor a) (idle get_user_notanumber)))
  = (400,
     VObject [("error", VString "Validation");
              ("errors",
               VArray [VObject [("keyword", VString "type");
                                ("dataPath", VString ".id");
                                ("schemaPath", VString "#/properties/id/type");
                                ("params", VObject [("type", VString "integer")]);
                                ("message", VString "should be integer")]])]).
Proof. vm_compute. reflexivity. Qed.

(** A [handle] that throws an instance of [NotFoundError] is answered
    with 404, and the service of the request is stopped. *)
Example not_found_responds :
  let a := Throwing (ErrorObject NotFoundError "no user 7") in
  let w := after_run a (construct (ctor a) (idle get_user_1)) in
  response w = (404, VObject [("error", VString "NotFound")])
  /\ lifecycle (trace w)
     = [ServiceStart "users"; BeforeStopServices; ServiceStop "users"; AfterStopServices].
Proof. split; vm_compute; reflexivity. Qed.

(** C1: a factories object holding the number 42 under [db] is accepted.
    [configure] resolves, the routes are registered and koa is set up; the
    error of the check is a rejection nobody handles, and it is the
    [ReferenceError] of reading [name], with no key in its message. *)
Theorem configure_accepts_non_factory :
  fst (configure misconfigured (idle get_user_1)) = Resolved tt
  /\ trace (snd (configure misconfigured (idle get_user_1)))
     = [CreateServiceFactories;
        UnhandledRejection (ErrorObject ReferenceError "name is not defined");
        RegisterRoutes]
  /\ koa (snd (configure misconfigured (idle get_user_1)))
     = Some ["bodyParser"; "routes"; "allowedMethods"].
Proof. repeat split; vm_compute; reflexivity. Qed.

(** C2 fails as stated: with two services of which the first to be
    stopped throws in [stop], both are started, and the second is never
    stopped, nor is [afterStopServices] called. *)
Lemma stop_failure_skips_later_services :
  let a := GetUserAction [("db", stuck); ("users", quiet)] in
  let w := construct (ctor a) (idle get_user_1) in
  (exists w1, startServiceInstances (services a) w = (Resolved tt, w1))
  /\ lifecycle (trace (after_run a w))
     = [ServiceStart "db"; ServiceStart "users"; BeforeStopServices; ServiceStop "db"]
  /\ lifecycle (trace (after_run a w)) <> lifecycle (trace w) ++ full_lifecycle a.
Proof.
  intros a w. split; [by eexists|]. split; [by vm_compute|].
  vm_compute. discriminate.
Qed.

Lemma services_started_and_stopped_once_witness :
  let a := GetUserAction [("db", quiet); ("users", quiet)] in
  let w := construct (ctor a) (idle get_user_notanumber) in
  (exists w1, startServiceInstances (services a) w = (Resolved tt, w1))
  /\ lifecycle (trace (after_run a w)) = lifecycle (trace w) ++ full_lifecycle a.
Proof.
  intros a w. split; [by eexists|].
  eapply (services_started_and_stopped_once a w).
  - reflexivity.
  - intros u. reflexivity.
  - intros name service [[= <- <-]|[[= <- <-]|[]]] u; reflexivity.
Defined.

(** C3: [ImportUserAction] declares [static schemas = {}] and extends
    [CreateUserAction], of which an instance was made before. Its
    [validators] member is the inherited one, and its validation fails on
    the body schema of the superclass. *)
Theorem inherited_validators_reject :
  static_schemas (ctor ImportUserAction) = Some no_schemas
  /\ fst (validate ImportUserAction import_after_create)
     = Resolved (Some {| status := 400;
                         body := VObject
                           [("error", VString "Validation");
                            ("errors",
                             VArray [ajv_error "type" ".id" "#/properties/id/type"
                                       (VObject [("type", VString "integer")])
                                       "should be integer"])] |})
  /\ trace (snd (validate ImportUserAction import_after_create))
     = [Validate BodyValidator].
Proof. repeat split; vm_compute; reflexivity. Qed.


Lemma handleError_taxonomy_witness :
  let error := ErrorObject (UserError "UserNotFoundError" NotFoundError) "no user 7" in
  let w := idle get_user_1 in
  instanceof error NotFoundError = true
  /\ handleError error w
     = (Resolved {| status := 404; body := VObject [("error", VString "NotFound")] |}, w).
Proof.
  intros error w. split; [reflexivity|].
  apply (proj1 (handleError_taxonomy error w)). reflexivity.
Defined.

(** C6 fails as stated: after [configure], [start] and [stop], a second
    [stop] closes the server again, although it no longer listens. *)
Lemma second_stop_closes_again :
  let configured := snd (configure healthy (idle get_user_1)) in
  let w := snd (Application_stop healthy (after_start healthy configured)) in
  fst <$> Application_start healthy configured = Some (Resolved tt)
  /\ List.filter is_close (trace w) = [Close true]
  /\ fst (Application_stop healthy w) = Resolved tt
  /\ List.filter is_close (trace (snd (Application_stop healthy w)))
     = [Close true; Close false].
Proof. repeat split; vm_compute; reflexivity. Qed.

Lemma stop_twice_witness :
  let w := after_start healthy (snd (configure healthy (idle get_user_1))) in
  serviceFactories w = Some [("health", Factory plain_factory)]
  /\ exists w1 w2,
       Application_stop healthy w = (Resolved tt, w1)
       /\ Application_stop healthy w1 = (Resolved tt, w2)
       /\ List.filter is_close (trace w2) = [Close true; Close false].
Proof.
  intros w. split; [reflexivity|].
  destruct (stop_twice healthy w [("health", Factory plain_factory)]) as (w1 & w2 & H1 & H2 & Ht).
  - reflexivity.
  - constructor; [|constructor]. intros u. reflexivity.
  - exists w1, w2. split; [exact H1|]. split; [exact H2|]. exact Ht.
Defined.


Lemma custom_serialization_is_internal_witness :
  let a := Returning a_date in
  let w := construct (ctor a) (idle get_user_1) in
  custom_serialization a_date
  /\ response (after_run a w) = (500, VObject [("error", VString "Internal")]).
Proof.
  intros a w.
  assert (custom_serialization a_date) as Hdate.
  { exists [("toJSON", VFunction "toJSON")]. split; [reflexivity|discriminate]. }
  split; [exact Hdate|].
  edestruct (custom_serialization_is_internal a w) as (error & _ & _ & _ & Hresponse).
  - reflexivity.
  - reflexivity.
  - left. exact Hdate.
  - exact Hresponse.
Defined.


(** C10 fails as stated: in an array the check stops at the first element
    it rejects, so a [null] after a date is never read; the error the
    request ends with is the one of [run], not a [TypeError]. *)
Lemma every_stops_before_null :
  let a := Returning (VArray [a_date; VNull]) in
  In VNull [a_date; VNull]
  /\ isPlainDto (VArray [a_date; VNull]) = Resolved false
  /\ isPlainDto (VArray [a_date; VNull]) <> Rejected null_toJSON
  /\ List.filter (fun e => match e with Log "error" _ => true | _ => false end)
       (trace (after_run a (construct (ctor a) (idle get_user_1))))
     = [Log "error" (ErrorData not_plain)].
Proof. intros a. split; [by right; left|]. by vm_compute. Qed.

Lemma null_in_array_is_internal_witness :
  let a := Returning (VArray [jakso; VNull]) in
  let w := construct (ctor a) (idle get_user_1) in
  In VNull [jakso; VNull]
  /\ isPlainDto (VArray [jakso; VNull]) = Rejected null_toJSON
  /\ response (after_run a w) = (500, VObject [("error", VString "Internal")]).
Proof.
  intros a w. split; [by right; left|].
  edestruct (null_in_array_is_internal a w) as [_ Harray].
  - reflexivity.
  - reflexivity.
  - destruct (Harray [jakso; VNull] eq_refl) as (_ & Hnull & Hresponse).
    + right. left. reflexivity.
    + split; [|exact Hresponse].
      apply (Hnull [jakso] []); [reflexivity|]. constructor; [reflexivity|constructor].
Defined.
End Checks.


(** * More properties *)

(** ** [removeLeadingWhitespace] *)

Lemma strip_flush_left line_start input : flush_left line_start (strip line_start input).
Proof.
  revert line_start. induction input as [|c rest IH]; intros line_start; simpl; [done|].
  destruct (line_start && is_blank c) eqn:Hc.
  { apply andb_true_iff in Hc as [-> _]. apply IH. }
  simpl. split; [|apply IH].
  intros ->. simpl in Hc. exact Hc.
Qed.

Lemma strip_fixed line_start text :
  flush_left line_start text -> strip line_start text = text.
Proof.
  revert line_start. induction text as [|c rest IH]; intros line_start; simpl; [done|].
  intros [Hc Hrest]. destruct line_start; simpl.
  - rewrite (Hc eq_refl). by rewrite IH.
  - by rewrite IH.
Qed.

(** X1. After [removeLeadingWhitespace] no line starts with white space
    (other than a line feed); the texts it leaves unchanged are exactly
    the texts of which no line starts so, and applying it twice is
    applying it once. *)
Theorem removeLeadingWhitespace_flush_left input :
  flush_left true (removeLeadingWhitespace input)
  /\ (removeLeadingWhitespace input = input <-> flush_left true input)
  /\ removeLeadingWhitespace (removeLeadingWhitespace input)
     = removeLeadingWhitespace input.
Proof.
  unfold removeLeadingWhitespace. split; [apply strip_flush_left|]. split.
  - split; [|apply strip_fixed]. intros <-. apply strip_flush_left.
  - apply strip_fixed, strip_flush_left.
Qed.

Lemma strip_sublist line_start input : sublist (strip line_start input) input.
Proof.
  revert line_start. induction input as [|c rest IH]; intros line_start; simpl; [done|].
  destruct (line_start && is_blank c).
  - apply sublist_cons, IH.
  - apply sublist_skip, IH.
Qed.

Lemma strip_keeps line_start input :
  List.filter (fun c => negb (is_blank c)) (strip line_start input)
  = List.filter (fun c => negb (is_blank c)) input.
Proof.
  revert line_start. induction input as [|c rest IH]; intros line_start; simpl; [done|].
  destruct (line_start && is_blank c) eqn:Hc.
  - apply andb_true_iff in Hc as [_ ->]. simpl. apply IH.
  - simpl. by rewrite IH.
Qed.

(** X2. [removeLeadingWhitespace] only removes: its result is the input
    with some code units left out, none of them a line feed or a code unit
    that is not white space, so the text outside the white space, and the
    number of lines, are those of the input. *)
Theorem removeLeadingWhitespace_only_removes_blanks input :
  sublist (removeLeadingWhitespace input) input
  /\ List.filter (fun c => negb (is_blank c)) (removeLeadingWhitespace input)
     = List.filter (fun c => negb (is_blank c)) input
  /\ length (List.filter (fun c => c =? 10) (removeLeadingWhitespace input))
     = length (List.filter (fun c => c =? 10) input).
Proof.
  unfold removeLeadingWhitespace. split; [apply strip_sublist|].
  split; [apply strip_keeps|].
  generalize true. induction input as [|c rest IH]; intros line_start; simpl; [done|].
  destruct (line_start && is_blank c) eqn:Hc.
  - apply andb_true_iff in Hc as [_ Hc]. unfold is_blank in Hc.
    apply andb_true_iff in Hc as [_ Hc].
    destruct (c =? 10); [done|]. apply IH.
  - simpl. destruct (c =? 10); simpl; by rewrite IH.
Qed.

Lemma strip_app line_start before c after :
  is_blank c = false ->
  strip line_start (before ++ c :: after)
  = strip line_start before ++ c :: strip (is_line_terminator c) after.
Proof.
  intros Hc. revert line_start.
  induction before as [|b before IH]; intros line_start; simpl.
  - by rewrite Hc, andb_false_r.
  - destruct (line_start && is_blank b); [apply IH|]. simpl. by rewrite IH.
Qed.

(** X3. [removeLeadingWhitespace] works line by line: on two texts joined
    by a line feed it is the two results joined by a line feed. *)
Theorem removeLeadingWhitespace_lines before after :
  removeLeadingWhitespace (before ++ 10 :: after)
  = removeLeadingWhitespace before ++ 10 :: removeLeadingWhitespace after.
Proof. unfold removeLeadingWhitespace. by rewrite strip_app. Qed.

(** ** [BaseError] *)

Lemma truthy_or_null r :
  let r' := if truthy r then r else VNull in
  (if truthy r' then r' else VNull) = r'.
Proof. simpl. by destruct (truthy r) eqn:Hr; [rewrite Hr|]. Qed.

Lemma wrapped_message captured e :
  error_message (wrapped captured e) = error_message e.
Proof. revert e. induction captured as [|s outer IH]; intros e; simpl; [done|]. by rewrite IH. Qed.

Lemma wrapped_response s outer e :
  error_response (wrapped (s :: outer) e)
  = if truthy (error_response e) then error_response e else VNull.
Proof.
  revert s e. induction outer as [|s' outer IH]; intros s e; [done|].
  change (wrapped (s :: s' :: outer) e)
    with (wrapped (s' :: outer) (new_BaseError None (Some e) s)).
  rewrite IH. simpl. apply truthy_or_null.
Qed.

Lemma string_append_assoc (a b c : string) : (a +:+ b) +:+ c = a +:+ (b +:+ c).
Proof.
  induction a as [|x a IH]; [done|].
  change (String x ((a +:+ b) +:+ c) = String x (a +:+ (b +:+ c))). by rewrite IH.
Qed.

Lemma wrapped_stack captured e :
  exists outer_stacks, error_stack (wrapped captured e) = outer_stacks +:+ error_stack e.
Proof.
  revert e. induction captured as [|s outer IH]; intros e; simpl.
  - by exists EmptyString.
  - destruct (IH (new_BaseError None (Some e) s)) as (prefix & ->). simpl.
    exists (prefix +:+ s +:+ caused_by).
    by rewrite !string_append_assoc.
Qed.

(** X4. An error wrapped in any number of [BaseError]s that are given no
    message keeps its message; the [response] of the outermost wrapper is
    the response of the wrapped error ([null] when it has none),
    [responseData] is the [data] of that response, and the stack of the
    outermost wrapper ends with the stack of the wrapped error. *)
Theorem wrapped_error_shows_through s outer e :
  let top := wrapped (s :: outer) e in
  error_message top = error_message e
  /\ error_response top = (if truthy (error_response e) then error_response e else VNull)
  /\ responseData top
     = (if truthy (error_response e) then data_of (error_response e) else VNull)
  /\ exists outer_stacks, error_stack top = outer_stacks +:+ error_stack e.
Proof.
  intros top. split; [apply wrapped_message|]. split; [apply wrapped_response|].
  split; [|apply wrapped_stack].
  unfold responseData, top. rewrite wrapped_response.
  by destruct (truthy (error_response e)) eqn:Hr; [rewrite Hr|].
Qed.

(** ** More on the plain-data check *)

(** X5. An array passes [isPlainDto] exactly when each of its items
    does. *)
Theorem array_is_plain_iff items :
  isPlainDto (VArray items) = Resolved true
  <-> Forall (fun x => isPlainDto x = Resolved true) items.
Proof.
  rewrite isPlainDto_array. induction items as [|x rest IH]; simpl.
  - split; [by constructor|done].
  - destruct (isPlainDto x) as [[]|e] eqn:Hx.
    + rewrite IH. split; [by constructor|]. by inversion 1.
    + split; [done|]. inversion 1; congruence.
    + split; [done|]. inversion 1; congruence.
Qed.

(** X6. [isPlainDto] throws nothing but the [TypeError] of reading
    [toJSON] on [null], and it throws on no value other than [null] whose
    arrays, at any depth of arrays, hold no [null]. *)
Theorem isPlainDto_throws_on_null_only obj :
  (forall e, isPlainDto obj = Rejected e -> e = null_toJSON)
  /\ (obj <> VNull -> arrays_without_null obj = true ->
      exists plain, isPlainDto obj = Resolved plain).
Proof.
  split; [intros e; apply isPlainDto_rejects|].
  induction obj as [v Hv|items IH] using JsValue_array_ind; intros Hnull Hfree.
  - destruct v; simpl; eauto; [done|]. by destruct (Hv items).
  - rewrite isPlainDto_array. clear Hnull.
    induction IH as [|x rest Hx _ IHrest]; simpl; [eauto|].
    simpl in Hfree. apply andb_true_iff in Hfree as [Hhead Hrest].
    destruct (Hx) as (plain & ->).
    + by intros ->.
    + by destruct x.
    + destruct plain; [by apply IHrest|eauto].
Qed.

(** ** The static caches *)

Section Caches.
Context `{Platform}.

Lemma new_validator_validators c schema st :
  action_validators (snd (new_validator c schema st)) = action_validators st.
Proof.
  unfold new_validator.
  destruct (static_owner (validator_ajv st) (validator_chain c)),
    (static_lookup (validator_ajv st) (validator_chain c));
    by destruct (compile _ _ _).
Qed.

(** A step of [ensureValidatorsCreated] writes nothing but the
    [validators] of the class it works for. *)
Lemma fill_writes name c schema st :
  action_validators (snd (fill name c schema st)) = action_validators st
  \/ exists validators,
       action_validators (snd (fill name c schema st))
       = <[name := validators]> (action_validators st).
Proof.
  unfold fill. destruct schema as [s|]; [|by left]. destruct (truthy s); [|by left].
  pose proof (new_validator_validators c s st) as Hkept.
  destruct (new_validator c s st) as [[v|e] st']; simpl in *; [|by left].
  right. unfold put_validator, set_validators. simpl. rewrite Hkept. by eexists.
Qed.

Lemma ensureValidatorsCreated_writes this_ctor supers st :
  static_lookup (action_validators st) (map class_name (this_ctor :: supers)) = None ->
  exists validators,
    action_validators (snd (ensureValidatorsCreated (this_ctor :: supers) st))
    = <[class_name this_ctor := validators]> (action_validators st).
Proof.
  intros Hnone. unfold ensureValidatorsCreated. rewrite Hnone.
  set (name := class_name this_ctor).
  set (st0 := set_validators name no_validators st).
  assert (forall st' : Statics,
            (exists vs, action_validators st' = <[name := vs]> (action_validators st)) ->
            forall c schema,
              exists vs, action_validators (snd (fill name c schema st'))
                         = <[name := vs]> (action_validators st)) as Hstep.
  { intros st' [vs Hst'] c schema.
    destruct (fill_writes name c schema st') as [->|[vs' ->]]; [by eexists|].
    rewrite Hst', insert_insert_eq. by eexists. }
  assert (exists vs, action_validators st0 = <[name := vs]> (action_validators st)) as H0.
  { by eexists. }
  destruct (static_schemas _) as [schemas|]; [|done].
  pose proof (Hstep st0 H0 BodyValidator (schemas_body schemas)) as H1.
  destruct (fill name BodyValidator _ st0) as [[[]|e] st1]; [|done]. simpl in H1.
  pose proof (Hstep st1 H1 ParamsValidator (schemas_params schemas)) as H2.
  destruct (fill name ParamsValidator _ st1) as [[[]|e] st2]; [|done]. simpl in H2.
  apply (Hstep st2 H2).
Qed.

Lemma ensureValidatorsCreated_cached ctor st :
  is_Some (static_lookup (action_validators st) (map class_name ctor)) ->
  ensureValidatorsCreated ctor st = (Resolved tt, st).
Proof. intros [v Hv]. unfold ensureValidatorsCreated. by rewrite Hv. Qed.

Lemma ensureValidatorsCreated_caches this_ctor supers st :
  is_Some (static_lookup
             (action_validators (snd (ensureValidatorsCreated (this_ctor :: supers) st)))
             (map class_name (this_ctor :: supers))).
Proof.
  destruct (static_lookup (action_validators st) (map class_name (this_ctor :: supers)))
    as [v|] eqn:Hv.
  - rewrite ensureValidatorsCreated_cached; [|by eexists]. simpl in *. rewrite Hv.
    by eexists.
  - destruct (ensureValidatorsCreated_writes this_ctor supers st Hv) as (vs & ->).
    simpl. rewrite lookup_insert_eq. by eexists.
Qed.

(** X7. The validators of a class are made once: the construction of a
    second instance of a class writes no static member, of the action
    classes or of the validator classes, and does not throw -- whatever
    instances of any class were constructed before the first, and also
    when the construction of the first threw. *)
Theorem ensureValidatorsCreated_idempotent ctor st :
  ensureValidatorsCreated ctor (snd (ensureValidatorsCreated ctor st))
  = (Resolved tt, snd (ensureValidatorsCreated ctor st)).
Proof.
  destruct ctor as [|this_ctor supers]; [done|].
  apply ensureValidatorsCreated_cached, ensureValidatorsCreated_caches.
Qed.


(** One step of [ensureValidatorsCreated] in a store where each [ajv] is
    the one of its class, for a class [name] that has its [validators]
    object, in which the member of the step is not set yet. *)
Lemma fill_spec name c schema st validators :
  ajv_consistent (validator_ajv st) ->
  action_validators st !! name = Some validators ->
  slot c validators = None ->
  exists validators',
    action_validators (snd (fill name c schema st)) !! name = Some validators'
    /\ ajv_consistent (validator_ajv (snd (fill name c schema st)))
    /\ (forall c', c' <> c -> slot c' validators' = slot c' validators)
    /\ made_for c schema (slot c validators')
    /\ match fst (fill name c schema st) with
       | Resolved _ => is_Some (slot c validators') <-> declared schema = true
       | Rejected _ => declared schema = true /\ slot c validators' = None
       end.
Proof.
  intros Hcons Hname Hslot.
  assert (is_Some (@None ValidatorBase) <-> false = true) as Hno.
  { split; [by intros [? ?]|done]. }
  unfold fill. destruct schema as [s|]; simpl.
  2: { exists validators. rewrite Hslot. by repeat split. }
  destruct (truthy s) eqn:Htruthy.
  2: { exists validators. rewrite Hslot. by repeat split. }
  rewrite (new_validator_eq c s st Hcons).
  destruct (compile (createAjv c) _ s) as [validate|e] eqn:Hcompile; simpl.
  - eexists. split; [by rewrite lookup_insert_eq|].
    split; [by apply ajv_consistent_insert|]. rewrite Hname. simpl.
    split; [|split; [|split]].
    + intros c' Hc'. by destruct c, c'.
    + destruct c; simpl; (split; [done|]); eexists _, _, _; by repeat split.
    + by destruct c.
    + by destruct c.
  - exists validators. split; [done|]. split; [by apply ajv_consistent_insert|].
    rewrite Hslot. by repeat split.
Qed.

(** The first construction of an instance of a class. *)
Lemma first_construction st this_ctor supers schemas :
  reachable st ->
  static_lookup (action_validators st) (map class_name (this_ctor :: supers)) = None ->
  static_schemas (this_ctor :: supers) = Some schemas ->
  let after := ensureValidatorsCreated (this_ctor :: supers) st in
  exists validators,
    static_lookup (action_validators (snd after)) (map class_name (this_ctor :: supers))
    = Some validators
    /\ (forall c, made_for c (schema_of c schemas) (slot c validators))
    /\ match fst after with
       | Resolved _ =>
           forall c, is_Some (slot c validators) <-> declared (schema_of c schemas) = true
       | Rejected _ =>
           exists c, declared (schema_of c schemas) = true /\ slot c validators = None
       end.
Proof.
  intros Hreach Hnone Hschemas after. unfold after, ensureValidatorsCreated.
  rewrite Hnone, Hschemas.
  set (name := class_name this_ctor).
  set (st0 := set_validators name no_validators st).
  assert (forall st' : Statics, static_lookup (action_validators st')
                                  (map class_name (this_ctor :: supers))
                                = action_validators st' !! name
                                \/ action_validators st' !! name = None) as Hhead.
  { intros st'. simpl. fold name. destruct (action_validators st' !! name); auto. }
  assert (forall (st' : Statics) vs, action_validators st' !! name = Some vs ->
            static_lookup (action_validators st') (map class_name (this_ctor :: supers))
            = Some vs) as Hfound.
  { intros st' vs Hvs. simpl. fold name. by rewrite Hvs. }
  destruct (fill_spec name BodyValidator (schemas_body schemas) st0 no_validators)
    as (vs1 & Hl1 & Hc1 & Ho1 & Hm1 & Hr1);
    [apply (reachable_consistent st Hreach)|by apply lookup_insert_eq|done|].
  destruct (fill name BodyValidator _ st0) as [[[]|e1] st1]; simpl in *.
  2: { exists vs1. split; [by apply Hfound|]. split.
       - intros c. destruct c; [done|rewrite (Ho1 ParamsValidator)|
                                rewrite (Ho1 QueryValidator)]; done.
       - by exists BodyValidator. }
  destruct (fill_spec name ParamsValidator (schemas_params schemas) st1 vs1)
    as (vs2 & Hl2 & Hc2 & Ho2 & Hm2 & Hr2); [done|done|by rewrite (Ho1 ParamsValidator)|].
  destruct (fill name ParamsValidator _ st1) as [[[]|e2] st2]; simpl in *.
  2: { exists vs2. split; [by apply Hfound|]. split.
       - intros c. destruct c; [rewrite (Ho2 BodyValidator)|
                                |rewrite (Ho2 QueryValidator), (Ho1 QueryValidator)]; done.
       - by exists ParamsValidator. }
  destruct (fill_spec name QueryValidator (schemas_query schemas) st2 vs2)
    as (vs3 & Hl3 & Hc3 & Ho3 & Hm3 & Hr3);
    [done|done|by rewrite (Ho2 QueryValidator), (Ho1 QueryValidator)|].
  destruct (fill name QueryValidator _ st2) as [[[]|e3] st3]; simpl in *.
  - exists vs3. split; [by apply Hfound|]. split.
    + intros c. destruct c; [rewrite (Ho3 BodyValidator), (Ho2 BodyValidator)|
                             rewrite (Ho3 ParamsValidator)|]; done.
    + intros c. destruct c; [rewrite (Ho3 BodyValidator), (Ho2 BodyValidator)|
                             rewrite (Ho3 ParamsValidator)|]; done.
  - exists vs3. split; [by apply Hfound|]. split.
    + intros c. destruct c; [rewrite (Ho3 BodyValidator), (Ho2 BodyValidator)|
                             rewrite (Ho3 ParamsValidator)|]; done.
    + by exists QueryValidator.
Qed.

(** X8. The first construction of an instance of a class (no class of
    its chain has validators yet) leaves on the class a [validators]
    object of its own, whether it returns or throws. Each validator in it
    is of the class of its member (body, params, query) and was compiled,
    by the [Ajv] of [createAjv] for that class, from the schema the class
    declares for that member. When the constructor returns, there is a
    validator for exactly the schemas that are declared (and count as
    true); when it throws -- the compiler refused a schema -- a declared
    schema is left without a validator, for this instance and, the
    validators being made once, for all later ones. *)
Theorem validators_mirror_schemas st this_ctor supers schemas :
  reachable st ->
  static_lookup (action_validators st) (map class_name (this_ctor :: supers)) = None ->
  static_schemas (this_ctor :: supers) = Some schemas ->
  let after := ensureValidatorsCreated (this_ctor :: supers) st in
  exists validators,
    static_lookup (action_validators (snd after)) (map class_name (this_ctor :: supers))
    = Some validators
    /\ (forall c, made_for c (schema_of c schemas) (slot c validators))
    /\ match fst after with
       | Resolved _ =>
           forall c, is_Some (slot c validators) <-> declared (schema_of c schemas) = true
       | Rejected _ =>
           exists c, declared (schema_of c schemas) = true /\ slot c validators = None
       end.
Proof. apply first_construction. Qed.

(** X9. In whatever order instances of actions were constructed, the
    [ajv] a validator class finds is the one of its own [createAjv]: the
    body validators never share the coercing [Ajv] of the params and query
    validators, nor the other way round. *)
Theorem validator_classes_keep_their_ajv st c ajv :
  reachable st ->
  static_lookup (validator_ajv st) (validator_chain c) = Some ajv ->
  ajv = createAjv c
  /\ coerceTypes ajv = match c with BodyValidator => false | _ => true end.
Proof.
  intros Hreach Hajv.
  rewrite (static_lookup_ajv _ _ _ (reachable_consistent st Hreach) Hajv).
  by destruct c.
Qed.

Lemma static_lookup_app {V} (store : gmap string V) before after :
  static_lookup store (before ++ after)
  = match static_lookup store before with
    | Some v => Some v
    | None => static_lookup store after
    end.
Proof.
  induction before as [|c before IH]; simpl; [done|].
  by destruct (store !! c).
Qed.

Lemma static_lookup_insert_other {V} (store : gmap string V) name v chain :
  name ∉ chain ->
  static_lookup (<[name := v]> store) chain = static_lookup store chain.
Proof.
  induction chain as [|c chain IH]; simpl; [done|].
  intros Hname. apply not_elem_of_cons in Hname as [Hc Hchain].
  rewrite lookup_insert_ne; [|done]. by rewrite IH.
Qed.

(** X10. Once a class finds validators, on itself or on a superclass,
    it finds the same ones ever after: constructing an instance of any
    class leaves them in place. The class chains are those of one class
    hierarchy: the names on a chain differ, and a class that is on the
    chain has, as its own chain, the rest of that chain. *)
Theorem validators_never_change st chain validators ctor :
  NoDup chain ->
  static_lookup (action_validators st) chain = Some validators ->
  (forall this_ctor supers,
     ctor = this_ctor :: supers -> class_name this_ctor ∈ chain ->
     exists subclasses, chain = subclasses ++ map class_name ctor) ->
  static_lookup (action_validators (snd (ensureValidatorsCreated ctor st))) chain
  = Some validators.
Proof.
  intros Hdup Hfound Hhierarchy.
  destruct (static_lookup (action_validators st) (map class_name ctor)) eqn:Hctor.
  { unfold ensureValidatorsCreated. by rewrite Hctor. }
  destruct ctor as [|this_ctor supers]; [done|].
  destruct (ensureValidatorsCreated_writes this_ctor supers st Hctor) as (v & ->).
  destruct (decide (class_name this_ctor ∈ chain)) as [Hin|Hout].
  - destruct (Hhierarchy this_ctor supers eq_refl Hin) as (subclasses & ->).
    rewrite static_lookup_app in Hfound. rewrite Hctor in Hfound.
    apply NoDup_app in Hdup as (_ & Hapart & _).
    rewrite static_lookup_app, static_lookup_insert_other.
    + destruct (static_lookup (action_validators st) subclasses); [done|discriminate].
    + intros Hsub. apply (Hapart _ Hsub). simpl. by left.
  - by rewrite static_lookup_insert_other.
Qed.
End Caches.

(** ** More on the application *)

Section Factories.
Context `{Platform}.

Lemma forEachEntry_app before after callback w :
  forEachEntry (before ++ after) callback w
  = (forEachEntry before callback ;; forEachEntry after callback) w.
Proof.
  revert w. induction before as [|[name factory] before IH]; intros w; simpl; [done|].
  rewrite bind_assoc. unfold bind in *.
  destruct (callback name factory w) as [[[]|e] w1]; [apply IH|done].
Qed.

Lemma starts_normally_members entries :
  Forall (fun f => starts_normally (snd f)) entries ->
  Forall (fun x : string * FactoryValue => never_rejects (factory_start (members (snd x))))
    entries.
Proof. intros Hall. eapply Forall_impl; [exact Hall|]. by intros [name [f|v]]. Qed.

(** The calls of a member over the entries of the factories object, up
    to the first that throws. *)
Lemma entries_fail (ev : string -> Event) (hook : ServiceFactory -> Hook unit)
    before name v after e w :
  Forall (fun x : string * FactoryValue => never_rejects (hook (members (snd x))))
    before ->
  always_rejects (hook (members v)) e ->
  exists w1,
    forEachEntry (before ++ (name, v) :: after)
      (fun name factory => emit (ev name) ;; call (hook (members factory))) w
    = (Rejected e, w1)
    /\ trace w1 = trace w ++ map (fun x => ev (fst x)) before ++ [ev name]
    /\ serviceFactories w1 = serviceFactories w
    /\ koa w1 = koa w /\ server w1 = server w /\ ctx w1 = ctx w.
Proof.
  intros Hall He.
  destruct (entries_all ev hook before w Hall) as (w0 & Hw0 & Ht & Hfs & Hk & Hs & Hc & _).
  rewrite forEachEntry_app, (bind_resolved _ _ _ _ _ Hw0). simpl.
  unfold bind at 1. rewrite emit_call.
  pose proof (He (user w0)) as Hnow.
  destruct (hook (members v) (user w0)) as [r u]. simpl in Hnow. subst r.
  eexists. split; [done|]. simpl. rewrite Ht, Hfs, Hk, Hs, Hc.
  by rewrite <- app_assoc.
Qed.

(** Calling a member that a value does not have. *)
Lemma call_member_lacks v expression member u :
  lacks v member = true ->
  call_member v expression member u = (Rejected (member_error v expression member), u).
Proof.
  unfold lacks, call_member, member_error. destruct v as [| | | | | | |props]; try done.
  by destruct (get member props).
Qed.

(** [start] is the start of the factories followed by the start of the
    server. *)
Lemma Application_start_eq app w factories :
  serviceFactories w = Some factories ->
  Application_start app w
  = match forEachEntry factories (fun name factory =>
            emit (FactoryStart name) ;; call (factory_start (members factory))) w with
    | (Resolved _, w1) =>
        match startServer app (koa w1) w1 with
        | Some (Resolved s, w2) => Some (Resolved tt, set_server s w2)
        | Some (Rejected e, w2) => Some (Rejected e, w2)
        | None => None
        end
    | (Rejected e, w1) => Some (Rejected e, w1)
    end.
Proof.
  intros Hfs. unfold Application_start, startServiceFactories, forEachServiceFactory.
  unfold bind at 1, read at 1. rewrite Hfs.
  unfold bind at 1. unfold bind at 1, read at 1. rewrite Hfs.
  by destruct (forEachEntry factories _ w) as [[[]|e] w1].
Qed.

Lemma type_check_entries entries w :
  forEachEntry entries (fun _ factory =>
    match factory with
    | Factory _ => ret tt
    | NotFactory _ => throw type_check_error
    end) w
  = (if forallb (fun x => is_factory (snd x)) entries then Resolved tt
     else Rejected type_check_error, w).
Proof.
  induction entries as [|[name [f|v]] rest IH]; simpl; [done| |done].
  unfold bind, ret. apply IH.
Qed.

(** X11. [typeCheckServiceFactories] does nothing at all when every value
    of the factories object is a [ServiceFactory]; otherwise its only
    effect is one rejection that nobody handles, and which values are at
    fault makes no difference to it. *)
Theorem typeCheck_leaves_one_rejection w factories :
  serviceFactories w = Some factories ->
  typeCheckServiceFactories w
  = (Resolved tt,
     if forallb (fun x => is_factory (snd x)) factories then w
     else add_event (UnhandledRejection type_check_error) w).
Proof.
  intros Hfs. unfold typeCheckServiceFactories, floating, forEachServiceFactory.
  unfold bind at 1, read. rewrite Hfs, type_check_entries.
  by destruct (forallb _ _).
Qed.

(** X12. On a configured application whose factories start and stop
    without throwing, whose port is a legal one, and when the host lets
    the port be bound, [start] starts every factory in the order of the
    factories object and only then listens on [config.port]; [stop] then
    closes the listening server first and stops every factory after, in
    the same order. *)
Theorem start_then_stop app w factories k :
  serviceFactories w = Some factories ->
  koa w = Some k ->
  Forall (fun x => starts_normally (snd x)) factories ->
  Forall (fun x => stops_normally (snd x)) factories ->
  0 <= port (config app) <= 65535 ->
  port_free w ->
  exists w1 w2,
    Application_start app w = Some (Resolved tt, w1)
    /\ server w1 = Some {| listening := true |}
    /\ Application_stop app w1 = (Resolved tt, w2)
    /\ server w2 = Some {| listening := false |}
    /\ trace w2
       = trace w
         ++ map (fun x => FactoryStart (fst x)) factories
         ++ [Listen (port (config app)); Close true]
         ++ map (fun x => FactoryStop (fst x)) factories.
Proof.
  intros Hfs Hk Hstart Hstop [Hlow Hhigh] Hfree.
  destruct (entries_all FactoryStart factory_start factories w
              (starts_normally_members _ Hstart))
    as (wa & Hwa & Hta & Hfsa & Hka & Hsa & _ & Hna).
  assert ((0 <=? port (config app)) && (port (config app) <=? 65535) = true) as Hport.
  { apply andb_true_iff. split; by apply Z.leb_le. }
  assert (exists w1,
            Application_start app w = Some (Resolved tt, w1)
            /\ server w1 = Some {| listening := true |}
            /\ serviceFactories w1 = Some factories
            /\ trace w1 = trace wa ++ [Listen (port (config app))])
    as (w1 & H1 & Hs1 & Hfs1 & Ht1).
  { rewrite (Application_start_eq app w factories Hfs), Hwa.
    unfold startServer, port_free in *. rewrite Hka, Hk, Hport, Hna.
    destruct (network w) as [|[] answers]; [| |done]; eexists; (split; [done|]);
      by rewrite <- Hfs, <- Hfsa. }
  destruct (entries_all FactoryStop factory_stop factories
              (set_server {| listening := false |} (add_event (Close true) w1))
              (stops_normally_members _ Hstop))
    as (wb & Hwb & Htb & _ & _ & Hsb & _).
  exists w1, wb. split; [done|]. split; [done|]. split.
  - unfold Application_stop, bind at 1, read. rewrite Hs1.
    unfold bind at 1, stopServer, bind at 1, emit, write. simpl. rewrite Hs1.
    unfold stopServiceFactories, forEachServiceFactory, bind at 1, read. simpl.
    by rewrite Hfs1.
  - split; [by rewrite Hsb|]. rewrite Htb. simpl. rewrite Ht1, Hta.
    by rewrite <- !app_assoc.
Qed.

(** X13. [start] stops at the first value of the factories object on
    which [factory.start()] throws: a factory whose [start] throws, or a
    value of another kind that has no [start] to call, which throws a
    [TypeError]. It rejects with that error, the factories before it stay
    started, those after it are not started, and no server is created. *)
Theorem start_fails_fast app w before name v after e :
  serviceFactories w = Some (before ++ (name, v) :: after) ->
  Forall (fun x => starts_normally (snd x)) before ->
  start_throws v e ->
  (exists w1,
     Application_start app w = Some (Rejected e, w1)
     /\ server w1 = server w
     /\ trace w1 = trace w ++ map (fun x => FactoryStart (fst x)) before
                   ++ [FactoryStart name])
  /\ (forall data, v = NotFactory data -> lacks data "start" = true ->
        e = member_error data "factory" "start").
Proof.
  intros Hfs Hbefore He. split.
  - destruct (entries_fail FactoryStart factory_start before name v after e w
                (starts_normally_members _ Hbefore) He) as (w1 & Hw1 & Ht & _ & _ & Hs & _).
    exists w1. split; [|done].
    by rewrite (Application_start_eq app w _ Hfs), Hw1.
  - intros data -> Hlacks. specialize (He (user w)). simpl in He.
    unfold completion in He. rewrite (call_member_lacks _ _ _ _ Hlacks) in He.
    by injection He as <-.
Qed.

(** X14. [stop] closes the server before it stops the factories, and
    stops them up to the first value on which [factory.stop()] throws (a
    factory whose [stop] throws, or a value of another kind that has no
    [stop] to call): it then rejects with that error, with the server
    closed and the later factories not stopped. *)
Theorem stop_fails_fast app w s before name v after e :
  server w = Some s ->
  serviceFactories w = Some (before ++ (name, v) :: after) ->
  Forall (fun x => stops_normally (snd x)) before ->
  stop_throws v e ->
  (exists w1,
     Application_stop app w = (Rejected e, w1)
     /\ server w1 = Some {| listening := false |}
     /\ trace w1 = trace w ++ [Close (listening s)]
                   ++ map (fun x => FactoryStop (fst x)) before
                   ++ [FactoryStop name])
  /\ (forall data, v = NotFactory data -> lacks data "stop" = true ->
        e = member_error data "factory" "stop").
Proof.
  intros Hs Hfs Hbefore He. split.
  - destruct (entries_fail FactoryStop factory_stop before name v after e
                (set_server {| listening := false |} (add_event (Close (listening s)) w))
                (stops_normally_members _ Hbefore) He)
      as (w1 & Hw1 & Ht & _ & _ & Hs1 & _).
    exists w1. split; [|split; [by rewrite Hs1|]].
    + unfold Application_stop, bind at 1, read. rewrite Hs.
      unfold bind at 1, stopServer, bind at 1, emit, write. simpl. rewrite Hs.
      unfold stopServiceFactories, forEachServiceFactory, bind at 1, read. simpl.
      by rewrite Hfs.
    + rewrite Ht. simpl. by rewrite <- !app_assoc.
  - intros data -> Hlacks. specialize (He (user w)). simpl in He.
    unfold completion in He. rewrite (call_member_lacks _ _ _ _ Hlacks) in He.
    by injection He as <-.
Qed.

(** X15. When [configure] set the factories but failed later (so that
    there is no koa application), [start] does not refuse: it starts every
    factory and only then rejects, with the [TypeError] of reading
    [callback] on [undefined], and creates no server. *)
Theorem start_after_failed_configure app w factories :
  serviceFactories w = Some factories ->
  koa w = None ->
  Forall (fun x => starts_normally (snd x)) factories ->
  exists w1,
    Application_start app w = Some (Rejected undefined_koa, w1)
    /\ server w1 = server w
    /\ trace w1 = trace w ++ map (fun x => FactoryStart (fst x)) factories.
Proof.
  intros Hfs Hk Hstart.
  destruct (entries_all FactoryStart factory_start factories w
              (starts_normally_members _ Hstart))
    as (wa & Hwa & Hta & _ & Hka & Hsa & _).
  exists wa. split; [|done].
  rewrite (Application_start_eq app w factories Hfs), Hwa.
  unfold startServer. by rewrite Hka, Hk.
Qed.

(** X27. When the factories started, [start] has still to bind the port.
    On a port outside [0, 65535] it rejects with the [RangeError] of
    [listen]; when the host does not let the port be bound, its promise
    never settles. When it rejects, every factory was started and no
    server is stored: [start] does not undo what it did. *)
Theorem start_without_server app w factories k :
  serviceFactories w = Some factories ->
  koa w = Some k ->
  Forall (fun x => starts_normally (snd x)) factories ->
  (~ 0 <= port (config app) <= 65535 ->
     exists w1,
       Application_start app w = Some (Rejected (bad_port (port (config app))), w1)
       /\ server w1 = server w
       /\ trace w1 = trace w ++ map (fun x => FactoryStart (fst x)) factories)
  /\ (0 <= port (config app) <= 65535 -> ~ port_free w ->
      Application_start app w = None).
Proof.
  intros Hfs Hk Hstart.
  destruct (entries_all FactoryStart factory_start factories w
              (starts_normally_members _ Hstart))
    as (wa & Hwa & Hta & _ & Hka & Hsa & _ & Hna).
  rewrite (Application_start_eq app w factories Hfs), Hwa.
  unfold startServer, port_free. rewrite Hka, Hk, Hna. split.
  - intros Hport.
    assert ((0 <=? port (config app)) && (port (config app) <=? 65535) = false) as ->.
    { apply andb_false_iff.
      destruct (Z.leb_spec 0 (port (config app))); [|by left].
      destruct (Z.leb_spec (port (config app)) 65535); [|by right]. lia. }
    by exists wa.
  - intros [Hlow Hhigh] Hbusy.
    assert ((0 <=? port (config app)) && (port (config app) <=? 65535) = true) as ->.
    { apply andb_true_iff. split; by apply Z.leb_le. }
    by destruct (network w) as [|[] answers].
Qed.

(** X16. [stop] on an application that was never configured rejects with
    the [TypeError] of [Object.entries(undefined)], after closing the
    server if there is one. *)
Theorem stop_unconfigured app w :
  serviceFactories w = None ->
  exists w1,
    Application_stop app w = (Rejected undefined_entries, w1)
    /\ trace w1 = trace w ++ match server w with
                             | Some s => [Close (listening s)]
                             | None => []
                             end.
Proof.
  intros Hfs. unfold Application_stop, bind at 1, read.
  destruct (server w) as [s|] eqn:Hs.
  - unfold bind at 1, stopServer, bind at 1, emit, write. simpl. rewrite Hs.
    unfold stopServiceFactories, forEachServiceFactory, bind at 1, read. simpl.
    rewrite Hfs. by eexists.
  - unfold bind at 1, ret.
    unfold stopServiceFactories, forEachServiceFactory, bind at 1, read.
    rewrite Hfs. exists w. by rewrite app_nil_r.
Qed.

Lemma keeps_floating {A B} (f : World -> B) (m : M A) :
  untouched f -> keeps f m -> keeps f (floating m).
Proof.
  intros [He _] Hm w. unfold floating. specialize (Hm w).
  destruct (m w) as [[a|e] w1]; simpl in *; [done|]. by rewrite He.
Qed.

Lemma keeps_forEachServiceFactory {B} (f : World -> B) callback :
  (forall name factory, keeps f (callback name factory)) ->
  keeps f (forEachServiceFactory callback).
Proof.
  intros Hc. unfold forEachServiceFactory.
  apply keeps_bind; [apply keeps_read|]. intros [entries|]; [|apply keeps_throw].
  induction entries as [|[name factory] rest IH]; simpl; [apply keeps_ret|].
  apply keeps_bind; auto.
Qed.

Lemma untouched_koa : untouched koa.
Proof. by split. Qed.

(** X17. [configure] sets [koa] last: when it rejects, at whatever step,
    there is no new koa application; when it resolves, the factories and
    the koa application are both set. *)
Theorem configure_sets_koa_last app w outcome w1 :
  configure app w = (outcome, w1) ->
  match outcome with
  | Rejected _ => koa w1 = koa w
  | Resolved _ => is_Some (serviceFactories w1) /\ is_Some (koa w1)
  end.
Proof.
  unfold configure.
  set (step1 := emit CreateServiceFactories ;; call (createServiceFactories app)).
  set (step3 := emit RegisterRoutes ;; call (registerRoutes app)).
  assert (keeps koa step1) as K1.
  { apply keeps_bind; [apply keeps_emit, untouched_koa|].
    intros _. apply keeps_call, untouched_koa. }
  assert (keeps koa typeCheckServiceFactories) as K2.
  { apply keeps_floating; [apply untouched_koa|].
    apply keeps_forEachServiceFactory. intros name [f|v]; [apply keeps_ret|apply keeps_throw]. }
  assert (keeps koa step3) as K3.
  { apply keeps_bind; [apply keeps_emit, untouched_koa|].
    intros _. apply keeps_call, untouched_koa. }
  assert (keeps koa (createKoa app)) as K4.
  { unfold createKoa.
    repeat (apply keeps_bind; [apply keeps_call, untouched_koa|intros ?]).
    apply keeps_call, untouched_koa. }
  assert (keeps serviceFactories typeCheckServiceFactories) as F2.
  { apply keeps_floating; [apply untouched_serviceFactories|].
    apply keeps_forEachServiceFactory. intros name [f|v]; [apply keeps_ret|apply keeps_throw]. }
  assert (keeps serviceFactories step3) as F3.
  { apply keeps_bind; [apply keeps_emit, untouched_serviceFactories|].
    intros _. apply keeps_call, untouched_serviceFactories. }
  assert (keeps serviceFactories (createKoa app)) as F4.
  { unfold createKoa.
    repeat (apply keeps_bind; [apply keeps_call, untouched_serviceFactories|intros ?]).
    apply keeps_call, untouched_serviceFactories. }
  intros Hrun.
  apply bind_inv in Hrun as [(factories & wa & Ha & Hrun)|(e & Ha & ->)];
    [|by rewrite <- (K1 w), Ha].
  pose proof (K1 w) as Hka. rewrite Ha in Hka. simpl in Hka.
  unfold bind at 1, write at 1 in Hrun.
  set (wb := set_serviceFactories factories wa) in Hrun.
  assert (koa wb = koa w) as Hkb by exact Hka.
  pose proof (K2 wb) as Hkc. pose proof (F2 wb) as Hfc.
  apply bind_inv in Hrun as [([] & wc & Hc & Hrun)|(e & Hc & ->)];
    rewrite Hc in Hkc; simpl in Hkc; [|by rewrite Hkc].
  rewrite Hc in Hfc. simpl in Hfc.
  pose proof (K3 wc) as Hkd. pose proof (F3 wc) as Hfd.
  apply bind_inv in Hrun as [([] & wd & Hd & Hrun)|(e & Hd & ->)];
    rewrite Hd in Hkd; simpl in Hkd; [|by rewrite Hkd, Hkc].
  rewrite Hd in Hfd. simpl in Hfd.
  pose proof (K4 wd) as Hke. pose proof (F4 wd) as Hfe.
  apply bind_inv in Hrun as [(k & we & He & Hrun)|(e & He & ->)];
    rewrite He in Hke; simpl in Hke; [|by rewrite Hke, Hkd, Hkc].
  rewrite He in Hfe. simpl in Hfe.
  unfold write in Hrun. inversion Hrun; subst. simpl.
  rewrite Hfe, Hfd, Hfc. split; by eexists.
Qed.
End Factories.

(** ** More on the request *)

Section Requests.
Context `{Platform}.

Lemma emits_run_try P a method path :
  (forall name, P (ServiceStart name)) ->
  (forall message data, P (Log message data)) ->
  (forall c, P (Validate c)) ->
  P ParseInput -> (forall i, P (BeforeHandle i)) -> (forall i, P (Handle i)) ->
  (forall i o, P (AfterHandle i o)) ->
  forall w, exists events,
    trace (snd (run_try a method path w)) = trace w ++ events /\ Forall P events.
Proof.
  intros HS HL HV HP HB HH HA w. rewrite run_try_stages.
  revert w. apply emits_bind; [by apply emits_run_validate|].
  intros [result|]; [apply emits_ret|].
  apply emits_bind; [by apply emits_run_output|]. intros output. apply emits_run_check.
Qed.

(** The [finally] block up to the call of [afterStopServices]. *)
Lemma run_finally_until_after result t0 a w :
  sendable result ->
  never_rejects (beforeStopServices a) ->
  (forall name service, In (name, service) (services a) -> never_rejects (stop service)) ->
  exists ws,
    run_finally (Some result) t0 a w
    = (emit AfterStopServices ;; call (afterStopServices a)) ws
    /\ exists t, trace ws = trace w
         ++ [Log "request ended" (RequestEnded (status result) t); BeforeStopServices]
         ++ map (fun s => ServiceStop (fst s)) (services a).
Proof.
  intros Hsend Hbefore Hstop. unfold run_finally.
  destruct (handleResult_quiet result w Hsend) as (wa & Hwa & Hta & Hua).
  rewrite (bind_resolved _ _ _ _ _ Hwa).
  unfold bind at 1, read at 1, log. unfold bind at 1. unfold emit at 1.
  unfold bind at 1. rewrite emit_call. simpl.
  pose proof (Hbefore (user wa)) as Hnow.
  destruct (beforeStopServices a (user wa)) as [[[]|e] u]; [|done].
  match goal with
  | |- context [bind (stopServiceInstances _) _ ?w0] =>
      destruct (stopServiceInstances_trace (services a) w0 Hstop) as (ws & Hs & Hts);
      rewrite (bind_resolved _ _ _ _ _ Hs)
  end.
  exists ws. split; [done|]. eexists. rewrite Hts. simpl. rewrite Hta.
  by rewrite <- !app_assoc.
Qed.

(** X18. No error of a request escapes [run] unless the cleanup throws:
    when [beforeStopServices], the [stop] of every service and
    [afterStopServices] complete, [run] resolves, whatever the services,
    the validators, [parseInput], [beforeHandle], [handle] and
    [afterHandle] do, and the response is the one koa makes of the result
    of the [try] block or, when it threw, of what [handleError] makes of
    the error: the status and the body of the result, but the status 204
    when the body is [null] or [undefined]. *)
Theorem run_maps_every_error a w :
  never_rejects (beforeStopServices a) ->
  (forall name service, In (name, service) (services a) -> never_rejects (stop service)) ->
  never_rejects (afterStopServices a) ->
  fst (run a w) = Resolved tt
  /\ exists result w1,
       response (after_run a w)
       = (if nullish (body result) then 204 else status result, body result)
       /\ (run_try a (request_method w) (request_path w) w = (Resolved result, w1)
           \/ exists error w0,
                run_try a (request_method w) (request_path w) w = (Rejected error, w0)
                /\ handleError error w0 = (Resolved result, w1)).
Proof.
  intros Hbefore Hstop Hafter. split; [|apply response_of_run].
  destruct (run_reaches_finally a w) as (result & wf & -> & Hcases).
  destruct (run_finally_until_after result (now (user w)) a wf
              (run_result_sendable _ _ _ _ Hcases) Hbefore Hstop)
    as (ws & -> & _).
  rewrite emit_call. pose proof (Hafter (user ws)) as Hnow.
  by destruct (afterStopServices a (user ws)) as [[[]|e] u].
Qed.

Lemma startServiceInstances_rejected services w e w1 :
  startServiceInstances services w = (Rejected e, w1) ->
  exists before name service after,
    services = before ++ (name, service) :: after
    /\ trace w1 = trace w
         ++ map (fun s => ServiceStart (fst s)) (before ++ [(name, service)]).
Proof.
  revert w. induction services as [|[name service] rest IH]; intros w; [done|].
  unfold startServiceInstances. simpl. fold (startServiceInstances rest).
  unfold bind at 1. rewrite emit_call.
  destruct (start service (user w)) as [[[]|e'] u].
  - intros Hrest. destruct (IH _ Hrest) as (before & n & s & after & -> & Ht).
    exists ((name, service) :: before), n, s, after. split; [done|].
    rewrite Ht. simpl. by rewrite <- app_assoc.
  - intros [= <- <-]. exists [], name, service, rest. by split.
Qed.

(** X19. When the [start] of a service throws, the services after it in
    the services object are not started, no validator and none of
    [parseInput], [beforeHandle], [handle], [afterHandle] runs, and the
    response is what [handleError] makes of the error; the cleanup still
    runs: [stop] is called on every service of the request, those that
    were never started included. *)
Theorem start_failure_still_stops_all a w e w1 :
  startServiceInstances (services a) w = (Rejected e, w1) ->
  never_rejects (beforeStopServices a) ->
  (forall name service, In (name, service) (services a) -> never_rejects (stop service)) ->
  (exists before name service after,
     services a = before ++ (name, service) :: after
     /\ lifecycle (trace (after_run a w))
        = lifecycle (trace w)
          ++ map (fun s => ServiceStart (fst s)) (before ++ [(name, service)])
          ++ [BeforeStopServices]
          ++ map (fun s => ServiceStop (fst s)) (services a)
          ++ [AfterStopServices])
  /\ List.filter is_work (trace (after_run a w)) = List.filter is_work (trace w)
  /\ exists result w2,
       handleError e w1 = (Resolved result, w2)
       /\ response (after_run a w) = (status result, body result).
Proof.
  intros Hstart Hbefore Hstop.
  assert (run_try a (request_method w) (request_path w) w = (Rejected e, w1)) as Htry.
  { unfold run_try. by rewrite (bind_rejected _ _ _ _ _ Hstart). }
  destruct (startServiceInstances_rejected _ _ _ _ Hstart)
    as (before & name & service & after & Hservices & Ht1).
  destruct (handleError_resolves e w1) as (result & w2 & Hh).
  split; [|split].
  - exists before, name, service, after. split; [done|].
    destruct (run_reaches_finally a w) as (result' & wf & Hrun & [Hc|(e' & w0 & Hc & Hh')]);
      rewrite Htry in Hc; [done|]. inversion Hc; subst e' w0.
    unfold after_run.
    rewrite Hrun, (run_finally_lifecycle _ _ _ _
                     (run_result_sendable _ _ _ _
                        (or_intror (ex_intro _ e (ex_intro _ w1 (conj Htry Hh')))))
                     Hbefore Hstop).
    pose proof (emits_filter is_lifecycle (handleError e) w1) as Hquiet.
    rewrite Hh' in Hquiet. simpl in Hquiet. unfold lifecycle at 1.
    rewrite Hquiet; [|by apply emits_handleError].
    rewrite Ht1, List.filter_app.
    fold (lifecycle (map (fun s : string * Service => ServiceStart (fst s))
                       (before ++ [(name, service)]))).
    rewrite lifecycle_starts. unfold lifecycle. by rewrite <- !app_assoc.
  - destruct (emits_after_try (fun ev => is_work ev = false) a w (Rejected e) w1)
      as (events & -> & HP); [done..|].
    rewrite List.filter_app, (filter_none _ _ HP), app_nil_r.
    pose proof (emits_filter is_work (startServiceInstances (services a)) w) as Hquiet.
    rewrite Hstart in Hquiet. apply Hquiet. by apply emits_startServiceInstances.
  - exists result, w2. split; [done|]. by apply (response_rejected a w e w1 result w2).
Qed.

Lemma forEachService_app before after callback w :
  forEachService (before ++ after) callback w
  = (forEachService before callback ;; forEachService after callback) w.
Proof.
  revert w. induction before as [|[name service] before IH]; intros w; simpl; [done|].
  rewrite bind_assoc. unfold bind in *.
  destruct (callback name service w) as [[[]|e] w1]; [apply IH|done].
Qed.

Lemma stopServiceInstances_rejected before name service after e w :
  (forall n s, In (n, s) before -> never_rejects (stop s)) ->
  always_rejects (stop service) e ->
  exists w1,
    stopServiceInstances (before ++ (name, service) :: after) w = (Rejected e, w1)
    /\ trace w1 = trace w
         ++ map (fun s => ServiceStop (fst s)) (before ++ [(name, service)]).
Proof.
  intros Hbefore He.
  destruct (stopServiceInstances_trace before w Hbefore) as (w0 & Hw0 & Ht).
  unfold stopServiceInstances in *.
  rewrite forEachService_app, (bind_resolved _ _ _ _ _ Hw0). simpl.
  unfold bind at 1. rewrite emit_call.
  pose proof (He (user w0)) as Hnow.
  destruct (stop service (user w0)) as [r u]. simpl in Hnow. subst r.
  eexists. split; [done|]. simpl. rewrite Ht, map_app. simpl.
  by rewrite <- app_assoc.
Qed.

Lemma cleanup_stops services :
  List.filter is_cleanup (map (fun s : string * Service => ServiceStop (fst s)) services)
  = map (fun s => ServiceStop (fst s)) services.
Proof. induction services as [|s rest IH]; simpl; [done|]. by rewrite IH. Qed.

(** X20. When the [stop] of a service throws in the cleanup, [run]
    rejects with that error: the services after it are not stopped and
    [afterStopServices] is not called, while the response, written
    before the cleanup, stays the one koa makes of the result of the
    request (its status and body, but the status 204 when the body is
    [null] or [undefined]). *)
Theorem stop_failure_rejects_run a w before name service after e :
  services a = before ++ (name, service) :: after ->
  (forall n s, In (n, s) before -> never_rejects (stop s)) ->
  always_rejects (stop service) e ->
  never_rejects (beforeStopServices a) ->
  fst (run a w) = Rejected e
  /\ List.filter is_cleanup (trace (after_run a w))
     = List.filter is_cleanup (trace w)
       ++ map (fun s => ServiceStop (fst s)) (before ++ [(name, service)])
  /\ exists result w1,
       response (after_run a w)
       = (if nullish (body result) then 204 else status result, body result)
       /\ (run_try a (request_method w) (request_path w) w = (Resolved result, w1)
           \/ exists error w0,
                run_try a (request_method w) (request_path w) w = (Rejected error, w0)
                /\ handleError error w0 = (Resolved result, w1)).
Proof.
  intros Hservices Hbefore He Hhook.
  assert (forall result wf,
            sendable result ->
            exists wz,
              run_finally (Some result) (now (user w)) a wf = (Rejected e, wz)
              /\ List.filter is_cleanup (trace wz)
                 = List.filter is_cleanup (trace wf)
                   ++ map (fun s => ServiceStop (fst s)) (before ++ [(name, service)]))
    as Hfinally.
  { intros result wf Hsend. unfold run_finally.
    destruct (handleResult_quiet result wf Hsend) as (wa & Hwa & Hta & _).
    rewrite (bind_resolved _ _ _ _ _ Hwa).
    unfold bind at 1, read at 1, log. unfold bind at 1. unfold emit at 1.
    unfold bind at 1. rewrite emit_call. simpl.
    pose proof (Hhook (user wa)) as Hnow.
    destruct (beforeStopServices a (user wa)) as [[[]|e'] u]; [|done].
    rewrite Hservices.
    match goal with
    | |- context [bind (stopServiceInstances _) _ ?w0] =>
        destruct (stopServiceInstances_rejected before name service after e w0 Hbefore He)
          as (wz & Hz & Htz);
        rewrite (bind_rejected _ _ _ _ _ Hz)
    end.
    exists wz. split; [done|]. rewrite Htz. simpl. rewrite Hta.
    rewrite !List.filter_app. simpl. by rewrite !app_nil_r, cleanup_stops. }
  destruct (run_reaches_finally a w) as (result & wf & Hrun & Hcases).
  destruct (Hfinally result wf (run_result_sendable _ _ _ _ Hcases)) as (wz & Hz & Htz).
  split; [by rewrite Hrun, Hz|]. split; [|apply response_of_run].
  unfold after_run. rewrite Hrun, Hz. simpl. rewrite Htz. f_equal.
  assert (forall r w0,
            run_try a (request_method w) (request_path w) w = (r, w0) ->
            List.filter is_cleanup (trace w0) = List.filter is_cleanup (trace w)) as Htry.
  { intros r w0 Hr.
    destruct (emits_run_try (fun ev => is_cleanup ev = false) a (request_method w)
                (request_path w)) with (w := w) as (events & Ht & HP); try done.
    rewrite Hr in Ht. simpl in Ht.
    by rewrite Ht, List.filter_app, (filter_none _ _ HP), app_nil_r. }
  destruct Hcases as [Hc|(error & w0 & Hc & Hh)].
  - by apply (Htry _ _ Hc).
  - rewrite <- (Htry _ _ Hc).
    pose proof (emits_filter is_cleanup (handleError error) w0) as Hquiet.
    rewrite Hh in Hquiet. apply Hquiet. by apply emits_handleError.
Qed.

Lemma validate_in_order_resolves stages w :
  exists result w', validate_in_order stages w = (Resolved result, w').
Proof.
  revert w. induction stages as [|v rest IH]; intros w; simpl; [by eexists _, _|].
  unfold bind. rewrite Validator_validate_eq. destruct (valid _); [apply IH|].
  by eexists _, _.
Qed.

(** X21. For an action whose class has validators, [validate] never
    throws; it runs the validators the class has for body, params and
    query, in that order, up to the first that fails, and what it returns
    then has status 400 and a body [{error: "Validation", errors}]. *)
Theorem validate_checks_in_order a w validators :
  validators_of a w = Some validators ->
  validate a w = validate_in_order (declared_stages validators) w
  /\ (exists result w', validate a w = (Resolved result, w'))
  /\ (forall failure w',
        validate a w = (Resolved (Some failure), w') ->
        status failure = 400
        /\ exists errors, body failure
             = VObject [("error", VString "Validation"); ("errors", errors)]).
Proof.
  intros Hv. split; [by apply validate_in_declared_order|]. split.
  - rewrite (validate_in_declared_order _ _ _ Hv). apply validate_in_order_resolves.
  - apply validate_failure.
Qed.

(** X22. When validation fails, the response has status 400 and the body
    [{error: "Validation", errors}] of the failed validator, and none of
    [parseInput], [beforeHandle], [handle], [afterHandle] is called. *)
Theorem failed_validation_response a w failure w1 :
  run_validate a (request_method w) (request_path w) w = (Resolved (Some failure), w1) ->
  (exists errors,
     response (after_run a w)
     = (400, VObject [("error", VString "Validation"); ("errors", errors)]))
  /\ List.filter is_pipeline_call (trace (after_run a w))
     = List.filter is_pipeline_call (trace w).
Proof.
  intros Hv. destruct (validation_failure_response a w failure w1 Hv) as [Hr Hp].
  split; [|done].
  assert (status failure = 400
          /\ exists errors, body failure
               = VObject [("error", VString "Validation"); ("errors", errors)])
    as [Hs (errors & Hb)].
  { unfold run_validate in Hv.
    apply bind_inv in Hv as [([] & wa & _ & Hv)|(e & _ & [=])].
    apply bind_inv in Hv as [([] & wb & _ & Hv)|(e & _ & [=])].
    by apply (validate_failure a wb failure w1). }
  exists errors. by rewrite Hr, Hs, Hb.
Qed.

(** X23. When [handle] throws, [afterHandle] is not called and the
    response is what [handleError] makes of the error: for an instance of
    [NotFoundError], status 404 and [{error: "NotFound"}]. *)
Theorem thrown_by_handle_is_mapped a w w1 input w2 e w3 :
  run_validate a (request_method w) (request_path w) w = (Resolved None, w1) ->
  run_input a w1 = (Resolved input, w2) ->
  run_handle a input w2 = (Rejected e, w3) ->
  (exists result w4,
     handleError e w3 = (Resolved result, w4)
     /\ response (after_run a w) = (status result, body result))
  /\ (instanceof e NotFoundError = true ->
      response (after_run a w) = (404, VObject [("error", VString "NotFound")]))
  /\ List.filter (fun ev => match ev with AfterHandle _ _ => true | _ => false end)
       (trace (after_run a w))
     = List.filter (fun ev => match ev with AfterHandle _ _ => true | _ => false end)
         (trace w).
Proof.
  intros Hv Hi Hh.
  assert (run_try a (request_method w) (request_path w) w = (Rejected e, w3)) as Htry.
  { rewrite run_try_stages, (bind_resolved _ _ _ _ _ Hv). unfold run_output.
    rewrite bind_assoc, (bind_resolved _ _ _ _ _ Hi).
    rewrite bind_assoc. by rewrite (bind_rejected _ _ _ _ _ Hh). }
  destruct (handleError_resolves e w3) as (result & w4 & Hmap).
  split; [|split].
  - exists result, w4. split; [done|]. by apply (response_rejected a w e w3 result w4).
  - intros Hk.
    apply (response_rejected a w e w3
             {| status := 404; body := VObject [("error", VString "NotFound")] |}
             w3 Htry).
    unfold handleError. by rewrite Hk.
  - set (keep := fun ev => match ev with AfterHandle _ _ => true | _ => false end).
    destruct (emits_after_try (fun ev => keep ev = false) a w (Rejected e) w3)
      as (events & -> & HP); [done..|].
    rewrite List.filter_app, (filter_none _ _ HP), app_nil_r.
    pose proof (emits_filter keep (run_validate a (request_method w) (request_path w)) w)
      as Hq1.
    rewrite Hv in Hq1. simpl in Hq1. rewrite <- Hq1; [|by apply emits_run_validate].
    assert (emits (fun ev => keep ev = false) (run_input a)) as Hin.
    { unfold run_input.
      repeat first [ apply emits_bind; [|intros ?] | apply emits_read | apply emits_call
                   | by apply emits_emit ]. }
    pose proof (emits_filter keep (run_input a) w1 Hin) as Hq2.
    rewrite Hi in Hq2. simpl in Hq2. rewrite <- Hq2.
    assert (emits (fun ev => keep ev = false) (run_handle a input)) as Hhandle.
    { unfold run_handle. apply emits_bind; [by apply emits_emit|]. intros _.
      apply emits_call. }
    pose proof (emits_filter keep (run_handle a input) w2 Hhandle) as Hq3.
    by rewrite Hh in Hq3.
Qed.
End Requests.

(** ** The handler of a route *)

Section Handlers.
Context `{Platform}.

Lemma assign_fresh name service services :
  name ∉ map fst services -> assign name service services = services ++ [(name, service)].
Proof.
  induction services as [|[k s] rest IH]; simpl; [done|].
  intros Hfresh. apply not_elem_of_cons in Hfresh as [Hk Hrest].
  destruct (String.eqb_spec k name) as [->|_]; [done|]. by rewrite IH.
Qed.

Lemma create_all (P : Service -> Prop) entries services w :
  Forall (fun x : string * FactoryValue =>
            match snd x with
                   | Factory f =>
                       forall u, match fst (createService f u) with
                                 | Resolved service => P service
                                 | Rejected _ => False
                                 end
                   | NotFactory _ => False
                   end) entries ->
  NoDup (map fst services ++ map fst entries) ->
  Forall (fun x : string * Service => P (snd x)) services ->
  exists created w1,
    createServiceInstancesForContext entries services w = (Resolved created, w1)
    /\ map fst created = map fst services ++ map fst entries
    /\ Forall (fun x : string * Service => P (snd x)) created
    /\ trace w1 = trace w /\ ctx w1 = ctx w /\ statics w1 = statics w.
Proof.
  intros Hall. revert services w.
  induction Hall as [|[name [f|v]] rest Hf _ IH]; intros services w Hdup Hquiet;
    simpl in *; [|..|done].
  { exists services, w. by rewrite app_nil_r. }
  unfold bind, call. pose proof (Hf (user w)) as Hnow.
  destruct (createService f (user w)) as [[service|e] u]; simpl in Hnow; [|done].
  assert (name ∉ map fst services) as Hfresh.
  { apply NoDup_app in Hdup as (_ & Hapart & _). intros Hin.
    apply (Hapart _ Hin). by left. }
  rewrite (assign_fresh _ _ _ Hfresh).
  destruct (IH (services ++ [(name, service)]) (set_user u w))
    as (created & w1 & -> & Hkeys & Hq & Ht & Hc & Hs).
  - rewrite map_app. simpl. by rewrite <- app_assoc.
  - apply Forall_app. split; [done|]. by constructor.
  - exists created, w1. split; [done|]. rewrite Hkeys, map_app. simpl.
    by rewrite <- app_assoc.
Qed.

Lemma creates_normally_any entries :
  Forall (fun x => creates_normally (snd x)) entries ->
  Forall (fun x : string * FactoryValue =>
            match snd x with
                   | Factory f =>
                       forall u, match fst (createService f u) with
                                 | Resolved service => True
                                 | Rejected _ => False
                                 end
                   | NotFactory _ => False
                   end) entries.
Proof.
  intros Hall. eapply Forall_impl; [exact Hall|].
  intros [name [f|v]] Hc; simpl in *; [|done].
  intros u. specialize (Hc u). by destruct (fst (createService f u)).
Qed.

(** X24. For factories with distinct keys that are all factories, and
    whose [createService] completes, [createServiceInstances] resolves to
    a services object with exactly the keys of the factories object, in
    its order: one service for each factory. It starts no service and
    writes nothing to the log or to the response. *)
Theorem createServiceInstances_one_per_factory type w factories :
  serviceFactories w = Some factories ->
  NoDup (map fst factories) ->
  Forall (fun x => creates_normally (snd x)) factories ->
  exists services w1,
    createServiceInstances type w = (Resolved services, w1)
    /\ map fst services = map fst factories
    /\ trace w1 = trace w /\ ctx w1 = ctx w.
Proof.
  intros Hfs Hdup Hall.
  destruct (create_all (fun _ => True) factories [] w (creates_normally_any _ Hall) Hdup)
    as (created & w1 & Hc & Hk & _ & Ht & Hx & _); [done|].
  exists created, w1. split; [|done].
  unfold createServiceInstances, bind, read. by rewrite Hfs.
Qed.

Lemma create_keeps {B} (f : World -> B) entries services w :
  (forall u w0, f (set_user u w0) = f w0) ->
  f (snd (createServiceInstancesForContext entries services w)) = f w.
Proof.
  intros Hf. revert services w.
  induction entries as [|[name v] rest IH]; intros services w; simpl; [done|].
  unfold bind, call.
  destruct (createService (members v) (user w)) as [[service|e] u]; simpl.
  - by rewrite IH, Hf.
  - apply Hf.
Qed.

Lemma create_fail before name v after e services w :
  Forall (fun x => creates_normally (snd x)) before ->
  create_throws v e ->
  exists w1,
    createServiceInstancesForContext (before ++ (name, v) :: after) services w
    = (Rejected e, w1).
Proof.
  intros Hall He. revert services w.
  induction Hall as [|[n [f|v']] rest Hf _ IH]; intros services w; simpl in *; [|..|done].
  - unfold bind, call. pose proof (He (user w)) as Hnow.
    destruct (createService (members v) (user w)) as [r u]. simpl in Hnow. subst r.
    by eexists.
  - unfold bind at 1, call. pose proof (Hf (user w)) as Hnow.
    destruct (createService f (user w)) as [[service|e'] u]; simpl in Hnow; [|done].
    apply IH.
Qed.

(** X25. When [factory.createService(...)] throws on a value of the
    factories object -- a factory whose [createService] throws, or a value
    of another kind that has no [createService] to call, which throws a
    [TypeError] -- the handler rejects with that error before an action
    exists: no service is started or stopped, nothing is logged, no static
    member is written, and the response is not touched. *)
Theorem createHandler_fails_before_run cls w before name v after e :
  serviceFactories w = Some (before ++ (name, v) :: after) ->
  Forall (fun x => creates_normally (snd x)) before ->
  create_throws v e ->
  (exists w1,
     createHandler cls w = (Rejected e, w1)
     /\ trace w1 = trace w /\ ctx w1 = ctx w /\ statics w1 = statics w)
  /\ (forall data, v = NotFactory data -> lacks data "createService" = true ->
        e = member_error data "factory" "createService").
Proof.
  intros Hfs Hbefore He. split.
  - destruct (create_fail before name v after e [] w Hbefore He) as (w1 & Hw1).
    assert (createServiceInstances "action" w = (Rejected e, w1)) as Hcreate.
    { unfold createServiceInstances, bind, read. by rewrite Hfs. }
    exists w1. split; [|split; [|split]].
    + unfold createHandler. by rewrite (bind_rejected _ _ _ _ _ Hcreate).
    + pose proof (create_keeps trace (before ++ (name, v) :: after) [] w) as Hk.
      rewrite Hw1 in Hk. by apply Hk.
    + pose proof (create_keeps ctx (before ++ (name, v) :: after) [] w) as Hk.
      rewrite Hw1 in Hk. by apply Hk.
    + pose proof (create_keeps statics (before ++ (name, v) :: after) [] w) as Hk.
      rewrite Hw1 in Hk. by apply Hk.
  - intros data -> Hlacks. specialize (He (user w)). simpl in He.
    rewrite (call_member_lacks _ _ _ _ Hlacks) in He. by injection He as <-.
Qed.

Lemma startServiceInstances_resolves services w :
  Forall (fun x : string * Service => never_rejects (start (snd x))) services ->
  exists w1, startServiceInstances services w = (Resolved tt, w1).
Proof.
  intros Hall. revert w.
  induction Hall as [|[name service] rest Hs _ IH]; intros w; [by eexists|].
  unfold startServiceInstances. simpl. fold (startServiceInstances rest).
  unfold bind at 1. rewrite emit_call. simpl in Hs. pose proof (Hs (user w)) as Hnow.
  destruct (start service (user w)) as [[[]|e] u]; [|done]. apply IH.
Qed.

(** The life cycle of the services in a request that starts them all and
    whose cleanup does not throw. *)
Lemma run_lifecycle a w w1 :
  startServiceInstances (services a) w = (Resolved tt, w1) ->
  never_rejects (beforeStopServices a) ->
  (forall name service, In (name, service) (services a) -> never_rejects (stop service)) ->
  lifecycle (trace (after_run a w)) = lifecycle (trace w) ++ full_lifecycle a.
Proof.
  intros Hstart Hbefore Hstop.
  destruct (run_reaches_finally a w) as (result & wf & Hrun & Hcases).
  unfold after_run.
  rewrite Hrun, (run_finally_lifecycle _ _ _ _ (run_result_sendable _ _ _ _ Hcases)
                   Hbefore Hstop).
  assert (lifecycle (trace wf) = lifecycle (trace w1)) as ->.
  { pose proof (run_try_after_start a (request_method w) (request_path w) w w1 Hstart)
      as Htry.
    destruct Hcases as [Hc|(error & w0 & Hc & Hh)]; rewrite Hc in Htry; simpl in Htry.
    - done.
    - rewrite <- Htry.
      pose proof (emits_filter is_lifecycle (handleError error) w0) as Hquiet.
      rewrite Hh in Hquiet. apply Hquiet. by apply emits_handleError. }
  rewrite (startServiceInstances_trace _ _ _ Hstart).
  unfold lifecycle at 1. rewrite List.filter_app.
  fold (lifecycle (map (fun s : string * Service => ServiceStart (fst s)) (services a))).
  rewrite lifecycle_starts. unfold full_lifecycle, lifecycle.
  by rewrite <- !app_assoc.
Qed.

(** X26. For factories with distinct keys, each creating a service whose
    [start] and [stop] complete, an action class whose constructor does
    not throw (its validators exist, or the compiler accepts its schemas)
    and whose [beforeStopServices] completes, one request through the
    handler starts one service for each factory, once, in the order of
    the factories object, and after [beforeStopServices] stops each of
    them, once, in the same order, before [afterStopServices] -- whatever
    the validators, [parseInput], [handle] and the other hooks do. *)
Theorem createHandler_lifecycle cls w factories :
  serviceFactories w = Some factories ->
  NoDup (map fst factories) ->
  Forall (fun x => creates_quiet_services (snd x)) factories ->
  never_rejects (beforeStopServices cls) ->
  fst (ensureValidatorsCreated (ctor cls) (statics w)) = Resolved tt ->
  lifecycle (trace (snd (createHandler cls w)))
  = lifecycle (trace w)
    ++ map (fun x => ServiceStart (fst x)) factories
    ++ [BeforeStopServices]
    ++ map (fun x => ServiceStop (fst x)) factories
    ++ [AfterStopServices].
Proof.
  intros Hfs Hdup Hall Hbefore Hnew.
  destruct (create_all
              (fun service => never_rejects (start service) /\ never_rejects (stop service))
              factories [] w Hall Hdup)
    as (services & w1 & Hc & Hkeys & Hquiet & Ht & _ & Hst); [done|].
  assert (createServiceInstances "action" w = (Resolved services, w1)) as Hcreate.
  { unfold createServiceInstances, bind, read. by rewrite Hfs. }
  unfold createHandler. rewrite (bind_resolved _ _ _ _ _ Hcreate).
  set (action := instance cls services).
  set (w2 := set_statics (snd (ensureValidatorsCreated (ctor cls) (statics w1))) w1).
  assert (new_Action cls services w1 = (Resolved action, w2)) as Hmade.
  { unfold new_Action, w2. rewrite Hst.
    by destruct (ensureValidatorsCreated (ctor cls) (statics w)) as [[[]|e] st]. }
  rewrite (bind_resolved _ _ _ _ _ Hmade).
  destruct (startServiceInstances_resolves services w2) as (w3 & Hstart).
  { eapply Forall_impl; [exact Hquiet|]. by intros x [? _]. }
  pose proof (run_lifecycle action w2 w3 Hstart Hbefore) as Hlife.
  unfold after_run in Hlife. rewrite Hlife.
  - unfold full_lifecycle. simpl. rewrite Ht.
    assert (forall ev : string -> Event,
              map (fun s : string * Service => ev (fst s)) services
              = map (fun x : string * FactoryValue => ev (fst x)) factories) as Hmap.
    { intros ev. rewrite <- (map_map fst ev services), <- (map_map fst ev factories).
      by rewrite Hkeys. }
    by rewrite (Hmap ServiceStart), (Hmap ServiceStop).
  - intros name service Hin. simpl in Hin.
    apply Forall_forall with (x := (name, service)) in Hquiet as [_ Hstop]; [done|].
    by apply list_elem_of_In.
Qed.

(** X28. In a program whose static members are those earlier
    constructions left: when the constructor of the action throws -- the
    compiler refused a schema of the class -- the handler rejects with
    that error after the services were created and before [run]: no
    service is started or stopped, nothing is logged and the response is
    not touched. The class has its [validators] from then on, with a
    declared schema left without a validator: the constructor does not
    throw for the next request, which is validated without that schema. *)
Theorem createHandler_refused_schema cls w factories e :
  reachable (statics w) ->
  serviceFactories w = Some factories ->
  NoDup (map fst factories) ->
  Forall (fun x => creates_normally (snd x)) factories ->
  fst (ensureValidatorsCreated (ctor cls) (statics w)) = Rejected e ->
  exists w1,
    createHandler cls w = (Rejected e, w1)
    /\ trace w1 = trace w /\ ctx w1 = ctx w
    /\ (exists validators c schemas,
          validators_of cls w1 = Some validators
          /\ static_schemas (ctor cls) = Some schemas
          /\ declared (schema_of c schemas) = true
          /\ slot c validators = None)
    /\ ensureValidatorsCreated (ctor cls) (statics w1) = (Resolved tt, statics w1).
Proof.
  intros Hreach Hfs Hdup Hall Hnew.
  destruct (create_all (fun _ => True) factories [] w (creates_normally_any _ Hall) Hdup)
    as (services & w1 & Hc & _ & _ & Ht & Hx & Hst); [done|].
  assert (createServiceInstances "action" w = (Resolved services, w1)) as Hcreate.
  { unfold createServiceInstances, bind, read. by rewrite Hfs. }
  set (w2 := set_statics (snd (ensureValidatorsCreated (ctor cls) (statics w))) w1).
  assert (new_Action cls services w1 = (Rejected e, w2)) as Hmade.
  { unfold new_Action, w2. rewrite Hst.
    by destruct (ensureValidatorsCreated (ctor cls) (statics w)) as [[[]|e'] st];
      simpl in *; simplify_eq. }
  exists w2. split; [|split; [done|split; [done|]]].
  { unfold createHandler.
    by rewrite (bind_resolved _ _ _ _ _ Hcreate), (bind_rejected _ _ _ _ _ Hmade). }
  destruct (ctor cls) as [|this_ctor supers] eqn:Hctor; [done|].
  split.
  - destruct (static_lookup (action_validators (statics w))
                (map class_name (this_ctor :: supers))) as [found|] eqn:Hfound.
    { rewrite ensureValidatorsCreated_cached in Hnew; [done|by eexists]. }
    destruct (static_schemas (this_ctor :: supers)) as [schemas|] eqn:Hschemas.
    2: { unfold ensureValidatorsCreated in Hnew. by rewrite Hfound, Hschemas in Hnew. }
    destruct (first_construction (statics w) this_ctor supers schemas Hreach Hfound
                Hschemas) as (validators & Hv & _ & Hrest).
    rewrite Hnew in Hrest. destruct Hrest as (c & Hdeclared & Hslot).
    exists validators, c, schemas. unfold validators_of. by rewrite Hctor.
  - apply ensureValidatorsCreated_cached. simpl.
    apply ensureValidatorsCreated_caches.
Qed.
End Handlers.

(** ** The further properties on the scenarios *)

Section More_checks.
#[local] Existing Instance node.

Lemma removeLeadingWhitespace_flush_left_witness :
  flush_left true (units "lib/")
  /\ removeLeadingWhitespace (units "lib/") = units "lib/".
Proof.
  assert (flush_left true (units "lib/")) as Hflush by (vm_compute; tauto).
  split; [exact Hflush|].
  apply (proj1 (proj2 (removeLeadingWhitespace_flush_left (units "lib/")))), Hflush.
Defined.

Lemma array_is_plain_iff_witness :
  Forall (fun x => isPlainDto x = Resolved true) [jakso; VNumber 7]
  /\ isPlainDto (VArray [jakso; VNumber 7]) = Resolved true.
Proof.
  assert (Forall (fun x => isPlainDto x = Resolved true) [jakso; VNumber 7]) as Hall.
  { constructor; [reflexivity|]. constructor; [reflexivity|constructor]. }
  split; [exact Hall|]. apply (proj2 (array_is_plain_iff [jakso; VNumber 7])), Hall.
Defined.

Lemma isPlainDto_throws_on_null_only_witness :
  arrays_without_null (VArray [jakso; VArray [a_date]]) = true
  /\ exists plain, isPlainDto (VArray [jakso; VArray [a_date]]) = Resolved plain.
Proof.
  split; [reflexivity|].
  apply (proj2 (isPlainDto_throws_on_null_only (VArray [jakso; VArray [a_date]])));
    [discriminate|reflexivity].
Defined.

Lemma validators_mirror_schemas_witness :
  let after := ensureValidatorsCreated (ctor SearchAction) no_statics in
  fst after = Rejected not_a_schema
  /\ exists validators,
       static_lookup (action_validators (snd after)) (map class_name (ctor SearchAction))
       = Some validators
       /\ exists c,
            declared (schema_of c {| schemas_body := Some id_integer;
                                     schemas_params := Some (VString "integer");
                                     schemas_query := Some id_integer |}) = true
            /\ slot c validators = None.
Proof.
  intros after.
  assert (fst after = Rejected not_a_schema) as Hthrown by (vm_compute; reflexivity).
  split; [exact Hthrown|].
  destruct (validators_mirror_schemas no_statics SearchAction_class [Action_base]
              {| schemas_body := Some id_integer;
                 schemas_params := Some (VString "integer");
                 schemas_query := Some id_integer |})
    as (validators & Hfound & _ & Hleft).
  - apply reachable_empty.
  - reflexivity.
  - reflexivity.
  - exists validators. split; [exact Hfound|].
    change (ensureValidatorsCreated [SearchAction_class; Action_base] no_statics)
      with after in Hleft.
    rewrite Hthrown in Hleft. exact Hleft.
Defined.

Lemma validator_classes_keep_their_ajv_witness :
  let st :=
    snd (ensureValidatorsCreated [CreateUserAction_class; Action_base]
           (snd (ensureValidatorsCreated (ctor (GetUserAction [])) no_statics))) in
  static_lookup (validator_ajv st) (validator_chain BodyValidator)
  = Some (createAjv BodyValidator)
  /\ coerceTypes (createAjv BodyValidator) = false.
Proof.
  intros st.
  assert (static_lookup (validator_ajv st) (validator_chain BodyValidator)
          = Some (createAjv BodyValidator)) as Hajv by (vm_compute; reflexivity).
  split; [exact Hajv|].
  apply (validator_classes_keep_their_ajv st BodyValidator (createAjv BodyValidator));
    [|exact Hajv].
  apply reachable_construct, reachable_construct, reachable_empty.
Defined.

Lemma validators_never_change_witness :
  let st := snd (ensureValidatorsCreated [CreateUserAction_class; Action_base]
                   no_statics) in
  let chain := ["ImportUserAction"; "CreateUserAction"; "Action"] in
  exists validators,
    static_lookup (action_validators st) chain = Some validators
    /\ static_lookup
         (action_validators (snd (ensureValidatorsCreated (ctor ImportUserAction) st)))
         chain
       = Some validators.
Proof.
  intros st chain.
  destruct (static_lookup (action_validators st) chain) as [validators|] eqn:Hfound;
    [|by vm_compute in Hfound].
  exists validators. split; [reflexivity|].
  apply validators_never_change; [|exact Hfound|].
  - apply (bool_decide_unpack _). by vm_compute.
  - intros this_ctor supers [= <- <-] _. by exists [].
Defined.

Lemma typeCheck_leaves_one_rejection_witness :
  let w := set_serviceFactories [("db", NotFactory (VNumber 42))] (idle get_user_1) in
  typeCheckServiceFactories w
  = (Resolved tt,
     add_event (UnhandledRejection (ErrorObject ReferenceError "name is not defined")) w).
Proof.
  intros w. apply (typeCheck_leaves_one_rejection w [("db", NotFactory (VNumber 42))]).
  reflexivity.
Defined.

Lemma start_then_stop_witness :
  let w := set_koa ["bodyParser"; "routes"; "allowedMethods"]
             (set_serviceFactories [("health", Factory plain_factory)]
                (idle get_user_1)) in
  exists w1 w2,
    Application_start healthy w = Some (Resolved tt, w1)
    /\ Application_stop healthy w1 = (Resolved tt, w2)
    /\ trace w2 = [FactoryStart "health"; Listen 3001; Close true; FactoryStop "health"].
Proof.
  intros w.
  destruct (start_then_stop healthy w [("health", Factory plain_factory)]
              ["bodyParser"; "routes"; "allowedMethods"])
    as (w1 & w2 & H1 & _ & H2 & _ & Ht).
  - reflexivity.
  - reflexivity.
  - constructor; [|constructor]. intros u. reflexivity.
  - constructor; [|constructor]. intros u. reflexivity.
  - simpl. lia.
  - exact I.
  - exists w1, w2. split; [exact H1|]. split; [exact H2|exact Ht].
Defined.

Lemma start_fails_fast_witness :
  let w := set_serviceFactories
             [("health", Factory plain_factory); ("db", NotFactory (VNumber 42))]
             (idle get_user_1) in
  exists w1,
    Application_start misconfigured w
    = Some (Rejected (ErrorObject TypeError "factory.start is not a function"), w1)
    /\ server w1 = None
    /\ trace w1 = [FactoryStart "health"; FactoryStart "db"].
Proof.
  intros w.
  apply (start_fails_fast misconfigured w [("health", Factory plain_factory)] "db"
           (NotFactory (VNumber 42)) []).
  - reflexivity.
  - constructor; [|constructor]. intros u. reflexivity.
  - intros u. reflexivity.
Defined.

Lemma stop_fails_fast_witness :
  let w := set_server {| listening := true |}
             (set_serviceFactories
                [("db", NotFactory VNull); ("health", Factory plain_factory)]
                (idle get_user_1)) in
  exists w1,
    Application_stop misconfigured w
    = (Rejected (ErrorObject TypeError "Cannot read property 'stop' of null"), w1)
    /\ server w1 = Some {| listening := false |}
    /\ trace w1 = [Close true; FactoryStop "db"].
Proof.
  intros w.
  apply (stop_fails_fast misconfigured w {| listening := true |} [] "db"
           (NotFactory VNull) [("health", Factory plain_factory)]).
  - reflexivity.
  - reflexivity.
  - constructor.
  - intros u. reflexivity.
Defined.

Lemma start_after_failed_configure_witness :
  let w := set_serviceFactories [("health", Factory plain_factory)] (idle get_user_1) in
  exists w1,
    Application_start healthy w = Some (Rejected undefined_koa, w1)
    /\ server w1 = None
    /\ trace w1 = [FactoryStart "health"].
Proof.
  intros w.
  apply (start_after_failed_configure healthy w [("health", Factory plain_factory)]).
  - reflexivity.
  - reflexivity.
  - constructor; [|constructor]. intros u. reflexivity.
Defined.

Lemma start_without_server_witness :
  let w := set_network [false]
             (set_koa ["bodyParser"; "routes"; "allowedMethods"]
                (set_serviceFactories [("health", Factory plain_factory)]
                   (idle get_user_1))) in
  ~ port_free w /\ Application_start healthy w = None.
Proof.
  intros w.
  assert (~ port_free w) as Hbusy by (intros Hfree; exact Hfree).
  split; [exact Hbusy|].
  destruct (start_without_server healthy w [("health", Factory plain_factory)]
              ["bodyParser"; "routes"; "allowedMethods"]) as [_ Hpending].
  - reflexivity.
  - reflexivity.
  - constructor; [|constructor]. intros u. reflexivity.
  - apply Hpending; [simpl; lia|exact Hbusy].
Defined.

Lemma stop_unconfigured_witness :
  exists w1,
    Application_stop healthy (idle get_user_1) = (Rejected undefined_entries, w1)
    /\ trace w1 = [].
Proof. apply (stop_unconfigured healthy (idle get_user_1)). reflexivity. Defined.

Lemma configure_sets_koa_last_witness :
  let app :=
    {| config := {| type := test; port := 3001 |};
       createServiceFactories := fun u => (Resolved [("health", Factory plain_factory)], u);
       registerRoutes := fun u => (Rejected (ErrorObject Error "duplicate route"), u);
       beforeKoaConfigured := Application_koa_hook;
       afterKoaBodyParserAdded := Application_koa_hook;
       afterKoaConfigured := Application_koa_hook |} in
  fst (configure app (idle get_user_1)) = Rejected (ErrorObject Error "duplicate route")
  /\ koa (snd (configure app (idle get_user_1))) = None.
Proof.
  intros app. split; [reflexivity|].
  apply (configure_sets_koa_last app (idle get_user_1)
           (Rejected (ErrorObject Error "duplicate route"))
           (snd (configure app (idle get_user_1)))).
  reflexivity.
Defined.

Lemma run_maps_every_error_witness :
  let a := Throwing (ErrorObject Error "boom") in
  fst (run a (construct (ctor a) (idle get_user_1))) = Resolved tt.
Proof.
  intros a. apply (run_maps_every_error a).
  - intros u. reflexivity.
  - intros name service [[= <- <-]|[]] u. reflexivity.
  - intros u. reflexivity.
Defined.

Lemma start_failure_still_stops_all_witness :
  let locked := {| start := fun u => (Rejected (ErrorObject Error "locked"), u);
                   stop := fun u => (Resolved tt, u) |} in
  let a := GetUserAction [("db", locked); ("users", quiet)] in
  let w := construct (ctor a) (idle get_user_1) in
  fst (startServiceInstances (services a) w) = Rejected (ErrorObject Error "locked")
  /\ List.filter is_work (trace (after_run a w)) = []
  /\ exists before name service after,
       services a = before ++ (name, service) :: after
       /\ lifecycle (trace (after_run a w))
          = lifecycle (trace w)
            ++ map (fun s => ServiceStart (fst s)) (before ++ [(name, service)])
            ++ [BeforeStopServices]
            ++ map (fun s => ServiceStop (fst s)) (services a)
            ++ [AfterStopServices].
Proof.
  intros locked a w. split; [reflexivity|].
  edestruct (start_failure_still_stops_all a w) as (Hlife & Hwork & _).
  - reflexivity.
  - intros u. reflexivity.
  - intros name service [[= <- <-]|[[= <- <-]|[]]] u; reflexivity.
  - split; [exact Hwork|exact Hlife].
Defined.

Lemma stop_failure_rejects_run_witness :
  let a := GetUserAction [("db", stuck); ("users", quiet)] in
  let w := construct (ctor a) (idle get_user_1) in
  fst (run a w) = Rejected (ErrorObject Error "connection lost")
  /\ List.filter is_cleanup (trace (after_run a w)) = [ServiceStop "db"].
Proof.
  intros a w.
  edestruct (stop_failure_rejects_run a w [] "db" stuck [("users", quiet)])
    as (Hrun & Hcleanup & _).
  - reflexivity.
  - intros n s [].
  - intros u. reflexivity.
  - intros u. reflexivity.
  - split; [exact Hrun|exact Hcleanup].
Defined.

Lemma validate_checks_in_order_witness :
  let a := GetUserAction [] in
  let w := construct (ctor a) (idle get_user_notanumber) in
  is_Some (validators_of a w)
  /\ exists result w', validate a w = (Resolved result, w').
Proof.
  intros a w.
  destruct (validators_of a w) as [validators|] eqn:Hv; [|by vm_compute in Hv].
  split; [by eexists|].
  apply (proj1 (proj2 (validate_checks_in_order a w validators Hv))).
Defined.

Lemma failed_validation_response_witness :
  let a := GetUserAction [("users", quiet)] in
  let w := construct (ctor a) (idle get_user_notanumber) in
  (exists errors,
     response (after_run a w)
     = (400, VObject [("error", VString "Validation"); ("errors", errors)]))
  /\ List.filter is_pipeline_call (trace (after_run a w)) = [].
Proof.
  intros a w. eapply (failed_validation_response a w). reflexivity.
Defined.

Lemma thrown_by_handle_is_mapped_witness :
  let a := Throwing (ErrorObject NotFoundError "no user 7") in
  let w := construct (ctor a) (idle get_user_1) in
  response (after_run a w) = (404, VObject [("error", VString "NotFound")]).
Proof.
  intros a w.
  edestruct (thrown_by_handle_is_mapped a w) as (_ & Hnotfound & _).
  - reflexivity.
  - reflexivity.
  - reflexivity.
  - apply Hnotfound. reflexivity.
Defined.

Lemma createServiceInstances_one_per_factory_witness :
  let factories := [("db", Factory plain_factory); ("health", Factory plain_factory)] in
  let w := set_serviceFactories factories (idle get_user_1) in
  exists services w1,
    createServiceInstances "action" w = (Resolved services, w1)
    /\ map fst services = ["db"; "health"]
    /\ trace w1 = [] /\ ctx w1 = get_user_1.
Proof.
  intros factories w.
  apply (createServiceInstances_one_per_factory "action" w factories).
  - reflexivity.
  - apply (bool_decide_unpack _). by vm_compute.
  - constructor; [|constructor; [|constructor]]; intros u; reflexivity.
Defined.

Lemma createHandler_fails_before_run_witness :
  let w := set_serviceFactories
             [("health", Factory plain_factory); ("db", NotFactory (VNumber 42))]
             (idle get_user_1) in
  exists w1,
    createHandler (GetUserAction []) w
    = (Rejected (ErrorObject TypeError "factory.createService is not a function"), w1)
    /\ trace w1 = [] /\ ctx w1 = get_user_1 /\ statics w1 = no_statics.
Proof.
  intros w.
  apply (createHandler_fails_before_run (GetUserAction []) w
           [("health", Factory plain_factory)] "db" (NotFactory (VNumber 42)) []).
  - reflexivity.
  - constructor; [|constructor]. intros u; reflexivity.
  - intros u. reflexivity.
Defined.

Lemma createHandler_lifecycle_witness :
  let factories := [("db", Factory plain_factory); ("health", Factory plain_factory)] in
  let w := set_serviceFactories factories (idle get_user_notanumber) in
  lifecycle (trace (snd (createHandler (GetUserAction []) w)))
  = [ServiceStart "db"; ServiceStart "health"; BeforeStopServices;
     ServiceStop "db"; ServiceStop "health"; AfterStopServices].
Proof.
  intros factories w.
  apply (createHandler_lifecycle (GetUserAction []) w factories).
  - reflexivity.
  - apply (bool_decide_unpack _). by vm_compute.
  - constructor; [|constructor; [|constructor]];
      intros u; split; intros u'; reflexivity.
  - intros u. reflexivity.
  - vm_compute. reflexivity.
Defined.

Lemma createHandler_refused_schema_witness :
  let factories := [("health", Factory plain_factory)] in
  let w := set_serviceFactories factories (idle get_user_1) in
  fst (ensureValidatorsCreated (ctor SearchAction) (statics w)) = Rejected not_a_schema
  /\ exists w1,
       createHandler SearchAction w = (Rejected not_a_schema, w1)
       /\ trace w1 = []
       /\ ensureValidatorsCreated (ctor SearchAction) (statics w1)
          = (Resolved tt, statics w1).
Proof.
  intros factories w.
  assert (fst (ensureValidatorsCreated (ctor SearchAction) (statics w))
          = Rejected not_a_schema) as Hthrown by (vm_compute; reflexivity).
  split; [exact Hthrown|].
  destruct (createHandler_refused_schema SearchAction w factories not_a_schema)
    as (w1 & Hrun & Ht & _ & _ & Hnext).
  - apply reachable_empty.
  - reflexivity.
  - apply (bool_decide_unpack _). by vm_compute.
  - constructor; [|constructor]. intros u. reflexivity.
  - exact Hthrown.
  - exists w1. split; [exact Hrun|]. split; [exact Ht|exact Hnext].
Defined.
End More_checks.
